(** * The error-code fixer scripts of rv-server, embedded and verified

    The repository holds six one-shot Python scripts that patch TypeScript
    repository classes: they inject an import of [InfrastructureException],
    rename [throw new Error(] and append an error-code argument.

    The scripts work on Python [str] values with [str.replace], [in],
    [split], [join], [strip], [rstrip], [endswith], [startswith],
    [re.sub] and list item assignment.  This file embeds those
    operations on lists of code points, embeds each script on top of them,
    and states the properties of the rewriting as theorems. *)

From Stdlib Require Import NArith String Ascii List Bool Arith Lia.
From stdpp Require Import base list strings gmap.

Set Default Proof Using "Type".

(** ** Text *)

(** A Python [str] is a sequence of code points. *)
Abbreviation char := N (only parsing).
Abbreviation text := (list N) (only parsing).

(** A literal of the source, written as a Rocq string. *)
Definition lit (s : string) : text := map N_of_ascii (list_ascii_of_string s).

Definition nl : char := 10%N.        (* line feed *)
Definition cr : char := 13%N.        (* carriage return *)
Definition sq : char := 39%N.        (* single quote *)
Definition dq : char := 34%N.        (* double quote *)
Definition bt : char := 96%N.        (* backtick *)

(** [s.startswith(p)] *)
Fixpoint starts_with (p s : text) : bool :=
  match p, s with
  | [], _ => true
  | _ :: _, [] => false
  | a :: p', b :: s' => N.eqb a b && starts_with p' s'
  end.

(** [s.endswith(p)] *)
Definition ends_with (p s : text) : bool := starts_with (rev p) (rev s).

(** [p in s] *)
Fixpoint contains (p s : text) : bool :=
  starts_with p s ||
  match s with
  | [] => false
  | _ :: s' => contains p s'
  end.

(** The number of positions of [s] at which [p] occurs. *)
Fixpoint occurrences (p s : text) : nat :=
  (if starts_with p s then 1 else 0) +
  match s with
  | [] => 0
  | _ :: s' => occurrences p s'
  end.

(** The characters that [str.strip], [str.rstrip] and the regular
    expression class [\s] treat as white space. *)
Definition is_space (c : char) : bool :=
  ((9 <=? c) && (c <=? 13) || (28 <=? c) && (c <=? 32)
   || (c =? 133) || (c =? 160) || (c =? 5760)
   || (8192 <=? c) && (c <=? 8202)
   || (c =? 8232) || (c =? 8233) || (c =? 8239) || (c =? 8287)
   || (c =? 12288))%N.

(** [s.lstrip()] *)
Fixpoint lstrip (s : text) : text :=
  match s with
  | [] => []
  | c :: s' => if is_space c then lstrip s' else s
  end.

(** [s.rstrip()] *)
Fixpoint rstrip (s : text) : text :=
  match s with
  | [] => []
  | c :: s' =>
      match rstrip s' with
      | [] => if is_space c then [] else [c]
      | r => c :: r
      end
  end.

(** [s.strip()] *)
Definition strip (s : text) : text := lstrip (rstrip s).

(** [s.split('\n')] *)
Fixpoint split_nl (s : text) : list text :=
  match s with
  | [] => [[]]
  | c :: s' =>
      if N.eqb c nl then [] :: split_nl s'
      else match split_nl s' with
           | l :: ls => (c :: l) :: ls
           | [] => [[c]]
           end
  end.

(** ['\n'.join(ls)] *)
Fixpoint join_nl (ls : list text) : text :=
  match ls with
  | [] => []
  | [l] => l
  | l :: ls' => l ++ nl :: join_nl ls'
  end.

(** The lines of a text file as [f.readlines()] returns them: each line
    keeps its line feed, the last one may have none. *)
Fixpoint readlines (s : text) : list text :=
  match s with
  | [] => []
  | c :: s' =>
      if N.eqb c nl then [c] :: readlines s'
      else match readlines s' with
           | l :: ls => (c :: l) :: ls
           | [] => [[c]]
           end
  end.

(** [f.writelines(ls)] writes the items one after the other. *)
Definition writelines (ls : list text) : text := concat ls.

(** Reading a file opened in text mode translates the line endings
    CR LF and CR to LF. *)
Fixpoint universal_newlines (s : text) : text :=
  match s with
  | [] => []
  | c :: s' =>
      if N.eqb c cr then
        match s' with
        | d :: s'' => if N.eqb d nl then nl :: universal_newlines s''
                      else nl :: universal_newlines s'
        | [] => [nl]
        end
      else c :: universal_newlines s'
  end.

(** ** Leftmost, non-overlapping substitution

    [str.replace] and [re.sub] both walk the text from the left; where the
    pattern matches they emit the replacement and go on behind the match,
    elsewhere they copy one character.  A matcher tells, for the text that
    starts at the current position, the replacement and the length of the
    match.  The matchers of this file never match the empty text. *)

Definition matcher : Type := text -> option (text * nat).

Fixpoint scan_from (m : matcher) (skip : nat) (s : text) {struct s} : text :=
  match s with
  | [] => []
  | c :: s' =>
      match skip with
      | S k => scan_from m k s'
      | O =>
          match m s with
          | Some (out, len) => out ++ scan_from m (Nat.pred len) s'
          | None => c :: scan_from m 0 s'
          end
      end
  end.

Definition scan (m : matcher) (s : text) : text := scan_from m 0 s.

(** [s.replace(old, new)], for a non-empty [old] (every call of the
    scripts has one). *)
Definition replace_matcher (old new : text) : matcher :=
  fun s => if starts_with old s then Some (new, length old) else None.

Definition str_replace (old new s : text) : text := scan (replace_matcher old new) s.

(** ** The regular expressions of the scripts

    Every pattern is [throw new Error\(], an opening delimiter, a non-empty
    run of characters other than the delimiter, the delimiter and [\);];
    the fourth pattern of the calendar script allows white space around
    the delimited message.  The run is greedy and stops at the first
    delimiter, and neither a delimiter nor [)] is white space, so the
    match at a position is unique and no backtracking is involved.  The
    replacement is the renamed constructor, the captured group between
    the output delimiters, and the fixed code. *)

Record rule : Type := Rule {
  around_ws : bool;   (* [\s*] before and after the delimited message *)
  delim : char;       (* the delimiter of the pattern *)
  out_delim : char    (* the delimiter written by the replacement *)
}.

Definition throw_error : text := lit "throw new Error(".
Definition throw_infra : text := lit "throw new InfrastructureException(".

(** [, "INFRASTRUCTURE_ERROR");] *)
Definition code_suffix : text :=
  lit ", " ++ dq :: lit "INFRASTRUCTURE_ERROR" ++ dq :: lit ");".

(** The text behind a prefix, when it is one. *)
Fixpoint strip_prefix (p s : text) : option text :=
  match p, s with
  | [], _ => Some s
  | _ :: _, [] => None
  | a :: p', b :: s' => if N.eqb a b then strip_prefix p' s' else None
  end.

(** The longest run of characters other than [d], and the rest. *)
Fixpoint span_until (d : char) (s : text) : text * text :=
  match s with
  | [] => ([], [])
  | c :: s' =>
      if N.eqb c d then ([], s)
      else let (run, rest) := span_until d s' in (c :: run, rest)
  end.

Definition skip_ws (b : bool) (s : text) : text := if b then lstrip s else s.

(** The match of a rule at the start of [s]: the captured payload and the
    text behind the match. *)
Definition match_rule (r : rule) (s : text) : option (text * text) :=
  match strip_prefix throw_error s with
  | None => None
  | Some s1 =>
      match skip_ws (around_ws r) s1 with
      | d :: s2 =>
          if N.eqb d (delim r) then
            match span_until (delim r) s2 with
            | ((_ :: _) as payload, _ :: s3) =>
                match strip_prefix (lit ");") (skip_ws (around_ws r) s3) with
                | Some rest => Some (payload, rest)
                | None => None
                end
            | _ => None
            end
          else None
      | [] => None
      end
  end.

Definition rule_output (r : rule) (payload : text) : text :=
  throw_infra ++ out_delim r :: payload ++ out_delim r :: code_suffix.

Definition rule_matcher (r : rule) : matcher :=
  fun s =>
    match match_rule r s with
    | Some (payload, rest) =>
        Some (rule_output r payload, length s - length rest)
    | None => None
    end.

(** [re.sub(pattern, replacement, content, flags=re.MULTILINE | re.DOTALL)] *)
Definition re_sub (r : rule) (content : text) : text := scan (rule_matcher r) content.

Definition single_quoted : rule := Rule false sq dq.
Definition double_quoted : rule := Rule false dq dq.
Definition template : rule := Rule false bt bt.
Definition template_spaced : rule := Rule true bt bt.

(** [for pattern, replacement in patterns: content = re.sub(...)] *)
Definition apply_patterns (patterns : list rule) (content : text) : text :=
  fold_left (fun c r => re_sub r c) patterns content.

(** ** Loops over [enumerate(lines)]

    The loops of the scripts assign to items of the list they iterate over.
    The list iterator reads item [i] of the list as it is when the
    iteration reaches it.  The bodies only assign to existing indices, so
    the length stays what it was and the loop runs once per index. *)

Definition loop_body : Type := nat -> text -> list text -> list text.

Fixpoint enumerate_from (body : loop_body) (i n : nat) (lines : list text) : list text :=
  match n with
  | O => lines
  | S n' =>
      match lines !! i with
      | Some line => enumerate_from body (S i) n' (body i line lines)
      | None => lines
      end
  end.

Definition for_enumerate (body : loop_body) (lines : list text) : list text :=
  enumerate_from body 0 (length lines) lines.

(** [lines[i]], read where the source has checked that the index is in
    range. *)
Definition item (lines : list text) (i : nat) : text := default [] (lines !! i).

(** ** fix_business_repo.py *)

Definition marker : text := lit "InfrastructureException".

Definition import_decl : text :=
  lit "import { InfrastructureException } from '@shared/exceptions/shared.exceptions';".

Definition business_anchor : text := lit "import { Repository } from 'typeorm';".

(** The import guard of lines 9 to 13. *)
Definition inject_business (content : text) : text :=
  if contains marker content then content
  else str_replace business_anchor (business_anchor ++ nl :: import_decl) content.

(** Line 16. *)
Definition rename_throw (content : text) : text :=
  str_replace throw_error throw_infra content.

Definition template_call : text := lit "throw new InfrastructureException(`".

(** The test of line 21. *)
Definition is_template_statement (line : text) : bool :=
  contains template_call line && ends_with (lit ");") (strip line).

(** The assignment of line 23. *)
Definition append_code (line : text) : text := str_replace (lit ");") code_suffix line.

(** The body of the loop of lines 20 to 23. *)
Definition business_body : loop_body :=
  fun i line lines =>
    if is_template_statement line then <[i := append_code line]> lines else lines.

(** The script, from the text read to the text written. *)
Definition fix_business_repo (content : text) : text :=
  let content := inject_business content in
  let content := rename_throw content in
  let lines := split_nl content in
  let lines := for_enumerate business_body lines in
  join_nl lines.

(** ** fix_business_sector_repo.py *)

(** [lines.insert(i+1, x)] *)
Definition list_insert_at (i : nat) (x : text) (lines : list text) : list text :=
  take i lines ++ x :: drop i lines.

(** The loop of lines 12 to 15: insert after the first line that starts
    with [import ], then leave the loop. *)
Fixpoint insert_after_first_import (i : nat) (rest lines : list text) : list text :=
  match rest with
  | [] => lines
  | line :: rest' =>
      if starts_with (lit "import ") line
      then list_insert_at (i + 1) import_decl lines
      else insert_after_first_import (S i) rest' lines
  end.

(** The import guard of lines 9 to 16. *)
Definition inject_sector (content : text) : text :=
  if contains marker content then content
  else
    let lines := split_nl content in
    let lines := insert_after_first_import 0 lines lines in
    join_nl lines.

Definition sector_patterns : list rule := [single_quoted; double_quoted; template].

Definition fix_business_sector_repo (content : text) : text :=
  apply_patterns sector_patterns (inject_sector content).

(** ** fix_calendar_repo.py and fix_role_assignment_repo.py

    Their import pattern holds no character that is special in a regular
    expression, and their replacement holds no backslash, so the [re.sub]
    of line 13 is a replacement of text. *)

Definition calendar_anchor : text :=
  lit "import { Repository, QueryRunner, Brackets } from 'typeorm';".

Definition inject_calendar (content : text) : text :=
  if contains marker content then content
  else str_replace calendar_anchor (calendar_anchor ++ nl :: import_decl) content.

Definition calendar_patterns : list rule :=
  [single_quoted; double_quoted; template; template_spaced].

Definition fix_calendar_repo (content : text) : text :=
  apply_patterns calendar_patterns (inject_calendar content).

Definition fix_role_assignment_repo (content : text) : text :=
  apply_patterns sector_patterns (inject_business content).

(** ** fix_rbac_context_repo.py *)

Definition rbac_anchor : text := lit "import { Injectable } from '@nestjs/common';".

Definition inject_rbac (content : text) : text :=
  if contains marker content then content
  else str_replace rbac_anchor (rbac_anchor ++ nl :: import_decl) content.

(** The translation keys and their codes, in the order of lines 17 to 40. *)
Definition rbac_table : list (string * string) :=
  [ ("saveError", "RBAC_SAVE_ERROR");
    ("findError", "RBAC_FIND_ERROR");
    ("findAllError", "RBAC_FIND_ALL_ERROR");
    ("existsError", "RBAC_EXISTS_ERROR");
    ("deleteError", "RBAC_DELETE_ERROR");
    ("statsError", "RBAC_STATS_ERROR") ]%string.

Definition translate_call (key : string) : text :=
  lit "throw new InfrastructureException(this.i18n.translate('rbac.businessContext."
  ++ lit key ++ lit "')".

(** One [content.replace] of lines 17 to 40. *)
Definition rbac_replace (entry : string * string) (content : text) : text :=
  str_replace (translate_call (fst entry) ++ lit ");")
          (translate_call (fst entry) ++ lit ", '" ++ lit (snd entry) ++ lit "');")
          content.

Definition fix_rbac_context_repo (content : text) : text :=
  let content := inject_rbac content in
  let content := rename_throw content in
  fold_left (fun c entry => rbac_replace entry c) rbac_table content.

(** ** quick_fix_business.py *)

(** The text assigned to [lines[i+2]]: the code on a line of its own,
    indented by eight spaces, and the closing line, indented by six. *)
Definition closing_with_code : text :=
  lit "        " ++ dq :: lit "INFRASTRUCTURE_ERROR" ++ dq :: nl :: lit "      );" ++ [nl].

(** The chain of [if] and [elif] of lines 10 to 25. *)
Definition assign_code (i : nat) (lines : list text) : list text :=
  if contains (lit "Failed to find business by id:") (item lines (i + 1))
  then <[i + 2 := closing_with_code]> lines
  else if contains (lit "Failed to find business by name:") (item lines (i + 1))
  then <[i + 2 := closing_with_code]> lines
  else if contains (lit "Failed to find businesses by sector:") (item lines (i + 1))
  then <[i + 2 := closing_with_code]> lines
  else if contains (lit "Failed to search businesses:") (item lines (i + 1))
  then <[i + 2 := closing_with_code]> lines
  else if contains (lit "Failed to save business:") (item lines (i + 1))
  then <[i + 2 := closing_with_code]> lines
  else if contains (lit "Failed to delete business:") (item lines (i + 1))
  then <[i + 2 := closing_with_code]> lines
  else if contains (lit "Failed to check business name existence:") (item lines (i + 1))
  then <[i + 2 := closing_with_code]> lines
  else if contains (lit "Failed to get business statistics:") (item lines (i + 1))
  then <[i + 2 := closing_with_code]> lines
  else lines.

(** Lines 28 and 29. *)
Definition add_comma (i : nat) (lines : list text) : list text :=
  if negb (ends_with (lit ",") (rstrip (item lines (i + 1))))
  then <[i + 1 := rstrip (item lines (i + 1)) ++ lit "," ++ [nl]]> lines
  else lines.

(** The body of the loop of lines 8 to 29. *)
Definition quick_fix_body : loop_body :=
  fun i line lines =>
    if contains (lit "throw new InfrastructureException(") line
       && (i + 2 <? length lines)
       && bool_decide (strip (item lines (i + 2)) = lit ");")
    then add_comma i (assign_code i lines)
    else lines.

Definition quick_fix_lines (lines : list text) : list text :=
  for_enumerate quick_fix_body lines.

(** The script, from the text read to the text written. *)
Definition quick_fix_business (content : text) : text :=
  writelines (quick_fix_lines (readlines content)).

(** ** Files

    Every script opens its file for reading, transforms the text and opens
    the same file for writing; nothing compares the new text with the old.
    A missing file ends the script with an exception before anything is
    written. *)









(** ** Notions used by the statements *)

(** [x] and [y] agree as far as both go: one is a prefix of the other. *)
Fixpoint compat (x y : text) : bool :=
  match x, y with
  | a :: x', b :: y' => N.eqb a b && compat x' y'
  | _, _ => true
  end.

(** No occurrence of [p] can begin inside an occurrence of [w]. *)
Definition no_start_inside (p w : text) : bool :=
  forallb (fun i => negb (compat p (drop i w))) (seq 0 (length w)).

(** No occurrence of [p] that begins before an occurrence of [w] can
    reach into it. *)
Definition no_reach_into (p w : text) : bool :=
  forallb (fun d => negb (compat (drop d p) w)) (seq 1 (length p - 1)).

(** No occurrence of [p] begins at one of the first [n] positions of
    [w]. *)
Definition no_start_before (n : nat) (p w : text) : bool :=
  forallb (fun i => negb (compat p (drop i w))) (seq 0 n).

(** Occurrences of [p] and of [w] never share a character. *)
Definition apart (p w : text) : bool := no_start_inside p w && no_reach_into p w.

(** Two occurrences of [p] never overlap. *)
Definition unbordered (p : text) : bool := no_reach_into p p.

(** The white space that a line starts with. *)
Fixpoint indentation (line : text) : text :=
  match line with
  | [] => []
  | c :: line' => if is_space c then c :: indentation line' else []
  end.

(** What the loop of fix_business_repo.py does to one line. *)
Definition fix_line (line : text) : text :=
  if is_template_statement line then append_code line else line.

(** The eight messages that quick_fix_business.py looks for. *)
Definition quick_fix_keys : list text :=
  [ lit "Failed to find business by id:";
    lit "Failed to find business by name:";
    lit "Failed to find businesses by sector:";
    lit "Failed to search businesses:";
    lit "Failed to save business:";
    lit "Failed to delete business:";
    lit "Failed to check business name existence:";
    lit "Failed to get business statistics:" ].

Definition has_key (line : text) : bool :=
  existsb (fun key => contains key line) quick_fix_keys.

(** What lines 28 and 29 leave in the place of the message line. *)
Definition with_comma (line : text) : text :=
  if ends_with (lit ",") (rstrip line) then line
  else rstrip line ++ lit "," ++ [nl].

Definition all_space (s : text) : bool := forallb is_space s.

(** No occurrence of [p] begins in [x], whatever follows. *)
Definition quiet (p x : text) : Prop :=
  forall i r, i < length x -> starts_with p (drop i (x ++ r)) = false.

(** The delimiters of the patterns. *)
Definition delimiters : list char := [sq; dq; bt].

(** A statement that a pattern with delimiter [q] matches, and what a
    replacement with delimiter [q] writes for it. *)
Definition stmt_in (q : char) (payload : text) : text :=
  throw_error ++ q :: payload ++ q :: lit ");".

Definition stmt_out (q : char) (payload : text) : text :=
  throw_infra ++ q :: payload ++ q :: code_suffix.

(** The delimiters that a rule reads and writes are among the three. *)
Definition well_delimited (r : rule) : Prop :=
  delim r ∈ delimiters /\ out_delim r ∈ delimiters.

(** ** Sample inputs *)

(** A single-line statement with a template literal. *)
Definition template_sample : text := lit "throw new Error(`boom`);".

(** The same statement once a code has been appended. *)
Definition template_with_code : text :=
  lit "throw new InfrastructureException(`boom`, " ++ dq :: lit "INFRASTRUCTURE_ERROR" ++ dq :: lit ");".

Definition single_quoted_sample : text := lit "throw new Error('boom');".

Definition double_quoted_sample : text :=
  lit "throw new Error(" ++ dq :: lit "boom" ++ dq :: lit ");".

(** A statement with a template literal, spread over three lines. *)
Definition multi_line_sample : text :=
  lit "throw new Error(" ++ nl :: lit "  `boom`" ++ nl :: lit ");".

(** A three-line block of quick_fix_business.py whose message is one of
    the eight, with a closing line that is not indented. *)
Definition known_block : list text :=
  [ lit "throw new InfrastructureException(" ++ [nl];
    lit "  `Failed to save business: ${e}`" ++ [nl];
    lit ");" ++ [nl] ].

(** A three-line block whose message is none of the eight. *)
Definition unknown_block : list text :=
  [ lit "      throw new InfrastructureException(" ++ [nl];
    lit "        `Failed to archive business: ${e}`" ++ [nl];
    lit "      );" ++ [nl] ].

(** The scenario of the specification: the input line, and the line that
    the specification expects. *)
Definition scenario_line : text :=
  lit "throw new Error('Failed to save business: ' + err);".

Definition scenario_expected : text :=
  lit "throw new InfrastructureException('Failed to save business: ' + err, "
  ++ dq :: lit "BUSINESS_SAVE_ERROR" ++ dq :: lit ");".

Definition scenario_renamed : text :=
  lit "throw new InfrastructureException('Failed to save business: ' + err);".

(** A file that no script changes. *)
Definition plain_file : text := lit "export const answer = 42;" ++ [nl].


(** A file with the anchor of fix_business_repo.py and one statement, and
    a file with the anchor twice. *)
Definition anchored_sample : text := business_anchor ++ nl :: template_sample.

Definition twice_anchored_sample : text :=
  business_anchor ++ nl :: business_anchor ++ nl :: template_sample.

(** The text that a [content.replace] of fix_rbac_context_repo.py looks
    for. *)
Definition rbac_pattern (entry : string * string) : text :=
  translate_call (fst entry) ++ lit ");".



(** fix_rbac_context_repo.py behind its import guard. *)
Definition rbac_rewrite (content : text) : text :=
  fold_left (fun c entry => rbac_replace entry c) rbac_table (rename_throw content).



(** ** The files of the other scripts *)







(** ** Subscripts

    [lines[k]] raises [IndexError] when [k] is not an index of the list,
    where the item is read and where it is assigned.  The definitions
    below follow quick_fix_business.py once more, with every subscript
    checked: [None] stands for the exception.  The test of line 9 is
    evaluated from the left and stops at the first part that is false. *)

Definition getitem (lines : list text) (k : nat) : option text := lines !! k.

Definition setitem (k : nat) (x : text) (lines : list text) : option (list text) :=
  if k <? length lines then Some (<[k := x]> lines) else None.

(** The chain of lines 10 to 25; every test reads [lines[i+1]]. *)
Definition assign_code_checked (i : nat) (lines : list text) : option (list text) :=
  l ← getitem lines (i + 1);
  if contains (lit "Failed to find business by id:") l
  then setitem (i + 2) closing_with_code lines else
  l ← getitem lines (i + 1);
  if contains (lit "Failed to find business by name:") l
  then setitem (i + 2) closing_with_code lines else
  l ← getitem lines (i + 1);
  if contains (lit "Failed to find businesses by sector:") l
  then setitem (i + 2) closing_with_code lines else
  l ← getitem lines (i + 1);
  if contains (lit "Failed to search businesses:") l
  then setitem (i + 2) closing_with_code lines else
  l ← getitem lines (i + 1);
  if contains (lit "Failed to save business:") l
  then setitem (i + 2) closing_with_code lines else
  l ← getitem lines (i + 1);
  if contains (lit "Failed to delete business:") l
  then setitem (i + 2) closing_with_code lines else
  l ← getitem lines (i + 1);
  if contains (lit "Failed to check business name existence:") l
  then setitem (i + 2) closing_with_code lines else
  l ← getitem lines (i + 1);
  if contains (lit "Failed to get business statistics:") l
  then setitem (i + 2) closing_with_code lines
  else Some lines.

(** Lines 28 and 29. *)
Definition add_comma_checked (i : nat) (lines : list text) : option (list text) :=
  l ← getitem lines (i + 1);
  if negb (ends_with (lit ",") (rstrip l))
  then l' ← getitem lines (i + 1);
       setitem (i + 1) (rstrip l' ++ lit "," ++ [nl]) lines
  else Some lines.

(** The body of the loop of lines 8 to 29. *)
Definition quick_fix_body_checked (i : nat) (line : text) (lines : list text)
    : option (list text) :=
  if contains (lit "throw new InfrastructureException(") line then
    if i + 2 <? length lines then
      l2 ← getitem lines (i + 2);
      if bool_decide (strip l2 = lit ");") then
        lines' ← assign_code_checked i lines;
        add_comma_checked i lines'
      else Some lines
    else Some lines
  else Some lines.

Fixpoint enumerate_from_checked (body : nat -> text -> list text -> option (list text))
    (i n : nat) (lines : list text) : option (list text) :=
  match n with
  | O => Some lines
  | S n' =>
      match lines !! i with
      | Some line =>
          lines' ← body i line lines;
          enumerate_from_checked body (S i) n' lines'
      | None => Some lines
      end
  end.

Definition quick_fix_lines_checked (lines : list text) : option (list text) :=
  enumerate_from_checked quick_fix_body_checked 0 (length lines) lines.

(** ** Further notions *)

(** fix_business_repo.py behind its import guard. *)
Definition business_rewrite (s : text) : text :=
  join_nl (map fix_line (split_nl (rename_throw s))).

(** The text that a [content.replace] of fix_rbac_context_repo.py
    writes. *)
Definition rbac_replacement (entry : string * string) : text :=
  translate_call (fst entry) ++ lit ", '" ++ lit (snd entry) ++ lit "');".

(** The replacements of lines 17 to 40, one after the other. *)
Abbreviation rbac_fold es := (fold_left (fun c entry => rbac_replace entry c) es).

(** The argument of a translate call. *)
Definition translate_args (key : string) : text :=
  lit "this.i18n.translate('rbac.businessContext." ++ lit key ++ lit "')".

(** A translate call as fix_rbac_context_repo.py finds it in a file that
    has not been renamed. *)
Definition rbac_source_call (entry : string * string) : text :=
  throw_error ++ translate_args (fst entry) ++ lit ");".

(** A template-literal statement with white space around the literal, as
    the fourth pattern of fix_calendar_repo.py admits it. *)
Definition spaced_stmt (ws1 m ws2 : text) : text :=
  throw_error ++ ws1 ++ bt :: m ++ bt :: ws2 ++ lit ");".

(** A call whose argument list goes on behind the message: the call up to
    the message and the white space behind it. *)
Definition open_call (q : char) (m ws : text) : text :=
  throw_error ++ q :: m ++ q :: ws.

(** A file as the scripts with regular expressions expect it: each item
    is the text before a statement, the delimiter of the message and the
    message; [rest] is the text behind the last statement. *)
Definition statements_in (items : list (text * char * text)) (rest : text) : text :=
  foldr (fun '(a, q, m) t => a ++ stmt_in q m ++ t) rest items.

(** The delimiter that the replacements write for a delimiter read. *)
Definition written_delim (q : char) : char := if N.eqb q sq then dq else q.

Definition statements_out (items : list (text * char * text)) (rest : text) : text :=
  foldr (fun '(a, q, m) t => a ++ stmt_out (written_delim q) m ++ t) rest items.

(** A statement with a message that is not empty, does not hold its
    delimiter and, like the text before it, does not hold the call. *)
Definition plain_statement (item : text * char * text) : Prop :=
  let '(a, q, m) := item in
  q ∈ delimiters /\ m <> [] /\ (q ∉ m) /\
  contains throw_error a = false /\ contains throw_error m = false.

(** The two lines of [closing_with_code], as [readlines] gives them when
    the file is read again. *)
Definition code_line : text :=
  lit "        " ++ dq :: lit "INFRASTRUCTURE_ERROR" ++ [dq; nl].

Definition closing_line : text := lit "      );" ++ [nl].

(** A text without carriage return. *)
Definition lf_only (s : text) : Prop := Forall (fun c => c <> cr) s.

(** ** Further sample inputs *)

(** A file that holds the import and a rewritten statement already. *)
Definition migrated_file : text :=
  import_decl ++ nl :: template_with_code ++ [nl].

(** A template literal that holds the text of a call. *)
Definition nested_sample : text :=
  lit "throw new Error(`throw new Error(`);  X`);".

(** The same with white space around the template literals. *)
Definition nested_spaced_sample : text :=
  lit "throw new Error( `throw new Error( ` );  X` );".

(** The anchor line of fix_business_repo.py and one statement with each
    delimiter. *)
Definition three_statements : text :=
  business_anchor ++ nl :: single_quoted_sample ++ nl ::
  double_quoted_sample ++ nl :: template_sample ++ [nl].

(** A comment and one statement with each delimiter, as items. *)
Definition statement_items : list (text * char * text) :=
  [ (lit "// InfrastructureException" ++ [nl], sq, lit "not found");
    ([nl], dq, lit "not saved");
    ([nl], bt, lit "failed: ${e}") ].

(** Two calls of fix_rbac_context_repo.py, one renamed already. *)
Definition rbac_sample : text :=
  rbac_anchor ++ nl ::
  lit "throw new Error(this.i18n.translate('rbac.businessContext.findError'));" ++ nl ::
  lit "throw new InfrastructureException(this.i18n.translate('rbac.businessContext.findAllError'));"
  ++ [nl].

(** A line with two statements, the second one a template statement. *)
Definition two_calls_line : text :=
  lit "cleanup(); throw new InfrastructureException(`boom`);".

(** A file of quick_fix_business.py: a comment, a block of three lines
    and a line behind it. *)
Definition block_in_file : list text :=
  [ lit "// save" ++ [nl];
    lit "throw new InfrastructureException(" ++ [nl];
    lit "  `Failed to save business: ${e}`" ++ [nl];
    lit ");" ++ [nl];
    lit "return;" ++ [nl] ].


(** A block whose message line holds the call itself. *)
Definition call_in_message : text :=
  lit "throw new InfrastructureException(" ++ nl ::
  lit "throw new InfrastructureException(`Failed to save business:`" ++ nl ::
  lit ");" ++ [nl].

(** A file that quick_fix_business.py has rewritten: a block with the
    code and a block with the comma only. *)
Definition rewritten_block : list text :=
  [ lit "throw new InfrastructureException(" ++ [nl];
    lit "  `Failed to save business: ${e}`," ++ [nl];
    code_line;
    closing_line;
    lit "throw new InfrastructureException(" ++ [nl];
    lit "  `Failed to archive business: ${e}`," ++ [nl];
    lit ");" ++ [nl] ].

(** A file that no script has touched: a comment and, behind the import
    line, one statement with each delimiter. *)
Definition fresh_header : text := lit "// repository" ++ [nl].

Definition fresh_tail : list (text * char * text) :=
  [ ([nl], dq, lit "not saved");
    ([nl], bt, lit "failed: ${e}") ].

(** A statement over three lines, as fix_business_repo.py finds it. *)
Definition source_block : text :=
  lit "// save" ++ nl ::
  lit "  throw new Error(" ++ nl ::
  lit "    `Failed to save business: ${e}`" ++ nl ::
  lit "  );" ++ nl ::
  lit "  return;" ++ [nl].

(** ** Sample inputs for the provisos *)

(** Two blocks of quick_fix_business.py that share lines: the message
    line of the first holds the call, and is the call line of the second. *)
Definition shared_blocks : list text :=
  [ lit "throw new InfrastructureException(" ++ [nl];
    lit "throw new InfrastructureException(x" ++ [nl];
    lit ");" ++ [nl];
    lit ");" ++ [nl] ].

(** A line with a single-quoted statement in front of a template
    statement. *)
Definition quoted_then_template : text :=
  lit "throw new Error('quoted'); throw new Error(`tpl`);".

(** A template literal over three lines whose second line starts with
    [import ], in a file without another import. *)
Definition import_in_payload : text :=
  lit "throw new Error(`first" ++ nl :: lit "import second" ++ nl :: lit "third`);".

(** A template literal that holds the text of a call that is not closed. *)
Definition call_in_payload : text :=
  lit "throw new Error(`retry: throw new Error( failed`);".

(** A file with the marker in a comment and a single-quoted statement. *)
Definition marked_quoted_file : text :=
  lit "// InfrastructureException" ++ nl :: single_quoted_sample ++ [nl].

(** * Lemmas *)

(** Cases of a delimiter that is one of the three. *)
Ltac delimiter_cases H :=
  apply list_elem_of_In in H; simpl in H;
  destruct H as [<- | [<- | [<- | []]]].

(** Both sides of an equation between concatenations, nested to the
    right. *)
Ltac reassoc := repeat first [rewrite <- app_assoc | progress cbn [app]].

(** ** Prefixes *)

Lemma starts_with_true p s : starts_with p s = true <-> exists r, s = p ++ r.
Proof.
  revert s. induction p as [|a p IH]; intros s; simpl.
  - split; [eauto | done].
  - destruct s as [|b s].
    + split; [done | intros [r Hr]; discriminate].
    + rewrite andb_true_iff, N.eqb_eq, IH. split.
      * intros [-> [r ->]]. eauto.
      * intros [r Hr]. injection Hr as -> ->. eauto.
Qed.

Lemma starts_with_app p r : starts_with p (p ++ r) = true.
Proof. apply starts_with_true. eauto. Qed.

Lemma starts_with_nil_r p : starts_with p [] = true -> p = [].
Proof. by destruct p. Qed.

Lemma starts_with_length p s : starts_with p s = true -> length p <= length s.
Proof.
  intros [r ->]%starts_with_true. rewrite length_app. lia.
Qed.

Lemma starts_with_short p x y :
  length p <= length x -> starts_with p (x ++ y) = starts_with p x.
Proof.
  revert x. induction p as [|a p IH]; intros x Hlen; [done|].
  destruct x as [|b x]; simpl in *; [lia|].
  rewrite IH by lia. done.
Qed.

Lemma starts_with_long p x y :
  length x <= length p -> starts_with p (x ++ y) = true ->
  starts_with (drop (length x) p) y = true /\ take (length x) p = x.
Proof.
  revert p. induction x as [|b x IH]; intros p Hlen H; simpl in *.
  - by rewrite drop_0, take_0.
  - destruct p as [|a p]; simpl in *; [lia|].
    apply andb_true_iff in H as [->%N.eqb_eq H].
    apply IH in H as [H1 H2]; [|lia]. by rewrite H2.
Qed.

Lemma starts_with_weaken p x y :
  starts_with p x = true -> starts_with p (x ++ y) = true.
Proof.
  intros [r ->]%starts_with_true. rewrite <- app_assoc. apply starts_with_app.
Qed.

Lemma compat_of_starts_with p w r : starts_with p (w ++ r) = true -> compat p w = true.
Proof.
  revert w. induction p as [|a p IH]; intros w H; [done|].
  destruct w as [|b w]; [done|]. simpl in *.
  apply andb_true_iff in H as [-> H]. simpl. eauto.
Qed.

Lemma strip_prefix_Some p s r : strip_prefix p s = Some r <-> s = p ++ r.
Proof.
  revert s. induction p as [|a p IH]; intros s; simpl.
  - split; congruence.
  - destruct s as [|b s]; [done|].
    destruct (N.eqb_spec a b) as [->|Hne].
    + rewrite IH. split; congruence.
    + split; [done | congruence].
Qed.

Lemma strip_prefix_app p r : strip_prefix p (p ++ r) = Some r.
Proof. by apply strip_prefix_Some. Qed.

Lemma strip_prefix_None p s : strip_prefix p s = None <-> starts_with p s = false.
Proof.
  revert s. induction p as [|a p IH]; intros s; simpl; [done|].
  destruct s as [|b s]; [done|].
  destruct (N.eqb_spec a b); simpl; [apply IH | done].
Qed.

(** ** Occurrences *)

Lemma occurrences_nil p : p <> [] -> occurrences p [] = 0.
Proof. by destruct p. Qed.

Lemma occurrences_cons p c s :
  occurrences p (c :: s) = (if starts_with p (c :: s) then 1 else 0) + occurrences p s.
Proof. done. Qed.

Lemma contains_occurrences p s : contains p s = true <-> 0 < occurrences p s.
Proof.
  induction s as [|c s IH]; simpl.
  - destruct (starts_with p []); simpl; [split; [lia | done] | split; [done | lia]].
  - destruct (starts_with p (c :: s)); simpl; [split; [lia | done]|]. apply IH.
Qed.

Lemma contains_false_occurrences p s : contains p s = false <-> occurrences p s = 0.
Proof.
  rewrite <- not_true_iff_false, contains_occurrences. lia.
Qed.

Lemma contains_true p s : contains p s = true <-> exists u v, s = u ++ p ++ v.
Proof.
  induction s as [|c s IH]; simpl.
  - rewrite orb_false_r. split.
    + intros ->%starts_with_nil_r. by exists [], [].
    + intros (u & v & H). symmetry in H.
      apply app_eq_nil in H as [_ [-> _]%app_eq_nil]. done.
  - rewrite orb_true_iff, starts_with_true, IH. split.
    + intros [[r ->] | (u & v & ->)]; [by exists [], r | by exists (c :: u), v].
    + intros (u & v & H). destruct u as [|c' u]; simpl in H.
      * left. eauto.
      * right. injection H as -> ->. eauto.
Qed.

Lemma starts_with_contains p s : starts_with p s = true -> contains p s = true.
Proof. intros H. destruct s; simpl; by rewrite H. Qed.

Lemma contains_app_l p x y : contains p x = true -> contains p (x ++ y) = true.
Proof.
  rewrite !contains_true. intros (u & v & ->).
  exists u, (v ++ y). by rewrite <- !app_assoc.
Qed.

Lemma contains_app_r p x y : contains p y = true -> contains p (x ++ y) = true.
Proof.
  rewrite !contains_true. intros (u & v & ->).
  exists (x ++ u), v. by rewrite <- !app_assoc.
Qed.

Lemma contains_trans p q s :
  contains p q = true -> contains q s = true -> contains p s = true.
Proof.
  rewrite !contains_true. intros (u & v & ->) (u' & v' & ->).
  exists (u' ++ u), (v ++ v'). by rewrite <- !app_assoc.
Qed.

Lemma contains_drop p s i : contains p (drop i s) = true -> contains p s = true.
Proof.
  intros H. rewrite <- (take_drop i s). by apply contains_app_r.
Qed.

(** ** Substitution *)

Section Scan.
Variable m : matcher.

Lemma scan_from_drop k s : scan_from m k s = scan m (drop k s).
Proof.
  revert k. induction s as [|c s IH]; intros [|k]; simpl; auto.
Qed.

Lemma scan_nil : scan m [] = [].
Proof. done. Qed.

Lemma scan_none c s : m (c :: s) = None -> scan m (c :: s) = c :: scan m s.
Proof. unfold scan. simpl. by intros ->. Qed.

Lemma scan_some s out len :
  m s = Some (out, len) -> 0 < len -> s <> [] ->
  scan m s = out ++ scan m (drop len s).
Proof.
  intros Hm Hlen Hs. destruct s as [|c s]; [done|].
  unfold scan at 1. simpl. rewrite Hm, scan_from_drop.
  destruct len; [lia | done].
Qed.

(** Where the matcher finds nothing, nothing changes. *)
Lemma scan_id s : (forall i, m (drop i s) = None) -> scan m s = s.
Proof.
  induction s as [|c s IH]; intros H; [done|].
  rewrite scan_none by apply (H 0). f_equal. apply IH.
  intros i. apply (H (S i)).
Qed.

(** A stretch of text in which the matcher finds nothing is copied. *)
Lemma scan_copy x y :
  (forall i, i < length x -> m (drop i (x ++ y)) = None) ->
  scan m (x ++ y) = x ++ scan m y.
Proof.
  induction x as [|c x IH]; intros H; [done|]. simpl.
  rewrite scan_none by (apply (H 0); simpl; lia). f_equal. apply IH.
  intros i Hi. apply (H (S i)). simpl. lia.
Qed.
End Scan.

Section Replace.
Variables old new : text.
Hypothesis old_nonempty : old <> [].

Lemma str_replace_nil : str_replace old new [] = [].
Proof. done. Qed.

Lemma str_replace_match r :
  str_replace old new (old ++ r) = new ++ str_replace old new r.
Proof using old_nonempty.
  unfold str_replace. rewrite (scan_some _ _ new (length old)).
  - by rewrite drop_app_length.
  - unfold replace_matcher. by rewrite starts_with_app.
  - destruct old; [done | simpl; lia].
  - by destruct old.
Qed.

Lemma str_replace_skip c s :
  starts_with old (c :: s) = false ->
  str_replace old new (c :: s) = c :: str_replace old new s.
Proof.
  intros H. unfold str_replace. apply scan_none.
  unfold replace_matcher. by rewrite H.
Qed.

(** [s.replace(old, new)] returns [s] when [old] does not occur. *)
Lemma str_replace_absent s :
  contains old s = false -> str_replace old new s = s.
Proof.
  induction s as [|c s IH]; [done|]. simpl.
  intros [H1 H2]%orb_false_iff. rewrite str_replace_skip by done.
  f_equal. auto.
Qed.

(** The text up to the first occurrence is copied, the occurrence is
    replaced. *)
Lemma str_replace_first s :
  contains old s = true ->
  exists u v, s = u ++ old ++ v /\
    str_replace old new s = u ++ new ++ str_replace old new v /\
    length u + length old <= length s.
Proof using old_nonempty.
  induction s as [|c s IH].
  - simpl. rewrite orb_false_r. by intros ->%starts_with_nil_r.
  - change (contains old (c :: s))
      with (starts_with old (c :: s) || contains old s).
    destruct (starts_with old (c :: s)) eqn:E.
    + intros _. apply starts_with_true in E as [r E]. rewrite E.
      exists [], r. rewrite str_replace_match, length_app. simpl.
      split_and!; [done..|lia].
    + intros (u & v & -> & Hr & Hlen)%IH.
      exists (c :: u), v. rewrite str_replace_skip by done.
      rewrite Hr. simpl. split_and!; [done..|lia].
Qed.

Lemma str_replace_cases s :
  str_replace old new s = s \/
  exists u v, s = u ++ old ++ v /\
    str_replace old new s = u ++ new ++ str_replace old new v.
Proof using old_nonempty.
  destruct (contains old s) eqn:E.
  - right. apply str_replace_first in E as (u & v & ? & ? & _). eauto.
  - left. by apply str_replace_absent.
Qed.

(** Text in which no occurrence of [old] reaches over the seam is
    replaced part by part. *)
Lemma str_replace_app x y :
  (forall i, i < length x ->
     starts_with old (drop i (x ++ y)) = starts_with old (drop i x)) ->
  str_replace old new (x ++ y) = str_replace old new x ++ str_replace old new y.
Proof using old_nonempty.
  remember (length x) as n eqn:Hn. revert x Hn.
  induction n as [n IH] using lt_wf_ind. intros x -> H.
  destruct x as [|c x]; [done|].
  destruct (starts_with old (c :: x)) eqn:E.
  - apply starts_with_true in E as [r E]. rewrite E in *.
    rewrite <- app_assoc, !str_replace_match, <- app_assoc. f_equal.
    assert (0 < length old) by (destruct old; [done | simpl; lia]).
    apply (IH (length r)); [rewrite length_app; lia | done |].
    intros i Hi. specialize (H (length old + i)).
    rewrite length_app in H.
    rewrite <- app_assoc, <- !drop_drop, !drop_app_length in H.
    apply H. lia.
  - pose proof (H 0 ltac:(simpl; lia)) as H0. rewrite !drop_0, E in H0.
    simpl app. rewrite !str_replace_skip by done. simpl. f_equal.
    apply (IH (length x)); [simpl; lia | done |].
    intros i Hi. apply (H (S i)). simpl. lia.
Qed.
End Replace.

(** ** Occurrences that cannot overlap *)

Lemma no_start_inside_spec p w i r :
  no_start_inside p w = true -> i < length w ->
  starts_with p (drop i (w ++ r)) = false.
Proof.
  intros H Hi. unfold no_start_inside in H. rewrite forallb_forall in H.
  specialize (H i). rewrite in_seq in H.
  apply not_true_iff_false. intros E.
  rewrite drop_app_le in E by lia.
  apply compat_of_starts_with in E. rewrite E in H.
  discriminate H. lia.
Qed.

Lemma no_reach_into_spec p w x r :
  no_reach_into p w = true -> 0 < length x -> length x < length p ->
  starts_with p (x ++ w ++ r) = false.
Proof.
  intros H Hx Hp. unfold no_reach_into in H. rewrite forallb_forall in H.
  specialize (H (length x)). rewrite in_seq in H.
  apply not_true_iff_false. intros E.
  apply starts_with_long in E as [E _]; [|lia].
  apply compat_of_starts_with in E. rewrite E in H.
  discriminate H. lia.
Qed.

Lemma occurrences_skip p x y :
  (forall i, i < length x -> starts_with p (drop i (x ++ y)) = false) ->
  occurrences p (x ++ y) = occurrences p y.
Proof.
  induction x as [|c x IH]; intros H; [done|].
  change (occurrences p ((c :: x) ++ y))
    with ((if starts_with p ((c :: x) ++ y) then 1 else 0) + occurrences p (x ++ y)).
  pose proof (H 0 ltac:(simpl; lia)) as H0. rewrite drop_0 in H0.
  rewrite H0. simpl. apply IH.
  intros i Hi. apply (H (S i)). simpl. lia.
Qed.

Lemma occurrences_inside p w r :
  no_start_inside p w = true -> occurrences p (w ++ r) = occurrences p r.
Proof.
  intros H. apply occurrences_skip. intros i Hi. by apply no_start_inside_spec.
Qed.

(** Before a seam, an occurrence of [p] that cannot reach into what
    follows the seam does not depend on what follows. *)
Lemma starts_with_seam p x w1 r1 w2 r2 :
  no_reach_into p w1 = true -> no_reach_into p w2 = true -> x <> [] ->
  starts_with p (x ++ w1 ++ r1) = starts_with p (x ++ w2 ++ r2).
Proof.
  intros H1 H2 Hx.
  assert (0 < length x) by (destruct x; [done | simpl; lia]).
  destruct (decide (length p <= length x)).
  - by rewrite !starts_with_short.
  - rewrite !no_reach_into_spec by (done || lia). done.
Qed.

Section ReplaceOccurrences.
Variables old new : text.
Hypothesis old_nonempty : old <> [].

(** Replacing [old] by [new] neither makes nor breaks an occurrence of a
    text that overlaps neither. *)
Lemma occurrences_str_replace p s :
  apart p old = true -> apart p new = true ->
  occurrences p (str_replace old new s) = occurrences p s.
Proof using old_nonempty.
  intros [Ho1 Ho2]%andb_true_iff [Hn1 Hn2]%andb_true_iff.
  remember (length s) as n eqn:Hn. revert s Hn.
  induction n as [n IH] using lt_wf_ind. intros s ->.
  destruct s as [|c s]; [done|].
  destruct (starts_with old (c :: s)) eqn:E.
  - apply starts_with_true in E as [r E]. rewrite E.
    rewrite str_replace_match, !occurrences_inside by done.
    apply (IH (length r)); [|done].
    rewrite E, length_app. destruct old; [done | simpl; lia].
  - rewrite str_replace_skip by done.
    change (occurrences p (c :: ?t))
      with ((if starts_with p (c :: t) then 1 else 0) + occurrences p t).
    rewrite (IH (length s)) by (simpl; lia || done). f_equal.
    destruct (str_replace_cases old new old_nonempty s) as [-> | (u & v & -> & ->)];
      [done|].
    pose proof (starts_with_seam p (c :: u) new (str_replace old new v) old v)
      as Hseam.
    simpl in Hseam. by rewrite Hseam.
Qed.

(** After the replacement no occurrence of [old] is left, when [new]
    and its surroundings cannot form one. *)
Lemma str_replace_removes s :
  apart old new = true -> occurrences old (str_replace old new s) = 0.
Proof using old_nonempty.
  intros [Hn1 Hn2]%andb_true_iff.
  remember (length s) as n eqn:Hn. revert s Hn.
  induction n as [n IH] using lt_wf_ind. intros s ->.
  destruct s as [|c s].
  - simpl. by destruct old.
  - destruct (starts_with old (c :: s)) eqn:E.
    + apply starts_with_true in E as [r E]. rewrite E.
      rewrite str_replace_match, occurrences_inside by done.
      apply (IH (length r)); [|done].
      rewrite E, length_app. destruct old; [done | simpl; lia].
    + rewrite str_replace_skip by done.
      change (occurrences old (c :: ?t))
        with ((if starts_with old (c :: t) then 1 else 0) + occurrences old t).
      rewrite (IH (length s)) by (simpl; lia || done).
      destruct (str_replace_cases old new old_nonempty s) as [-> | (u & v & -> & ->)].
      * by rewrite E.
      * destruct (decide (length old <= length (c :: u))).
        -- pose proof (starts_with_short old (c :: u) (new ++ str_replace old new v)) as H1.
           pose proof (starts_with_short old (c :: u) (old ++ v)) as H2.
           simpl in H1, H2, E. rewrite H1, <- H2, E by done. done.
        -- pose proof (no_reach_into_spec old new (c :: u) (str_replace old new v)) as H1.
           simpl in H1. rewrite H1; [done..| lia | simpl in *; lia].
Qed.

Lemma str_replace_idempotent s :
  apart old new = true ->
  str_replace old new (str_replace old new s) = str_replace old new s.
Proof using old_nonempty.
  intros H. apply str_replace_absent, contains_false_occurrences.
  by apply str_replace_removes.
Qed.

(** An occurrence of [old] between two texts is replaced, and the two
    texts are replaced on their own. *)
Lemma str_replace_around a b :
  unbordered old = true ->
  str_replace old new (a ++ old ++ b)
  = str_replace old new a ++ new ++ str_replace old new b.
Proof using old_nonempty.
  intros Hu. rewrite str_replace_app, str_replace_match; [done..|].
  intros i Hi.
  destruct (decide (length old <= length (drop i a))).
  - rewrite drop_app_le by lia. by rewrite starts_with_short.
  - rewrite drop_app_le by lia. rewrite length_drop in *.
    rewrite no_reach_into_spec; [|done|rewrite length_drop; lia..].
    symmetry. apply not_true_iff_false.
    intros E%starts_with_length. rewrite length_drop in E. lia.
Qed.
End ReplaceOccurrences.

(** ** Lines *)

Lemma split_nl_nonempty s : split_nl s <> [].
Proof.
  destruct s as [|c s]; simpl; [done|].
  destruct (N.eqb c nl); [done|]. by destruct (split_nl s).
Qed.

Lemma join_nl_cons l ls : ls <> [] -> join_nl (l :: ls) = l ++ nl :: join_nl ls.
Proof. by destruct ls. Qed.

(** ['\n'.join(s.split('\n')) == s] *)
Lemma join_split_nl s : join_nl (split_nl s) = s.
Proof.
  induction s as [|c s IH]; [done|]. simpl.
  destruct (N.eqb_spec c nl) as [->|Hc].
  - rewrite join_nl_cons by apply split_nl_nonempty. by rewrite IH.
  - pose proof (split_nl_nonempty s) as Hne.
    destruct (split_nl s) as [|l ls]; [done|].
    destruct ls as [|l' ls]; simpl in *; by rewrite <- IH.
Qed.

Lemma split_nl_no_newline s : Forall (fun l => nl ∉ l) (split_nl s).
Proof.
  induction s as [|c s IH]; simpl.
  - repeat constructor. by intros ?%elem_of_nil.
  - destruct (N.eqb_spec c nl) as [->|Hc].
    + constructor; [by intros ?%elem_of_nil | done].
    + pose proof (split_nl_nonempty s) as Hne.
      destruct (split_nl s) as [|l ls]; [done|].
      apply Forall_cons in IH as [Hl Hls]. constructor; [|done].
      intros [?|?]%elem_of_cons; [congruence | done].
Qed.

Lemma split_nl_line l s : nl ∉ l -> split_nl (l ++ nl :: s) = l :: split_nl s.
Proof.
  induction l as [|c l IH]; intros Hl; simpl.
  - done.
  - destruct (N.eqb_spec c nl) as [->|Hc].
    + exfalso. apply Hl. by left.
    + rewrite IH; [done|]. intros ?. apply Hl. by right.
Qed.

Lemma split_nl_last l : nl ∉ l -> split_nl l = [l].
Proof.
  induction l as [|c l IH]; intros Hl; simpl; [done|].
  destruct (N.eqb_spec c nl) as [->|Hc].
  - exfalso. apply Hl. by left.
  - rewrite IH; [done|]. intros ?. apply Hl. by right.
Qed.

(** [('\n'.join(ls)).split('\n') == ls] for lines without line feed. *)
Lemma split_join_nl ls :
  ls <> [] -> Forall (fun l => nl ∉ l) ls -> split_nl (join_nl ls) = ls.
Proof.
  induction ls as [|l ls IH]; intros Hne Hall; [done|].
  apply Forall_cons in Hall as [Hl Hls].
  destruct ls as [|l' ls].
  - simpl. by apply split_nl_last.
  - rewrite join_nl_cons by done. rewrite split_nl_line by done.
    f_equal. by apply IH.
Qed.

(** ** The loop of fix_business_repo.py is a map over the lines *)

Lemma business_body_insert i line lines :
  lines !! i = Some line -> business_body i line lines = <[i := fix_line line]> lines.
Proof.
  intros H. unfold business_body, fix_line.
  destruct (is_template_statement line); [done|]. by rewrite list_insert_id.
Qed.

Lemma enumerate_business done todo :
  enumerate_from business_body (length done) (length todo) (done ++ todo)
  = done ++ map fix_line todo.
Proof.
  revert done. induction todo as [|l todo IH]; intros done; simpl.
  - done.
  - rewrite list_lookup_middle by done.
    rewrite business_body_insert by by rewrite list_lookup_middle.
    rewrite insert_app_r_alt, Nat.sub_diag by done. simpl.
    rewrite (cons_middle (fix_line l)), app_assoc.
    replace (S (length done)) with (length (done ++ [fix_line l]))
      by (rewrite length_app; simpl; lia).
    rewrite IH. by rewrite <- app_assoc.
Qed.

Lemma for_enumerate_business lines :
  for_enumerate business_body lines = map fix_line lines.
Proof. apply (enumerate_business [] lines). Qed.

Lemma fix_business_repo_unfold content :
  fix_business_repo content
  = join_nl (map fix_line (split_nl (rename_throw (inject_business content)))).
Proof. unfold fix_business_repo. by rewrite for_enumerate_business. Qed.

(** ** The import guard and the rename of fix_business_repo.py *)

Lemma throw_error_nonempty : throw_error <> [].
Proof. done. Qed.

Lemma apart_error_infra : apart throw_error throw_infra = true.
Proof. by vm_compute. Qed.

Lemma unbordered_throw_error : unbordered throw_error = true.
Proof. by vm_compute. Qed.

Lemma rename_throw_idempotent s : rename_throw (rename_throw s) = rename_throw s.
Proof.
  apply str_replace_idempotent; [done | apply apart_error_infra].
Qed.

Lemma rename_throw_marker s :
  rename_throw s = s \/ contains marker (rename_throw s) = true.
Proof.
  destruct (str_replace_cases throw_error throw_infra throw_error_nonempty s)
    as [H | (u & v & _ & H)]; [by left | right].
  unfold rename_throw. rewrite H.
  apply contains_app_r, contains_app_l. by vm_compute.
Qed.

Lemma inject_business_marker s :
  inject_business s = s \/ contains marker (inject_business s) = true.
Proof.
  unfold inject_business. destruct (contains marker s) eqn:E; [by left|].
  destruct (str_replace_cases business_anchor (business_anchor ++ nl :: import_decl)
              ltac:(done) s) as [H | (u & v & _ & H)]; [by left | right].
  rewrite H. apply contains_app_r, contains_app_l. by vm_compute.
Qed.

Lemma inject_business_present s :
  contains marker s = true -> inject_business s = s.
Proof. unfold inject_business. by intros ->. Qed.

(** After the guard and the rename, neither changes the text again. *)
Lemma inject_rename_fixed f :
  let r := rename_throw (inject_business f) in
  inject_business r = r /\ rename_throw r = r.
Proof.
  intros r. split; [|apply rename_throw_idempotent].
  destruct (rename_throw_marker (inject_business f)) as [H | H];
    [|by apply inject_business_present].
  subst r. rewrite H.
  destruct (inject_business_marker f) as [H' | H'].
  - by rewrite !H'.
  - by apply inject_business_present.
Qed.

Lemma map_fix_line_id lines :
  (forall line, line ∈ lines -> is_template_statement line = false) ->
  map fix_line lines = lines.
Proof.
  induction lines as [|l lines IH]; intros H; [done|]. simpl.
  rewrite IH by (intros; apply H; by right).
  unfold fix_line. rewrite H by by left. done.
Qed.

(** ** White space *)

Lemma lstrip_all_space w s : all_space w = true -> lstrip (w ++ s) = lstrip s.
Proof.
  induction w as [|c w IH]; simpl; [done|].
  intros [-> H]%andb_true_iff. auto.
Qed.

Lemma lstrip_nonspace c s : is_space c = false -> lstrip (c :: s) = c :: s.
Proof. simpl. by intros ->. Qed.

Lemma lstrip_decompose s :
  exists w, s = w ++ lstrip s /\ all_space w = true.
Proof.
  induction s as [|c s (w & IH1 & IH2)]; simpl.
  - by exists [].
  - destruct (is_space c) eqn:E.
    + exists (c :: w). simpl. rewrite E, IH2. by rewrite <- IH1.
    + by exists [].
Qed.

Lemma rstrip_all_space w : all_space w = true -> rstrip w = [].
Proof.
  induction w as [|c w IH]; simpl; [done|].
  intros [-> H]%andb_true_iff. by rewrite IH.
Qed.

Lemma rstrip_cons_nonempty c s : rstrip s <> [] -> rstrip (c :: s) = c :: rstrip s.
Proof. simpl. by destruct (rstrip s). Qed.

Lemma rstrip_end x c w :
  is_space c = false -> all_space w = true -> rstrip (x ++ c :: w) = x ++ [c].
Proof.
  intros Hc Hw. induction x as [|a x IH]; simpl.
  - by rewrite rstrip_all_space, Hc.
  - rewrite IH. by destruct x.
Qed.

Lemma rstrip_decompose s :
  exists w, s = rstrip s ++ w /\ all_space w = true.
Proof.
  induction s as [|c s (w & IH1 & IH2)]; simpl.
  - by exists [].
  - destruct (rstrip s) as [|a r] eqn:E.
    + simpl in IH1. subst w. destruct (is_space c) eqn:Ec.
      * exists (c :: s). simpl. by rewrite Ec, IH2.
      * by exists s.
    + exists w. by rewrite IH1 at 1.
Qed.

Lemma rstrip_shape s :
  rstrip s = [] \/ exists x c, rstrip s = x ++ [c] /\ is_space c = false.
Proof.
  induction s as [|c s IH]; simpl; [by left|].
  destruct (rstrip s) as [|a r] eqn:E.
  - destruct (is_space c) eqn:Ec; [by left | right]. by exists [], c.
  - right. destruct IH as [? | (x & d & Hx & Hd)]; [done|].
    exists (c :: x), d. by rewrite Hx.
Qed.

Lemma elem_of_all_space c w : all_space w = true -> c ∈ w -> is_space c = true.
Proof.
  unfold all_space. rewrite forallb_forall. intros H Hc. apply H.
  by apply list_elem_of_In.
Qed.

(** A character that is not white space survives [strip]. *)
Lemma elem_of_strip c s : c ∈ s -> is_space c = false -> c ∈ strip s.
Proof.
  intros Hc Hs. unfold strip.
  destruct (rstrip_decompose s) as (w & E & Hw).
  destruct (lstrip_decompose (rstrip s)) as (w' & E' & Hw').
  rewrite E, E' in Hc.
  rewrite !elem_of_app in Hc. destruct Hc as [[Hc | Hc] | Hc]; [|done|].
  - apply (elem_of_all_space _ _ Hw') in Hc. congruence.
  - apply (elem_of_all_space _ _ Hw) in Hc. congruence.
Qed.

Lemma contains_head a p s : contains (a :: p) s = true -> a ∈ s.
Proof.
  intros (u & v & ->)%contains_true. rewrite elem_of_app. right. by left.
Qed.


Lemma contains_cons p c s :
  contains p (c :: s) = starts_with p (c :: s) || contains p s.
Proof. done. Qed.

(** No occurrence over a seam that the pattern cannot reach over. *)
Lemma contains_app_false p x y :
  contains p x = false -> contains p y = false -> no_reach_into p y = true ->
  contains p (x ++ y) = false.
Proof.
  intros Hx Hy Hr. induction x as [|c x IH]; [done|].
  rewrite contains_cons in Hx. apply orb_false_iff in Hx as [Hx1 Hx2].
  change ((c :: x) ++ y) with (c :: (x ++ y)).
  rewrite contains_cons, IH by done. rewrite orb_false_r.
  change (c :: (x ++ y)) with ((c :: x) ++ y).
  destruct (decide (length p <= length (c :: x))).
  - by rewrite starts_with_short.
  - rewrite <- (app_nil_r y). apply no_reach_into_spec; [done | simpl; lia | lia].
Qed.

Lemma contains_false_app_l p x y : contains p (x ++ y) = false -> contains p x = false.
Proof.
  intros H. apply not_true_iff_false. intros E.
  by rewrite (contains_app_l _ _ _ E) in H.
Qed.

(** ** Loops *)

Section Enumerate.
Variable body : loop_body.
Hypothesis body_length : forall j line S, length (body j line S) = length S.

Lemma enumerate_from_length lo n S :
  length (enumerate_from body lo n S) = length S.
Proof using body_length.
  revert lo S. induction n as [|n IH]; intros lo S; simpl; [done|].
  destruct (S !! lo); [|done]. by rewrite IH, body_length.
Qed.

(** A property kept by every iteration holds after the loop. *)
Lemma enumerate_from_ind (P : list text -> Prop) lo n S :
  P S ->
  (forall j line S', lo <= j < lo + n -> P S' -> S' !! j = Some line ->
     P (body j line S')) ->
  P (enumerate_from body lo n S).
Proof.
  revert lo S. induction n as [|n IH]; intros lo S HP Hstep; simpl; [done|].
  destruct (S !! lo) as [line|] eqn:E; [|done].
  apply IH.
  - apply Hstep; [lia | done..].
  - intros j l S' Hj. apply Hstep. lia.
Qed.

Lemma enumerate_from_split lo n k S :
  enumerate_from body lo (n + k) S
  = enumerate_from body (lo + n) k (enumerate_from body lo n S).
Proof using body_length.
  revert lo S. induction n as [|n IH]; intros lo S; simpl.
  - by rewrite Nat.add_0_r.
  - destruct (S !! lo) as [line|] eqn:E.
    + rewrite IH. f_equal. lia.
    + destruct k; [done|]. simpl.
      rewrite (lookup_ge_None_2 S (lo + Datatypes.S n)); [done|].
      apply lookup_ge_None_1 in E. lia.
Qed.
End Enumerate.

(** ** The loop of quick_fix_business.py *)

Lemma item_lookup S k l : S !! k = Some l -> item S k = l.
Proof. unfold item. by intros ->. Qed.

Lemma lookup_item S k : k < length S -> S !! k = Some (item S k).
Proof.
  intros H. unfold item. destruct (S !! k) eqn:E; [done|].
  apply lookup_ge_None_1 in E. lia.
Qed.

(** The chain of [elif] assigns the same text in every branch. *)
Lemma assign_code_has_key i S :
  assign_code i S
  = if has_key (item S (i + 1)) then <[i + 2 := closing_with_code]> S else S.
Proof.
  unfold assign_code, has_key, quick_fix_keys. simpl.
  repeat (match goal with |- context [contains ?k ?l] =>
            destruct (contains k l); simpl; [done|] end).
  done.
Qed.

Lemma add_comma_with_comma i S :
  i + 1 < length S ->
  add_comma i S = <[i + 1 := with_comma (item S (i + 1))]> S.
Proof.
  intros H. unfold add_comma, with_comma.
  destruct (ends_with _ _); simpl; [|done].
  symmetry. by apply list_insert_id, lookup_item.
Qed.

Lemma assign_code_length i S : length (assign_code i S) = length S.
Proof.
  rewrite assign_code_has_key. destruct (has_key _); [|done].
  by rewrite length_insert.
Qed.

Lemma add_comma_length i S : length (add_comma i S) = length S.
Proof.
  unfold add_comma. destruct (negb _); [|done]. by rewrite length_insert.
Qed.

Lemma quick_fix_body_length j line S : length (quick_fix_body j line S) = length S.
Proof.
  unfold quick_fix_body. destruct (_ && _); [|done].
  by rewrite add_comma_length, assign_code_length.
Qed.

Lemma quick_fix_body_cases j line S :
  quick_fix_body j line S = S \/
  (contains throw_infra line = true /\ j + 2 < length S /\
   strip (item S (j + 2)) = lit ");" /\
   quick_fix_body j line S = add_comma j (assign_code j S)).
Proof.
  unfold quick_fix_body.
  destruct (contains _ line) eqn:E1; [|by left].
  destruct (j + 2 <? length S) eqn:E2; [|by left].
  destruct (bool_decide _) eqn:E3; [|by left].
  right. apply Nat.ltb_lt in E2. apply bool_decide_eq_true in E3. done.
Qed.

Section Fired.
Variables (j : nat) (S : list text).
Hypothesis in_range : j + 2 < length S.

Lemma fired_other k : k <> j + 1 -> k <> j + 2 -> add_comma j (assign_code j S) !! k = S !! k.
Proof using in_range.
  intros H1 H2.
  rewrite add_comma_with_comma by (rewrite assign_code_length; lia).
  rewrite list_lookup_insert_ne by done.
  rewrite assign_code_has_key. destruct (has_key _); [|done].
  by rewrite list_lookup_insert_ne.
Qed.

Lemma assign_code_message : item (assign_code j S) (j + 1) = item S (j + 1).
Proof using in_range.
  rewrite assign_code_has_key. destruct (has_key _); [|done].
  unfold item. rewrite list_lookup_insert_ne by lia. done.
Qed.

Lemma fired_message : add_comma j (assign_code j S) !! (j + 1) = Some (with_comma (item S (j + 1))).
Proof using in_range.
  rewrite add_comma_with_comma by (rewrite assign_code_length; lia).
  rewrite list_lookup_insert_eq by (rewrite assign_code_length; lia).
  by rewrite assign_code_message.
Qed.

Lemma fired_closing :
  add_comma j (assign_code j S) !! (j + 2)
  = Some (if has_key (item S (j + 1)) then closing_with_code else item S (j + 2)).
Proof using in_range.
  rewrite add_comma_with_comma by (rewrite assign_code_length; lia).
  rewrite list_lookup_insert_ne by lia.
  rewrite assign_code_has_key. destruct (has_key _).
  - by rewrite list_lookup_insert_eq by lia.
  - by apply lookup_item.
Qed.
End Fired.

Lemma quick_fix_body_other j line S k :
  k <> j + 1 -> k <> j + 2 -> quick_fix_body j line S !! k = S !! k.
Proof.
  intros H1 H2.
  destruct (quick_fix_body_cases j line S) as [-> | (_ & Hr & _ & ->)]; [done|].
  by apply fired_other.
Qed.

(** A line that holds the constructor call is no closing line. *)
Lemma call_not_closing line :
  contains throw_infra line = true -> strip line <> lit ");".
Proof.
  intros H E. apply contains_head in H.
  apply elem_of_strip in H; [|done]. rewrite E in H.
  vm_compute in H. repeat (apply elem_of_cons in H as [H|H]; [done|]).
  by apply elem_of_nil in H.
Qed.

Lemma closing_no_call line :
  strip line = lit ");" -> contains throw_infra line = false.
Proof.
  intros E. apply not_true_iff_false. intros H.
  by apply call_not_closing in H.
Qed.

Lemma rstrip_prefix_contains p s :
  contains p s = false -> contains p (rstrip s) = false.
Proof.
  destruct (rstrip_decompose s) as (w & E & _). rewrite E at 1.
  apply contains_false_app_l.
Qed.

Lemma with_comma_no_call line :
  contains throw_infra line = false -> contains throw_infra (with_comma line) = false.
Proof.
  intros H. unfold with_comma. destruct (ends_with _ _); [done|].
  apply contains_app_false; [by apply rstrip_prefix_contains | by vm_compute..].
Qed.


Lemma ends_with_app p x : ends_with p (x ++ p) = true.
Proof. unfold ends_with. rewrite rev_app_distr. apply starts_with_app. Qed.

Lemma with_comma_ends line : ends_with (lit ",") (rstrip (with_comma line)) = true.
Proof.
  unfold with_comma. destruct (ends_with _ (rstrip line)) eqn:E; [done|].
  change (rstrip line ++ lit "," ++ [nl]) with (rstrip line ++ 44%N :: [nl]).
  rewrite rstrip_end by done. apply ends_with_app.
Qed.

Lemma quick_fix_body_fire j line S :
  contains throw_infra line = true -> j + 2 < length S ->
  strip (item S (j + 2)) = lit ");" ->
  quick_fix_body j line S = add_comma j (assign_code j S).
Proof.
  intros H1 H2 H3. unfold quick_fix_body.
  change (lit "throw new InfrastructureException(") with throw_infra.
  by rewrite H1, (proj2 (Nat.ltb_lt _ _) H2), bool_decide_eq_true_2.
Qed.

Lemma quick_fix_body_skip j line S :
  contains throw_infra line = false -> quick_fix_body j line S = S.
Proof.
  intros H. unfold quick_fix_body.
  change (lit "throw new InfrastructureException(") with throw_infra.
  by rewrite H.
Qed.

(** The loop, cut at the iteration of one index. *)
Lemma quick_fix_phases lines i line :
  enumerate_from quick_fix_body 0 i lines !! i = Some line ->
  quick_fix_lines lines
  = enumerate_from quick_fix_body (i + 1) (length lines - i - 1)
      (quick_fix_body i line (enumerate_from quick_fix_body 0 i lines)).
Proof.
  intros H. unfold quick_fix_lines, for_enumerate.
  assert (i < length lines) as Hi.
  { apply lookup_lt_Some in H.
    by rewrite enumerate_from_length in H by apply quick_fix_body_length. }
  replace (length lines) with (i + (1 + (length lines - i - 1))) at 1 by lia.
  rewrite !enumerate_from_split by apply quick_fix_body_length.
  simpl. by rewrite H.
Qed.

(** The commas of the file count what lines 28 and 29 have added. *)








Lemma concat_readlines s : concat (readlines s) = s.
Proof.
  induction s as [|c s IH]; [done|]. simpl.
  destruct (N.eqb c nl); simpl; [by rewrite IH|].
  destruct (readlines s) as [|l ls]; simpl in *; by rewrite <- IH.
Qed.

Section Block.
Variables (lines : list text) (i : nat) (l0 l1 l2 : text).
Hypothesis first : lines !! i = Some l0.
Hypothesis second : lines !! (i + 1) = Some l1.
Hypothesis third : lines !! (i + 2) = Some l2.
Hypothesis call : contains throw_infra l0 = true.
Hypothesis closing : strip l2 = lit ");".


Hypothesis message_no_call : contains throw_infra l1 = false.
Hypothesis message_not_closing : strip l1 <> lit ");".

(** When the message line neither holds a call nor closes one, the three
    lines of the block come out as the iteration of their first line
    leaves them, whatever the rest of the file. *)
Lemma quick_fix_block :
  quick_fix_lines lines !! i = Some l0 /\
  quick_fix_lines lines !! (i + 1) = Some (with_comma l1) /\
  quick_fix_lines lines !! (i + 2)
    = Some (if has_key l1 then closing_with_code else l2).
Proof using All.
  set (P := fun S : list text =>
    S !! i = Some l0 /\ S !! (i + 1) = Some l1 /\ S !! (i + 2) = Some l2).
  assert (P (enumerate_from quick_fix_body 0 i lines)) as (H0 & H1 & H2).
  { apply enumerate_from_ind; [done|].
    intros j line S' Hj (H0 & H1 & H2) Hline.
    destruct (quick_fix_body_cases j line S') as [-> | (_ & Hr & Hs & ->)];
      [done|].
    destruct (decide (j + 2 = i)) as [<-|].
    { rewrite (item_lookup _ _ _ H0) in Hs. by apply call_not_closing in Hs. }
    destruct (decide (j + 2 = i + 1)) as [E|].
    { rewrite E, (item_lookup _ _ _ H1) in Hs. done. }
    unfold P. rewrite !fired_other by (done || lia). done. }
  rewrite (quick_fix_phases lines i l0) by done.
  pose proof (lookup_lt_Some _ _ _ H2) as Hlen.
  rewrite quick_fix_body_fire; [|done..|by rewrite (item_lookup _ _ _ H2)].
  set (S2 := add_comma i _).
  set (l2' := if has_key l1 then closing_with_code else l2).
  apply (enumerate_from_ind quick_fix_body
           (fun S => S !! i = Some l0 /\ S !! (i + 1) = Some (with_comma l1) /\
                     S !! (i + 2) = Some l2')).
  - subst S2 l2'. rewrite fired_other, fired_message, fired_closing by (done || lia).
    by rewrite (item_lookup _ _ _ H1), (item_lookup _ _ _ H2).
  - intros j line S' Hj (H0' & H1' & H2') Hline.
    destruct (decide (j = i + 1)) as [->|].
    { rewrite quick_fix_body_skip; [done|].
      rewrite H1' in Hline. injection Hline as <-. by apply with_comma_no_call. }
    destruct (decide (j = i + 2)) as [->|].
    { rewrite quick_fix_body_skip; [done|].
      rewrite H2' in Hline. injection Hline as <-. subst l2'.
      destruct (has_key l1); [by vm_compute | by apply closing_no_call]. }
    rewrite !quick_fix_body_other by lia. done.
Qed.
End Block.

(** ** The regular expressions *)

Lemma compat_sym x y : compat x y = compat y x.
Proof.
  revert y. induction x as [|a x IH]; intros [|b y]; simpl; try done.
  by rewrite IH, N.eqb_sym.
Qed.

Lemma starts_with_elem p x c r :
  starts_with p (x ++ c :: r) = true -> length x < length p -> c ∈ p.
Proof.
  intros H Hlen. apply starts_with_long in H as [H _]; [|lia].
  destruct (drop (length x) p) as [|d p'] eqn:E.
  - apply (f_equal length) in E. rewrite length_drop in E. simpl in E. lia.
  - simpl in H. apply andb_true_iff in H as [->%N.eqb_eq _].
    apply (list_elem_of_lookup_2 _ (length x)).
    by rewrite <- (Nat.add_0_r (length x)), <- lookup_drop, E.
Qed.

Section Quiet.
Variable p : text.

Lemma quiet_app x y : quiet p x -> quiet p y -> quiet p (x ++ y).
Proof.
  intros Hx Hy i r Hi. rewrite <- app_assoc.
  destruct (decide (i < length x)) as [Hlt|Hge].
  - by apply Hx.
  - rewrite drop_app_ge by lia. apply Hy. rewrite length_app in Hi. lia.
Qed.

Lemma quiet_inside w : no_start_inside p w = true -> quiet p w.
Proof. intros H i r Hi. by apply no_start_inside_spec. Qed.

Lemma quiet_cons a c x : head p = Some a -> c <> a -> quiet p x -> quiet p (c :: x).
Proof.
  intros Ha Hc Hx [|i] r Hi.
  - destruct p as [|a' p']; [done|]. injection Ha as ->.
    cbn [starts_with app drop].
    destruct (N.eqb_spec a c); [congruence | done].
  - apply Hx. simpl in Hi. lia.
Qed.

Lemma quiet_nil : quiet p [].
Proof. intros i r Hi. simpl in Hi. lia. Qed.

(** A payload without [p], up to a character that [p] does not hold. *)
Lemma quiet_payload m c x :
  contains p m = false -> c ∉ p -> quiet p (c :: x) -> quiet p (m ++ c :: x).
Proof.
  intros Hm Hc Hx i r Hi.
  destruct (decide (i < length m)) as [Hlt|Hge].
  - rewrite <- app_assoc, drop_app_le by lia.
    apply not_true_iff_false. intros E.
    destruct (decide (length p <= length (drop i m))).
    + rewrite starts_with_short in E by done.
      apply starts_with_contains, contains_drop in E. congruence.
    + apply starts_with_elem in E; [done | lia].
  - rewrite <- app_assoc, drop_app_ge by lia. apply Hx.
    rewrite length_app in Hi. simpl in *. lia.
Qed.

(** Text without [p] in front of a text that [p] cannot reach into. *)
Lemma quiet_before a w r i :
  contains p a = false -> no_reach_into p w = true ->
  i < length a -> starts_with p (drop i (a ++ w ++ r)) = false.
Proof.
  intros Ha Hw Hi. rewrite drop_app_le by lia.
  destruct (decide (length p <= length (drop i a))).
  - rewrite starts_with_short by done.
    apply not_true_iff_false. intros E.
    apply starts_with_contains, contains_drop in E. congruence.
  - apply no_reach_into_spec; [done | rewrite length_drop; lia | lia].
Qed.

End Quiet.

Lemma rule_matcher_none r s :
  starts_with throw_error s = false -> rule_matcher r s = None.
Proof.
  intros H. unfold rule_matcher, match_rule.
  by rewrite (proj2 (strip_prefix_None _ _) H).
Qed.

Section Copy.
Variable r : rule.

(** [re.sub] copies a stretch of text in which the call begins
    nowhere. *)
Lemma re_sub_copy x y :
  (forall i, i < length x -> starts_with throw_error (drop i (x ++ y)) = false) ->
  re_sub r (x ++ y) = x ++ re_sub r y.
Proof.
  intros H. apply scan_copy. intros i Hi. by apply rule_matcher_none, H.
Qed.

Lemma re_sub_quiet x y :
  quiet throw_error x -> re_sub r (x ++ y) = x ++ re_sub r y.
Proof. intros H. apply re_sub_copy. intros i Hi. by apply H. Qed.
End Copy.

Lemma span_until_app q m rest :
  q ∉ m -> span_until q (m ++ q :: rest) = (m, q :: rest).
Proof.
  induction m as [|c m IH]; intros Hq; simpl.
  - by rewrite N.eqb_refl.
  - destruct (N.eqb_spec c q) as [->|Hne].
    + exfalso. apply Hq. by left.
    + rewrite IH; [done|]. intros ?. apply Hq. by right.
Qed.

Lemma skip_ws_nonspace b c s : is_space c = false -> skip_ws b (c :: s) = c :: s.
Proof. intros H. destruct b; simpl; [by rewrite H | done]. Qed.

Lemma delimiter_facts q :
  q ∈ delimiters -> is_space q = false /\ q <> 116%N /\ q ∉ throw_error.
Proof.
  intros H. delimiter_cases H; (split_and!; [done | done |]);
    apply (bool_decide_unpack _); by vm_compute.
Qed.

Lemma stmt_in_app q m b :
  stmt_in q m ++ b = throw_error ++ q :: m ++ q :: 41%N :: 59%N :: b.
Proof.
  unfold stmt_in. rewrite <- app_assoc. f_equal.
  change ((q :: m ++ q :: lit ");") ++ b) with (q :: (m ++ q :: lit ");") ++ b).
  by rewrite <- app_assoc.
Qed.

Lemma stmt_in_head q m :
  stmt_in q m = 116%N :: (lit "hrow new Error(" ++ q :: m ++ q :: lit ");").
Proof. done. Qed.

Lemma stmt_in_tail q m b :
  116%N :: (lit "hrow new Error(" ++ q :: m ++ q :: lit ");") ++ b
  = throw_error ++ q :: (m ++ q :: lit ");") ++ b.
Proof. by rewrite <- app_assoc. Qed.

Section Rule.
Variable r : rule.
Hypothesis delim_ok : delim r ∈ delimiters.

Lemma match_rule_in m b :
  m <> [] -> delim r ∉ m ->
  match_rule r (stmt_in (delim r) m ++ b) = Some (m, b).
Proof using delim_ok.
  intros Hm Hq. destruct (delimiter_facts _ delim_ok) as (Hs & _ & _).
  rewrite stmt_in_app. unfold match_rule. rewrite strip_prefix_app.
  rewrite skip_ws_nonspace, N.eqb_refl by done.
  rewrite span_until_app by done.
  destruct m as [|c m]; [done|].
  rewrite skip_ws_nonspace by done.
  change (41%N :: 59%N :: b) with (lit ");" ++ b).
  by rewrite strip_prefix_app.
Qed.

Lemma rule_matcher_in m b :
  m <> [] -> delim r ∉ m ->
  rule_matcher r (stmt_in (delim r) m ++ b)
  = Some (rule_output r m, length (stmt_in (delim r) m)).
Proof using delim_ok.
  intros Hm Hq. unfold rule_matcher. rewrite match_rule_in by done.
  do 2 f_equal. rewrite length_app. lia.
Qed.

Lemma rule_matcher_other q rest :
  q ∈ delimiters -> q <> delim r ->
  rule_matcher r (throw_error ++ q :: rest) = None.
Proof.
  intros Hq Hne. destruct (delimiter_facts _ Hq) as (Hs & _ & _).
  unfold rule_matcher, match_rule. rewrite strip_prefix_app.
  rewrite skip_ws_nonspace by done.
  by destruct (N.eqb_spec q (delim r)).
Qed.

Variables a m b : text.
Hypothesis before : contains throw_error a = false.
Hypothesis payload : contains throw_error m = false.

(** The rule rewrites the first statement with its delimiter. *)
Lemma re_sub_rewrite :
  m <> [] -> delim r ∉ m ->
  re_sub r (a ++ stmt_in (delim r) m ++ b) = a ++ rule_output r m ++ re_sub r b.
Proof using delim_ok before.
  intros Hm Hq. rewrite re_sub_copy.
  - f_equal. unfold re_sub.
    rewrite (scan_some _ _ _ _ (rule_matcher_in m b Hm Hq)).
    + by rewrite drop_app_length.
    + unfold stmt_in. rewrite length_app. simpl. lia.
    + by rewrite stmt_in_app.
  - intros i Hi. unfold stmt_in. rewrite <- !app_assoc.
    apply quiet_before; [done | apply unbordered_throw_error | done].
Qed.

Lemma quiet_tail q x :
  q ∈ delimiters -> no_start_inside throw_error x = true ->
  quiet throw_error (q :: m ++ q :: x).
Proof using payload.
  intros Hq Hx. destruct (delimiter_facts _ Hq) as (_ & Ht & Hin).
  apply (quiet_cons _ 116%N); [done..|]. apply quiet_payload; [done..|].
  apply (quiet_cons _ 116%N); [done..|]. by apply quiet_inside.
Qed.

(** The rule copies a statement with another delimiter. *)
Lemma re_sub_skip_in q :
  q ∈ delimiters -> q <> delim r ->
  re_sub r (a ++ stmt_in q m ++ b) = a ++ stmt_in q m ++ re_sub r b.
Proof using before payload.
  intros Hq Hne. rewrite re_sub_copy.
  - f_equal. rewrite stmt_in_head.
    transitivity (116%N :: re_sub r ((lit "hrow new Error(" ++ q :: m ++ q :: lit ");") ++ b)).
    + apply (scan_none (rule_matcher r)). rewrite stmt_in_tail.
      by apply rule_matcher_other.
    + rewrite re_sub_quiet; [done|].
      apply quiet_app; [by apply quiet_inside | by apply quiet_tail].
  - intros i Hi. unfold stmt_in. rewrite <- !app_assoc.
    apply quiet_before; [done | apply unbordered_throw_error | done].
Qed.

(** The rule copies a statement that is already rewritten. *)
Lemma re_sub_skip_out q :
  q ∈ delimiters ->
  re_sub r (a ++ stmt_out q m ++ b) = a ++ stmt_out q m ++ re_sub r b.
Proof using before payload.
  intros Hq. rewrite re_sub_copy.
  - f_equal. apply re_sub_quiet. unfold stmt_out.
    apply quiet_app; [by apply quiet_inside | by apply quiet_tail].
  - intros i Hi. unfold stmt_out. rewrite <- !app_assoc.
    apply quiet_before; [done | by vm_compute | done].
Qed.
End Rule.

(** ** The pattern lists *)

Section Patterns.
Variables a m : text.
Hypothesis before : contains throw_error a = false.
Hypothesis payload : contains throw_error m = false.

(** Every pattern copies a rewritten statement. *)
Lemma apply_patterns_out rs q b :
  q ∈ delimiters ->
  apply_patterns rs (a ++ stmt_out q m ++ b)
  = a ++ stmt_out q m ++ apply_patterns rs b.
Proof using before payload.
  intros Hq. revert b. induction rs as [|r rs IH]; intros b; [done|].
  change (apply_patterns (r :: rs) ?c) with (apply_patterns rs (re_sub r c)).
  by rewrite re_sub_skip_out, IH.
Qed.

(** The first pattern with the delimiter of a statement rewrites it;
    without such a pattern the statement stays. *)
Lemma apply_patterns_in rs q b :
  Forall well_delimited rs -> q ∈ delimiters -> m <> [] -> q ∉ m ->
  apply_patterns rs (a ++ stmt_in q m ++ b)
  = a ++ match find (fun r => N.eqb (delim r) q) rs with
         | Some r => stmt_out (out_delim r) m
         | None => stmt_in q m
         end ++ apply_patterns rs b.
Proof using before payload.
  intros Hrs Hq Hm Hqm. revert b.
  induction Hrs as [|r rs [Hd Ho] Hrs IH]; intros b; [done|].
  change (apply_patterns (r :: rs) ?c) with (apply_patterns rs (re_sub r c)).
  cbn [find]. destruct (N.eqb_spec (delim r) q) as [<-|Hne].
  - rewrite re_sub_rewrite by done. by apply apply_patterns_out.
  - rewrite re_sub_skip_in by done. apply IH.
Qed.
End Patterns.

Lemma sector_patterns_ok : Forall well_delimited sector_patterns.
Proof.
  repeat constructor; apply (bool_decide_unpack _); by vm_compute.
Qed.

Lemma calendar_patterns_ok : Forall well_delimited calendar_patterns.
Proof.
  repeat constructor; apply (bool_decide_unpack _); by vm_compute.
Qed.

(** ** Closing lines and the appended code *)

Lemma ends_with_true p s : ends_with p s = true <-> exists x, s = x ++ p.
Proof.
  unfold ends_with. rewrite starts_with_true. split.
  - intros [r Hr]. exists (rev r).
    apply (f_equal (@rev N)) in Hr.
    by rewrite rev_involutive, rev_app_distr, rev_involutive in Hr.
  - intros [x ->]. exists (rev x). by rewrite rev_app_distr.
Qed.

Lemma lstrip_keeps_end u c p :
  is_space c = false -> ends_with (c :: p) (lstrip (u ++ c :: p)) = true.
Proof.
  intros Hc. induction u as [|a u IH]; simpl.
  - rewrite Hc. apply (ends_with_app (c :: p) []).
  - destruct (is_space a); [done|].
    apply (ends_with_app (c :: p) (a :: u)).
Qed.

(** The second half of the test of line 21: the line ends with [);]
    and white space. *)
Lemma closing_line_shape line :
  ends_with (lit ");") (strip line) = true
  <-> exists u w, line = u ++ lit ");" ++ w /\ all_space w = true.
Proof.
  split.
  - intros [x Hx]%ends_with_true.
    destruct (rstrip_decompose line) as (w & E & Hw).
    destruct (lstrip_decompose (rstrip line)) as (w' & E' & _).
    exists (w' ++ x), w. split; [|done].
    rewrite E at 1. rewrite E' at 1. unfold strip in Hx. rewrite Hx.
    by rewrite <- !app_assoc.
  - intros (u & w & -> & Hw). unfold strip.
    replace (u ++ lit ");" ++ w) with ((u ++ [41%N]) ++ 59%N :: w)
      by by rewrite <- app_assoc.
    rewrite rstrip_end, <- app_assoc by done.
    by apply lstrip_keeps_end.
Qed.

Lemma all_space_no_closing w : all_space w = true -> contains (lit ");") w = false.
Proof.
  intros Hw. apply not_true_iff_false. intros H.
  apply contains_head in H. by apply (elem_of_all_space _ _ Hw) in H.
Qed.

(** Line 23 on a line that ends with [);] and white space. *)
Lemma append_code_closing u w :
  all_space w = true ->
  append_code (u ++ lit ");" ++ w) = append_code u ++ code_suffix ++ w.
Proof.
  intros Hw. unfold append_code.
  rewrite str_replace_around by done.
  by rewrite (str_replace_absent _ _ w) by by apply all_space_no_closing.
Qed.

Lemma length_str_replace_ge old new s :
  old <> [] -> length old <= length new ->
  length s <= length (str_replace old new s).
Proof.
  intros Ho Hlen. remember (length s) as n eqn:Hn. revert s Hn.
  induction n as [n IH] using lt_wf_ind. intros s ->.
  destruct s as [|c s]; [simpl; lia|].
  destruct (starts_with old (c :: s)) eqn:E.
  - apply starts_with_true in E as [r E]. rewrite E.
    rewrite str_replace_match, !length_app by done.
    assert (length r <= length (str_replace old new r)); [|lia].
    apply (IH (length r)); [|done].
    rewrite E, length_app. destruct old; [done | simpl; lia].
  - rewrite str_replace_skip by done. simpl.
    pose proof (IH (length s) ltac:(simpl; lia) s eq_refl). lia.
Qed.

Lemma length_str_replace_gt old new s :
  old <> [] -> length old < length new -> contains old s = true ->
  length s < length (str_replace old new s).
Proof.
  intros Ho Hlen (u & v & -> & -> & _)%(str_replace_first _ new Ho).
  rewrite !length_app.
  pose proof (length_str_replace_ge old new v Ho). lia.
Qed.

Lemma apart_contains p old new s :
  old <> [] -> apart p old = true -> apart p new = true ->
  contains p (str_replace old new s) = contains p s.
Proof.
  intros Ho H1 H2.
  pose proof (occurrences_str_replace old new Ho p s H1 H2) as H.
  destruct (contains p s) eqn:E.
  - apply contains_occurrences. apply contains_occurrences in E. lia.
  - apply contains_false_occurrences. apply contains_false_occurrences in E. lia.
Qed.

(** A line that passes the test of line 21 passes it again after line 23,
    and line 23 changes it again. *)
Lemma append_code_template line :
  is_template_statement line = true ->
  is_template_statement (append_code line) = true /\
  append_code (append_code line) <> append_code line.
Proof.
  unfold is_template_statement.
  intros [Hc (u & w & -> & Hw)%closing_line_shape]%andb_true_iff.
  split.
  - apply andb_true_iff. split.
    + unfold append_code. rewrite apart_contains; done.
    + rewrite append_code_closing by done. apply closing_line_shape.
      exists (append_code u ++ lit ", " ++ dq :: lit "INFRASTRUCTURE_ERROR" ++ [dq]), w.
      split; [|done]. by rewrite <- !app_assoc.
  - intros E. apply (f_equal length) in E.
    pose proof (length_str_replace_gt (lit ");") code_suffix
                  (append_code (u ++ lit ");" ++ w)) ltac:(done)
                  ltac:(vm_compute; lia)) as H.
    unfold append_code in *. rewrite E in H.
    enough (length (str_replace (lit ");") code_suffix (u ++ lit ");" ++ w))
            < length (str_replace (lit ");") code_suffix (u ++ lit ");" ++ w)))
      by lia.
    apply H. fold (append_code (u ++ lit ");" ++ w)).
    rewrite append_code_closing by done.
    apply contains_app_r, contains_app_l. by vm_compute.
Qed.

(** ** Occurrences in the lines of a text *)

Lemma occurrences_cons_other p c s :
  p <> [] -> c ∉ p -> occurrences p (c :: s) = occurrences p s.
Proof.
  intros Hp Hc. rewrite occurrences_cons.
  destruct p as [|a p]; [done|]. simpl.
  destruct (N.eqb_spec a c) as [->|]; [|done].
  exfalso. apply Hc. by left.
Qed.

Lemma occurrences_before_char p x c y :
  p <> [] -> c ∉ p ->
  occurrences p (x ++ c :: y) = occurrences p x + occurrences p (c :: y).
Proof.
  intros Hp Hc. induction x as [|a x IH].
  - by rewrite occurrences_nil.
  - change ((a :: x) ++ c :: y) with (a :: (x ++ c :: y)).
    rewrite !(occurrences_cons p a), IH.
    change (a :: (x ++ c :: y)) with ((a :: x) ++ c :: y).
    enough (starts_with p ((a :: x) ++ c :: y) = starts_with p (a :: x)) as -> by lia.
    destruct (decide (length p <= length (a :: x))).
    + by apply starts_with_short.
    + transitivity false; [|symmetry]; apply not_true_iff_false.
      * intros E. apply starts_with_elem in E; [done | lia].
      * intros E%starts_with_length. lia.
Qed.

Lemma occurrences_join p ls :
  p <> [] -> nl ∉ p ->
  occurrences p (join_nl ls) = sum_list (map (occurrences p) ls).
Proof.
  intros Hp Hnl. induction ls as [|l ls IH].
  - by apply occurrences_nil.
  - destruct ls as [|l' ls]; [simpl; lia|].
    rewrite join_nl_cons by done.
    rewrite occurrences_before_char, occurrences_cons_other by done.
    rewrite IH. done.
Qed.

Lemma contains_singleton c s : contains [c] s = true <-> c ∈ s.
Proof.
  rewrite contains_true. split.
  - intros (u & v & ->). rewrite elem_of_app. right. by left.
  - intros (u & v & ->)%list_elem_of_split. by exists u, v.
Qed.

Lemma contains_join p l ls :
  l ∈ ls -> contains p l = true -> contains p (join_nl ls) = true.
Proof.
  intros Hl Hp. induction ls as [|l' ls IH]; [by apply elem_of_nil in Hl|].
  destruct ls as [|l'' ls].
  - apply list_elem_of_singleton in Hl as ->. done.
  - rewrite join_nl_cons by done.
    apply elem_of_cons in Hl as [->|Hl]; [by apply contains_app_l|].
    apply contains_app_r. rewrite contains_cons. rewrite IH by done.
    apply orb_true_r.
Qed.

Section FixLines.
Variable p : text.
Hypothesis apart_closing : apart p (lit ");") = true.
Hypothesis apart_code : apart p code_suffix = true.

Lemma occurrences_fix_line line : occurrences p (fix_line line) = occurrences p line.
Proof using apart_closing apart_code.
  unfold fix_line, append_code. destruct (is_template_statement line); [|done].
  by apply occurrences_str_replace.
Qed.

(** The loop neither makes nor breaks an occurrence of a text of one
    line that shares nothing with [);] and the code. *)
Lemma occurrences_fix_lines ls :
  p <> [] -> nl ∉ p ->
  occurrences p (join_nl (map fix_line ls)) = occurrences p (join_nl ls).
Proof using apart_closing apart_code.
  intros Hp Hnl. rewrite !occurrences_join by done.
  f_equal. rewrite map_map. apply map_ext. intros l. apply occurrences_fix_line.
Qed.
End FixLines.

Lemma fix_line_no_newline line : nl ∉ line -> nl ∉ fix_line line.
Proof.
  rewrite <- !contains_singleton. intros H E. apply H.
  apply contains_occurrences. apply contains_occurrences in E.
  by rewrite occurrences_fix_line in E.
Qed.

Lemma fix_lines_no_newline ls :
  Forall (fun l => nl ∉ l) ls -> Forall (fun l => nl ∉ l) (map fix_line ls).
Proof.
  intros H. apply Forall_map.
  eapply Forall_impl; [done|]. apply fix_line_no_newline.
Qed.

(** What the script writes holds no [throw new Error(]. *)
Lemma fix_business_repo_no_throw_error f :
  contains throw_error (fix_business_repo f) = false.
Proof.
  rewrite fix_business_repo_unfold. apply contains_false_occurrences.
  rewrite occurrences_fix_lines; [|done..|].
  - rewrite join_split_nl. apply str_replace_removes; [done | apply apart_error_infra].
  - apply (bool_decide_unpack _). by vm_compute.
Qed.

(** The script is at rest on its own output exactly when its loop is. *)
Lemma fix_business_repo_twice f :
  fix_business_repo (fix_business_repo f)
  = join_nl (map fix_line (split_nl (fix_business_repo f))).
Proof.
  rewrite (fix_business_repo_unfold (fix_business_repo f)). do 3 f_equal.
  assert (rename_throw (fix_business_repo f) = fix_business_repo f) as Hr.
  { apply str_replace_absent, fix_business_repo_no_throw_error. }
  destruct (inject_business_marker (fix_business_repo f)) as [-> | Hm]; [done|].
  unfold inject_business in *.
  destruct (contains marker (fix_business_repo f)) eqn:E; [done|].
  exfalso.
  (* the marker is absent from the output, so nothing was renamed or injected *)
  rewrite fix_business_repo_unfold in E.
  apply contains_false_occurrences in E.
  rewrite occurrences_fix_lines, join_split_nl in E;
    [|done..|apply (bool_decide_unpack _); by vm_compute].
  apply contains_false_occurrences in E.
  destruct (rename_throw_marker (inject_business f)) as [Hrn | Hrn]; [|congruence].
  rewrite Hrn in E.
  destruct (inject_business_marker f) as [Hin | Hin]; [|congruence].
  rewrite Hin in E.
  assert (fix_business_repo f = f) as Hf.
  { rewrite fix_business_repo_unfold, Hrn, Hin.
    rewrite map_fix_line_id; [apply join_split_nl|].
    intros line Hl. unfold is_template_statement.
    destruct (contains template_call line) eqn:Ec; [|done]. exfalso.
    assert (contains marker f = true); [|congruence].
    rewrite <- (join_split_nl f).
    apply (contains_join _ line); [done|].
    apply (contains_trans _ template_call); [by vm_compute | done]. }
  rewrite Hf in Hm. unfold inject_business in Hin. rewrite E in Hin.
  rewrite Hin in Hm. congruence.
Qed.

(** ** The rename and the code of fix_business_repo.py *)

Lemma fix_line_closing u w :
  contains template_call u = true -> all_space w = true ->
  fix_line (u ++ lit ");" ++ w) = append_code u ++ code_suffix ++ w.
Proof.
  intros Hu Hw. unfold fix_line, is_template_statement.
  rewrite contains_app_l by done.
  rewrite (proj2 (closing_line_shape _)) by eauto.
  by apply append_code_closing.
Qed.

(** ** The blocks of quick_fix_business.py *)

Lemma has_key_not_closing line : has_key line = true -> strip line <> lit ");".
Proof.
  intros H E. unfold has_key in H. apply existsb_exists in H as (key & Hk & Hc).
  assert (70%N ∈ line) as HF.
  { simpl in Hk. repeat (destruct Hk as [<- | Hk]; [by apply contains_head in Hc|]).
    done. }
  apply elem_of_strip in HF; [|done]. rewrite E in HF.
  apply list_elem_of_In in HF. simpl in HF. by destruct HF as [? | [? | []]].
Qed.

Lemma with_comma_differs line :
  ends_with (lit ",") (rstrip line) = false -> rstrip line ++ lit "," ++ [nl] <> line.
Proof.
  intros H E. pose proof (with_comma_ends line) as Hw.
  unfold with_comma in Hw. rewrite H, E in Hw. congruence.
Qed.

Lemma rstrip_nonempty c s : c ∈ s -> is_space c = false -> rstrip s <> [].
Proof.
  intros Hc Hs E. destruct (rstrip_decompose s) as (w & Hw & Hall).
  rewrite E in Hw. simpl in Hw. subst w.
  apply (elem_of_all_space _ _ Hall) in Hc. congruence.
Qed.

(** A line that is not blank keeps its indentation when its trailing
    white space is replaced. *)
Lemma indentation_rstrip c s x :
  c ∈ s -> is_space c = false -> indentation (rstrip s ++ x) = indentation s.
Proof.
  intros Hc Hs. induction s as [|a s IH]; [by apply elem_of_nil in Hc|].
  destruct (is_space a) eqn:Ea.
  - apply elem_of_cons in Hc as [->|Hc]; [congruence|].
    rewrite rstrip_cons_nonempty by by apply (rstrip_nonempty c).
    simpl. rewrite Ea. f_equal. by apply IH.
  - simpl. rewrite Ea. destruct (rstrip s); simpl; by rewrite Ea.
Qed.

(** ** The code of the regular expressions *)

Lemma patterns_rewrite rs r a m b :
  Forall well_delimited rs -> r ∈ rs ->
  (forall r', find (fun r' => N.eqb (delim r') (delim r)) rs = Some r' ->
              out_delim r' = out_delim r) ->
  m <> [] -> delim r ∉ m ->
  contains throw_error a = false -> contains throw_error m = false ->
  apply_patterns rs (a ++ stmt_in (delim r) m ++ b)
  = a ++ stmt_out (out_delim r) m ++ apply_patterns rs b.
Proof.
  intros Hrs Hr Hfind Hm Hq Ha Hp.
  assert (delim r ∈ delimiters) as Hd.
  { rewrite Forall_forall in Hrs. by destruct (Hrs r Hr). }
  rewrite apply_patterns_in by done.
  destruct (find _ rs) as [r'|] eqn:E.
  - by rewrite (Hfind r').
  - exfalso. apply list_elem_of_In in Hr.
    apply (find_none _ _ E) in Hr. by rewrite N.eqb_refl in Hr.
Qed.

(** ** Counting the import *)

Lemma no_start_before_spec n p w i r :
  no_start_before n p w = true -> i < n -> n <= length w ->
  starts_with p (drop i (w ++ r)) = false.
Proof.
  intros H Hi Hn. unfold no_start_before in H. rewrite forallb_forall in H.
  specialize (H i). rewrite in_seq in H.
  apply not_true_iff_false. intros E.
  rewrite drop_app_le in E by lia.
  apply compat_of_starts_with in E. rewrite E in H.
  discriminate H. lia.
Qed.

Lemma occurrences_self p r :
  p <> [] -> unbordered p = true -> occurrences p (p ++ r) = 1 + occurrences p r.
Proof.
  intros Hp Hu. destruct p as [|a p'] eqn:Ep; [done|]. rewrite <- Ep in *.
  assert (p ++ r = a :: (p' ++ r)) as -> by by rewrite Ep.
  rewrite occurrences_cons.
  assert (starts_with p (a :: (p' ++ r)) = true) as ->
    by (rewrite Ep; apply (starts_with_app (a :: p'))).
  f_equal. apply occurrences_skip. intros i Hi.
  apply not_true_iff_false. intros E.
  assert (drop i (p' ++ r) = drop (S i) p ++ r) as Hd.
  { rewrite Ep. simpl. by rewrite drop_app_le by lia. }
  rewrite Hd in E. apply compat_of_starts_with in E.
  unfold unbordered, no_reach_into in Hu. rewrite forallb_forall in Hu.
  specialize (Hu (S i)). rewrite in_seq, compat_sym, E in Hu.
  discriminate Hu. rewrite Ep. simpl. lia.
Qed.

Section ReplaceInsert.
Variables old new p : text.
Variable k : nat.
Hypothesis old_nonempty : old <> [].
Hypothesis old_unbordered : unbordered old = true.
Hypothesis apart_old : apart p old = true.
Hypothesis no_reach_new : no_reach_into p new = true.
Hypothesis inside_new : forall r, occurrences p (new ++ r) = k + occurrences p r.

(** When every [new] holds [k] occurrences of [p] and [p] overlaps
    neither [old] nor the seams, the replacement adds [k] occurrences of
    [p] for each occurrence of [old]. *)
Lemma occurrences_str_replace_insert s :
  occurrences p (str_replace old new s) = k * occurrences old s + occurrences p s.
Proof using All.
  apply andb_true_iff in apart_old as [Ho1 Ho2].
  remember (length s) as n eqn:Hn. revert s Hn.
  induction n as [n IH] using lt_wf_ind. intros s ->.
  destruct s as [|c s].
  { rewrite str_replace_nil, (occurrences_nil old) by done. lia. }
  destruct (starts_with old (c :: s)) eqn:E.
  - apply starts_with_true in E as [r E]. rewrite E.
    rewrite str_replace_match, inside_new by done.
    rewrite occurrences_self, occurrences_inside by done.
    rewrite (IH (length r)); [lia | | done].
    rewrite E, length_app. destruct old; [done | simpl; lia].
  - rewrite str_replace_skip by done.
    rewrite !(occurrences_cons _ c), E.
    rewrite (IH (length s)) by (simpl; lia || done).
    enough (starts_with p (c :: str_replace old new s) = starts_with p (c :: s))
      as -> by lia.
    destruct (str_replace_cases old new old_nonempty s) as [-> | (u & v & -> & ->)];
      [done|].
    pose proof (starts_with_seam p (c :: u) new (str_replace old new v) old v)
      as Hseam.
    simpl in Hseam. by rewrite Hseam.
Qed.
End ReplaceInsert.

Lemma no_marker_no_import s :
  contains marker s = false -> occurrences import_decl s = 0.
Proof.
  intros H. apply contains_false_occurrences, not_true_iff_false. intros E.
  rewrite (contains_trans marker import_decl s) in H; [done | by vm_compute | done].
Qed.

Lemma import_not_in_newline : nl ∉ import_decl.
Proof. apply (bool_decide_unpack _). by vm_compute. Qed.

Lemma occurrences_import_inserted r :
  occurrences import_decl ((business_anchor ++ nl :: import_decl) ++ r)
  = 1 + occurrences import_decl r.
Proof.
  replace ((business_anchor ++ nl :: import_decl) ++ r)
    with ((business_anchor ++ [nl]) ++ import_decl ++ r)
    by by rewrite <- !app_assoc.
  rewrite occurrences_skip; [by apply occurrences_self|].
  intros i Hi. rewrite app_assoc.
  apply (no_start_before_spec (length (business_anchor ++ [nl])));
    [by vm_compute | done | rewrite !length_app; lia].
Qed.

(** The import guard inserts one declaration for each occurrence of the
    anchor. *)
Lemma inject_business_count content :
  contains marker content = false ->
  occurrences import_decl (inject_business content)
  = occurrences business_anchor content.
Proof.
  intros H. unfold inject_business. rewrite H.
  rewrite (occurrences_str_replace_insert _ _ _ 1);
    [|done..|apply occurrences_import_inserted].
  rewrite no_marker_no_import by done. lia.
Qed.

(** The rename and the loop neither make nor break a declaration. *)
Lemma import_count_after_inject content :
  occurrences import_decl (fix_business_repo content)
  = occurrences import_decl (inject_business content).
Proof.
  rewrite fix_business_repo_unfold.
  rewrite occurrences_fix_lines; [|done..|apply import_not_in_newline].
  rewrite join_split_nl. unfold rename_throw.
  by apply occurrences_str_replace.
Qed.

(** ** The import guard of fix_business_sector_repo.py *)

Lemma insert_after_first_import_found i pre line post lines :
  (forall l, l ∈ pre -> starts_with (lit "import ") l = false) ->
  starts_with (lit "import ") line = true ->
  insert_after_first_import i (pre ++ line :: post) lines
  = list_insert_at (i + length pre + 1) import_decl lines.
Proof.
  revert i. induction pre as [|l pre IH]; intros i Hpre Hline.
  - cbn [insert_after_first_import app]. rewrite Hline. f_equal. simpl. lia.
  - cbn [insert_after_first_import app]. rewrite (Hpre l) by by left.
    rewrite IH; [f_equal; simpl; lia | | done].
    intros l' Hl'. apply Hpre. by right.
Qed.

Lemma insert_after_first_import_none i rest lines :
  (forall l, l ∈ rest -> starts_with (lit "import ") l = false) ->
  insert_after_first_import i rest lines = lines.
Proof.
  revert i. induction rest as [|l rest IH]; intros i H; [done|].
  cbn [insert_after_first_import]. rewrite (H l) by by left.
  apply IH. intros l' Hl'. apply H. by right.
Qed.

Lemma list_insert_at_middle pre line x post :
  list_insert_at (0 + length pre + 1) x (pre ++ line :: post)
  = pre ++ line :: x :: post.
Proof.
  unfold list_insert_at.
  replace (pre ++ line :: post) with ((pre ++ [line]) ++ post)
    by by rewrite <- app_assoc.
  replace (0 + length pre + 1) with (length (pre ++ [line]))
    by (rewrite length_app; simpl; lia).
  rewrite take_app_length, drop_app_length. by rewrite <- app_assoc.
Qed.

Lemma inject_sector_found content pre line post :
  contains marker content = false ->
  split_nl content = pre ++ line :: post ->
  (forall l, l ∈ pre -> starts_with (lit "import ") l = false) ->
  starts_with (lit "import ") line = true ->
  inject_sector content = join_nl (pre ++ line :: import_decl :: post).
Proof.
  intros Hm Hs Hpre Hline. unfold inject_sector. rewrite Hm, Hs.
  rewrite insert_after_first_import_found by done. f_equal.
  apply list_insert_at_middle.
Qed.

Lemma sum_list_app (xs ys : list nat) :
  sum_list (xs ++ ys) = sum_list xs + sum_list ys.
Proof. induction xs as [|x xs IH]; simpl; [done | rewrite IH; lia]. Qed.

Lemma sum_occurrences_zero p ls :
  p <> [] -> nl ∉ p -> occurrences p (join_nl ls) = 0 ->
  sum_list (map (occurrences p) ls) = 0.
Proof. intros Hp Hnl H. by rewrite <- occurrences_join. Qed.

Lemma inject_sector_once content pre line post :
  contains marker content = false ->
  split_nl content = pre ++ line :: post ->
  (forall l, l ∈ pre -> starts_with (lit "import ") l = false) ->
  starts_with (lit "import ") line = true ->
  occurrences import_decl (inject_sector content) = 1.
Proof.
  intros Hm Hs Hpre Hline.
  rewrite (inject_sector_found content pre line post) by done.
  rewrite occurrences_join; [|done | apply import_not_in_newline].
  pose proof (sum_occurrences_zero import_decl (split_nl content) ltac:(done)
                import_not_in_newline) as H0.
  rewrite join_split_nl, Hs in H0. specialize (H0 (no_marker_no_import _ Hm)).
  rewrite map_app, sum_list_app in H0.
  rewrite map_app, sum_list_app.
  assert (occurrences import_decl import_decl = 1) as Hone by by vm_compute.
  cbn [map sum_list sum_list_with] in *. rewrite Hone. unfold id in *. lia.
Qed.

(** ** Occurrences under a substitution in general *)

Section ScanCount.
Variable mt : matcher.
Variable p : text.
Hypothesis match_len : forall s out len,
  mt s = Some (out, len) -> 0 < len /\ len <= length s.
Hypothesis match_count : forall s out len Y,
  mt s = Some (out, len) ->
  occurrences p (out ++ Y) + occurrences p (drop len s)
  = occurrences p s + occurrences p Y.
Hypothesis match_seam : forall s out len x R,
  mt s = Some (out, len) -> x <> [] -> length x < length p ->
  starts_with p (x ++ out ++ R) = false /\ starts_with p (x ++ s) = false.

Lemma scan_cases s :
  scan mt s = s \/
  exists u s' out len, s = u ++ s' /\ mt s' = Some (out, len) /\
    scan mt s = u ++ out ++ scan mt (drop len s').
Proof using match_len.
  induction s as [|c s IH]; [by left|].
  destruct (mt (c :: s)) as [[out len]|] eqn:E.
  - right. exists [], (c :: s), out, len. split_and!; [done..|].
    apply scan_some; [done | by apply (match_len _ _ _ E) | done].
  - rewrite scan_none by done.
    destruct IH as [-> | (u & s' & out & len & -> & Hm & ->)]; [by left|].
    right. by exists (c :: u), s', out, len.
Qed.

(** A substitution whose matches hold as many occurrences of [p] as
    their replacements, and into which [p] cannot reach, keeps the number
    of occurrences of [p]. *)
Lemma occurrences_scan s : occurrences p (scan mt s) = occurrences p s.
Proof using All.
  remember (length s) as n eqn:Hn. revert s Hn.
  induction n as [n IH] using lt_wf_ind. intros s ->.
  destruct s as [|c s]; [done|].
  destruct (mt (c :: s)) as [[out len]|] eqn:E.
  - pose proof (match_len _ _ _ E) as [Hl1 Hl2].
    rewrite (scan_some _ _ _ _ E) by done.
    pose proof (match_count _ _ _ (scan mt (drop len (c :: s))) E) as Hc.
    rewrite (IH (length (drop len (c :: s)))) in Hc; [lia | | done].
    rewrite length_drop. lia.
  - rewrite scan_none by done. rewrite !(occurrences_cons _ c).
    rewrite (IH (length s)) by (simpl; lia || done).
    enough (starts_with p (c :: scan mt s) = starts_with p (c :: s)) as -> by done.
    destruct (scan_cases s) as [-> | (u & s' & out & len & -> & Hm & ->)]; [done|].
    change (c :: u ++ ?x) with ((c :: u) ++ x).
    destruct (decide (length p <= length (c :: u))).
    + by rewrite !starts_with_short.
    + destruct (match_seam s' out len (c :: u) (scan mt (drop len s')) Hm)
        as [-> ->]; [done | lia | done].
Qed.
End ScanCount.

(** ** What a rule matches *)

Lemma span_until_spec d s run rest :
  span_until d s = (run, rest) ->
  s = run ++ rest /\ (d ∉ run) /\ (rest = [] \/ exists t, rest = d :: t).
Proof.
  revert run rest. induction s as [|c s IH]; intros run rest; simpl.
  - intros [= <- <-]. split_and!; [done | by intros ?%elem_of_nil | by left].
  - destruct (N.eqb_spec c d) as [->|Hne].
    + intros [= <- <-]. split_and!; [done | by intros ?%elem_of_nil | right; eauto].
    + destruct (span_until d s) as [run' rest'] eqn:E. intros [= <- <-].
      destruct (IH run' rest' eq_refl) as (-> & Hrun & Hrest).
      split_and!; [done | | done].
      intros [?|?]%elem_of_cons; [congruence | done].
Qed.

Lemma skip_ws_decompose b s :
  exists ws, s = ws ++ skip_ws b s /\ all_space ws = true.
Proof.
  destruct b; simpl; [apply lstrip_decompose | by exists []].
Qed.

(** A match is the call, white space, the delimited payload, white space
    and [);]. *)
Lemma match_rule_Some r s m rest :
  match_rule r s = Some (m, rest) ->
  exists ws1 ws2,
    s = throw_error ++ ws1 ++ delim r :: m ++ delim r :: ws2 ++ lit ");" ++ rest /\
    all_space ws1 = true /\ all_space ws2 = true /\ m <> [] /\ delim r ∉ m.
Proof.
  unfold match_rule.
  destruct (strip_prefix throw_error s) as [s1|] eqn:E1; [|done].
  apply strip_prefix_Some in E1 as ->.
  destruct (skip_ws_decompose (around_ws r) s1) as (ws1 & Hs1 & Hws1).
  destruct (skip_ws (around_ws r) s1) as [|d s2]; [done|].
  destruct (N.eqb_spec d (delim r)) as [->|]; [|done].
  destruct (span_until (delim r) s2) as [run rest'] eqn:E2.
  apply span_until_spec in E2 as (-> & Hrun & Hrest).
  destruct run as [|c run]; [done|].
  destruct rest' as [|d' s3]; [done|].
  destruct Hrest as [? | [t [= -> ->]]]; [done|].
  destruct (skip_ws_decompose (around_ws r) t) as (ws2 & Ht & Hws2).
  destruct (strip_prefix (lit ");") (skip_ws (around_ws r) t)) as [rest''|] eqn:E3;
    [|done].
  apply strip_prefix_Some in E3. intros [= <- <-].
  exists ws1, ws2. split_and!; [|done..].
  rewrite Hs1 at 1. rewrite Ht at 1. by rewrite E3.
Qed.

Lemma rule_matcher_Some r s out len :
  rule_matcher r s = Some (out, len) ->
  exists ws1 m ws2 rest,
    s = (throw_error ++ ws1 ++ delim r :: m ++ delim r :: ws2 ++ lit ");") ++ rest /\
    len = length (throw_error ++ ws1 ++ delim r :: m ++ delim r :: ws2 ++ lit ");") /\
    out = stmt_out (out_delim r) m /\
    all_space ws1 = true /\ all_space ws2 = true /\ m <> [] /\ delim r ∉ m.
Proof.
  unfold rule_matcher. destruct (match_rule r s) as [[m rest]|] eqn:E; [|done].
  intros [= <- <-].
  apply match_rule_Some in E as (ws1 & ws2 & -> & H1 & H2 & H3 & H4).
  assert (throw_error ++ ws1 ++ delim r :: m ++ delim r :: ws2 ++ lit ");" ++ rest
          = (throw_error ++ ws1 ++ delim r :: m ++ delim r :: ws2 ++ lit ");") ++ rest)
    as Heq by (by reassoc).
  exists ws1, m, ws2, rest. split_and!; try done.
  rewrite Heq, length_app. lia.
Qed.

(** ** The import under the regular expressions *)

Lemma occurrences_skip_heads a p x s :
  Forall (fun c => c <> a) x ->
  occurrences (a :: p) (x ++ s) = occurrences (a :: p) s.
Proof.
  intros H. induction H as [|c x Hc _ IH]; [done|].
  change ((c :: x) ++ s) with (c :: (x ++ s)). rewrite occurrences_cons, IH.
  cbn [starts_with]. by destruct (N.eqb_spec a c).
Qed.

Lemma all_space_heads a w :
  is_space a = false -> all_space w = true -> Forall (fun c => c <> a) w.
Proof.
  intros Ha Hw. apply Forall_forall. intros c Hc ->.
  apply (elem_of_all_space _ _ Hw) in Hc. congruence.
Qed.

(** Two texts that agree up to the first occurrence of a character part
    at that character. *)
Lemma starts_with_align d p1 p2 x s :
  d ∉ p1 -> d ∉ x -> starts_with (p1 ++ d :: p2) (x ++ d :: s) = true ->
  starts_with p2 s = true.
Proof.
  revert x. induction p1 as [|b p1 IH]; intros x Hp Hx H.
  - destruct x as [|a x]; cbn [app starts_with] in H.
    + by apply andb_true_iff in H as [_ H].
    + apply andb_true_iff in H as [->%N.eqb_eq _]. exfalso. apply Hx. by left.
  - destruct x as [|a x]; cbn [app starts_with] in H.
    + apply andb_true_iff in H as [->%N.eqb_eq _]. exfalso. apply Hp. by left.
    + apply andb_true_iff in H as [_ H]. apply (IH x); [| |done].
      * intros ?. apply Hp. by right.
      * intros ?. apply Hx. by right.
Qed.

Lemma import_decl_parts :
  import_decl = lit "import { InfrastructureException } from " ++ sq ::
                lit "@shared/exceptions/shared.exceptions';".
Proof. done. Qed.

Lemma import_decl_head :
  import_decl = 105%N :: lit "mport { InfrastructureException } from '@shared/exceptions/shared.exceptions';".
Proof. done. Qed.

(** Behind the closing delimiter no declaration begins before the end of
    the match. *)
Lemma occurrences_import_tail q ws2 rest :
  q ∈ delimiters -> all_space ws2 = true ->
  occurrences import_decl (q :: ws2 ++ lit ");" ++ rest)
  = occurrences import_decl rest.
Proof.
  intros Hq Hw. rewrite import_decl_head.
  replace (q :: ws2 ++ lit ");" ++ rest) with ((q :: ws2 ++ lit ");") ++ rest)
    by by reassoc.
  rewrite occurrences_skip_heads.
  - done.
  - constructor; [by delimiter_cases Hq|].
    apply Forall_app. split; [by apply all_space_heads|].
    by repeat constructor.
Qed.

(** The declarations that begin in a payload lie in the payload. *)
Lemma occurrences_import_payload q m ws2 rest :
  q ∈ delimiters -> q ∉ m -> all_space ws2 = true ->
  occurrences import_decl (m ++ q :: ws2 ++ lit ");" ++ rest)
  = occurrences import_decl m + occurrences import_decl rest.
Proof.
  intros Hq Hm Hw.
  destruct (decide (q = sq)) as [->|Hne].
  - assert (occurrences import_decl m = 0) as ->.
    { apply contains_false_occurrences, not_true_iff_false.
      intros (u & v & ->)%contains_true. apply Hm.
      rewrite !elem_of_app. right. left. apply (bool_decide_unpack _). by vm_compute. }
    rewrite occurrences_skip; [by apply occurrences_import_tail|].
    intros i Hi. apply not_true_iff_false. intros E.
    rewrite drop_app_le, import_decl_parts in E by lia.
    apply starts_with_align in E.
    + destruct ws2 as [|c ws2].
      * by vm_compute in E.
      * cbn [app all_space forallb] in *. apply andb_true_iff in Hw as [Hc _].
        change (lit "@shared/exceptions/shared.exceptions';")
          with (64%N :: lit "shared/exceptions/shared.exceptions';") in E.
        cbn [starts_with] in E. apply andb_true_iff in E as [<-%N.eqb_eq _].
        done.
    + apply (bool_decide_unpack _). by vm_compute.
    + intros Hin. apply Hm. rewrite <- (take_drop i m), elem_of_app. by right.
  - rewrite occurrences_before_char; [|done|].
    + by rewrite occurrences_import_tail.
    + delimiter_cases Hq; [done|..]; apply (bool_decide_unpack _); by vm_compute.
Qed.

Lemma occurrences_import_in r ws1 m ws2 rest :
  delim r ∈ delimiters -> delim r ∉ m ->
  all_space ws1 = true -> all_space ws2 = true ->
  occurrences import_decl
    ((throw_error ++ ws1 ++ delim r :: m ++ delim r :: ws2 ++ lit ");") ++ rest)
  = occurrences import_decl m + occurrences import_decl rest.
Proof.
  intros Hq Hm H1 H2.
  replace ((throw_error ++ ws1 ++ delim r :: m ++ delim r :: ws2 ++ lit ");") ++ rest)
    with (throw_error ++ (ws1 ++ [delim r]) ++ m ++ delim r :: ws2 ++ lit ");" ++ rest)
    by by reassoc.
  rewrite occurrences_inside by done.
  rewrite import_decl_head, occurrences_skip_heads, <- import_decl_head.
  - by apply occurrences_import_payload.
  - apply Forall_app. split; [by apply all_space_heads|].
    constructor; [|done]. by delimiter_cases Hq.
Qed.

Lemma occurrences_import_out q m Y :
  q = dq \/ q = bt ->
  occurrences import_decl (stmt_out q m ++ Y)
  = occurrences import_decl m + occurrences import_decl Y.
Proof.
  intros Hq. unfold stmt_out.
  replace ((throw_infra ++ q :: m ++ q :: code_suffix) ++ Y)
    with (throw_infra ++ [q] ++ m ++ q :: code_suffix ++ Y) by by reassoc.
  rewrite occurrences_inside by done.
  rewrite import_decl_head, (occurrences_skip_heads _ _ [q]), <- import_decl_head
    by (constructor; [by destruct Hq as [-> | ->] | done]).
  rewrite occurrences_before_char; [|done|].
  - f_equal. change (q :: code_suffix ++ Y) with ([q] ++ code_suffix ++ Y).
    rewrite import_decl_head, (occurrences_skip_heads _ _ [q]), <- import_decl_head
      by (constructor; [by destruct Hq as [-> | ->] | done]).
    by apply occurrences_inside.
  - destruct Hq as [-> | ->]; apply (bool_decide_unpack _); by vm_compute.
Qed.

(** A pattern neither makes nor breaks an import declaration. *)
Lemma occurrences_import_re_sub r s :
  r ∈ calendar_patterns ->
  occurrences import_decl (re_sub r s) = occurrences import_decl s.
Proof.
  intros Hr.
  assert (delim r ∈ delimiters /\ (out_delim r = dq \/ out_delim r = bt)) as [Hd Ho].
  { apply list_elem_of_In in Hr. simpl in Hr.
    destruct Hr as [<- | [<- | [<- | [<- | []]]]];
      (split; [apply (bool_decide_unpack _); by vm_compute | simpl; auto]). }
  apply occurrences_scan.
  - intros s' out len (ws1 & m & ws2 & rest & -> & -> & _)%rule_matcher_Some.
    rewrite !length_app. split; [|lia]. unfold throw_error. simpl. lia.
  - intros s' out len Y
      (ws1 & m & ws2 & rest & -> & -> & -> & H1 & H2 & H3 & H4)%rule_matcher_Some.
    rewrite drop_app_length, occurrences_import_in, occurrences_import_out by done.
    lia.
  - intros s' out len x R
      (ws1 & m & ws2 & rest & -> & -> & -> & _)%rule_matcher_Some Hx Hlen.
    assert (0 < length x) by (destruct x; [done | simpl; lia]).
    unfold stmt_out. rewrite <- !app_assoc.
    split; by apply no_reach_into_spec.
Qed.

Lemma occurrences_import_patterns rs s :
  (forall r, r ∈ rs -> r ∈ calendar_patterns) ->
  occurrences import_decl (apply_patterns rs s) = occurrences import_decl s.
Proof.
  revert s. induction rs as [|r rs IH]; intros s H; [done|].
  change (apply_patterns (r :: rs) s) with (apply_patterns rs (re_sub r s)).
  rewrite IH by (intros; apply H; by right).
  apply occurrences_import_re_sub, H. by left.
Qed.

(** ** The import *)

Lemma sector_in_calendar r : r ∈ sector_patterns -> r ∈ calendar_patterns.
Proof.
  rewrite !list_elem_of_In. simpl. tauto.
Qed.

(** ** Statements that a replacement leaves alone *)

Lemma quiet_tail_of p c x : quiet p (c :: x) -> quiet p x.
Proof.
  intros H i r Hi. apply (H (S i) r). simpl. lia.
Qed.

Lemma quiet_contains p x : p <> [] -> quiet p x -> contains p x = false.
Proof.
  intros Hp. induction x as [|c x IH]; intros H.
  - simpl. by destruct p.
  - rewrite contains_cons, IH by by apply (quiet_tail_of _ c).
    pose proof (H 0 [] ltac:(simpl; lia)) as H0.
    rewrite drop_0, app_nil_r in H0. by rewrite H0.
Qed.

Section Kept.
Variables old new stmt : text.
Hypothesis old_nonempty : old <> [].
Hypothesis no_reach : forall x r,
  x <> [] -> length x < length old -> starts_with old (x ++ stmt ++ r) = false.
Hypothesis stmt_quiet : quiet old stmt.

(** A stretch of text in which [old] begins nowhere and into which it
    cannot reach stays as it is, and the text around it is replaced on
    its own. *)
Lemma str_replace_kept a b :
  str_replace old new (a ++ stmt ++ b)
  = str_replace old new a ++ stmt ++ str_replace old new b.
Proof using All.
  rewrite str_replace_app; [|done|].
  - f_equal. rewrite str_replace_app; [|done|].
    + f_equal. by apply str_replace_absent, quiet_contains.
    + intros i Hi. rewrite stmt_quiet by done.
      pose proof (stmt_quiet i [] Hi) as H. by rewrite app_nil_r in H.
  - intros i Hi. rewrite drop_app_le by lia.
    destruct (decide (length old <= length (drop i a))).
    + by rewrite starts_with_short.
    + rewrite no_reach.
      * symmetry. apply not_true_iff_false. intros E%starts_with_length. lia.
      * intros E%(f_equal length). rewrite length_drop in E. simpl in E. lia.
      * lia.
Qed.
End Kept.

(** ** fix_rbac_context_repo.py and a call that has its code *)

Section KeptCall.
Variables old new prefix c : text.
Hypothesis old_nonempty : old <> [].
Hypothesis no_reach : no_reach_into old prefix = true.
Hypothesis no_start : no_start_inside old prefix = true.
Hypothesis argument_quiet : quiet old (c ++ lit ");").

End KeptCall.



Section RbacKept.
Variables (k : string * string) (c : text).
Hypothesis key_known : k ∈ rbac_table.



End RbacKept.

(** ** The write *)



(** * Further properties of the scripts *)

(** ** Where the call does not occur *)

Lemma contains_false_drop p s i : contains p s = false -> starts_with p (drop i s) = false.
Proof.
  intros H. apply not_true_iff_false. intros E.
  apply starts_with_contains, contains_drop in E. congruence.
Qed.

(** A pattern leaves a text without [throw new Error(] as it is. *)
Lemma re_sub_absent r s : contains throw_error s = false -> re_sub r s = s.
Proof.
  intros H. apply scan_id. intros i.
  by apply rule_matcher_none, contains_false_drop.
Qed.

Lemma apply_patterns_absent rs s :
  contains throw_error s = false -> apply_patterns rs s = s.
Proof.
  intros H. induction rs as [|r rs IH]; [done|].
  change (apply_patterns (r :: rs) s) with (apply_patterns rs (re_sub r s)).
  by rewrite re_sub_absent.
Qed.

(** ** What a replacement writes shows in the text *)

Lemma str_replace_shows p old new s :
  old <> [] -> contains p new = true ->
  str_replace old new s = s \/ contains p (str_replace old new s) = true.
Proof.
  intros Ho Hp.
  destruct (str_replace_cases old new Ho s) as [H | (u & v & _ & H)]; [by left | right].
  rewrite H. by apply contains_app_r, contains_app_l.
Qed.

Lemma rule_matcher_len r s out len :
  rule_matcher r s = Some (out, len) -> 0 < len <= length s.
Proof.
  intros (ws1 & m & ws2 & rest & -> & -> & _)%rule_matcher_Some.
  rewrite !length_app. split; [|lia]. unfold throw_error. simpl. lia.
Qed.

Lemma stmt_out_marker q m : contains marker (stmt_out q m) = true.
Proof. unfold stmt_out. apply contains_app_l. by vm_compute. Qed.

Lemma re_sub_marker r s :
  re_sub r s = s \/ contains marker (re_sub r s) = true.
Proof.
  destruct (scan_cases (rule_matcher r) (rule_matcher_len r) s)
    as [H | (u & s' & out & len & _ & Hm & H)]; [by left | right].
  unfold re_sub. rewrite H.
  apply rule_matcher_Some in Hm as (ws1 & m & ws2 & rest & _ & _ & -> & _).
  apply contains_app_r, contains_app_l, stmt_out_marker.
Qed.

Lemma apply_patterns_marker rs s :
  apply_patterns rs s = s \/ contains marker (apply_patterns rs s) = true.
Proof.
  revert s. induction rs as [|r rs IH]; intros s; [by left|].
  change (apply_patterns (r :: rs) s) with (apply_patterns rs (re_sub r s)).
  destruct (IH (re_sub r s)) as [-> | H]; [apply re_sub_marker | by right].
Qed.

(** ** The import guards *)

Lemma inject_calendar_marker s :
  inject_calendar s = s \/ contains marker (inject_calendar s) = true.
Proof.
  unfold inject_calendar. destruct (contains marker s); [by left|].
  apply str_replace_shows; [done | by vm_compute].
Qed.

Lemma inject_rbac_marker s :
  inject_rbac s = s \/ contains marker (inject_rbac s) = true.
Proof.
  unfold inject_rbac. destruct (contains marker s); [by left|].
  apply str_replace_shows; [done | by vm_compute].
Qed.

(** The lines up to the first one that starts with [import ]. *)
Lemma first_import_split (ls : list (list N)) :
  (forall l, l ∈ ls -> starts_with (lit "import ") l = false) \/
  exists pre line post, ls = pre ++ line :: post /\
    (forall l, l ∈ pre -> starts_with (lit "import ") l = false) /\
    starts_with (lit "import ") line = true.
Proof.
  induction ls as [|l ls IH]; [left; by intros l ?%elem_of_nil|].
  destruct (starts_with (lit "import ") l) eqn:E.
  - right. exists [], l, ls. split_and!; [done | by intros ? ?%elem_of_nil | done].
  - destruct IH as [H | (pre & line & post & -> & Hpre & Hline)].
    + left. intros l' [-> | Hl']%elem_of_cons; auto.
    + right. exists (l :: pre), line, post. split_and!; [done | | done].
      intros l' [-> | Hl']%elem_of_cons; auto.
Qed.

Lemma inject_sector_cases s :
  inject_sector s = s \/
  exists pre line post, split_nl s = pre ++ line :: post /\
    inject_sector s = join_nl (pre ++ line :: import_decl :: post).
Proof.
  destruct (contains marker s) eqn:Hm.
  { left. unfold inject_sector. by rewrite Hm. }
  destruct (first_import_split (split_nl s)) as [H | (pre & line & post & Hs & Hpre & Hline)].
  - left. unfold inject_sector. rewrite Hm.
    by rewrite insert_after_first_import_none, join_split_nl.
  - right. exists pre, line, post. split; [done|]. by apply inject_sector_found.
Qed.

Lemma inject_sector_marker s :
  inject_sector s = s \/ contains marker (inject_sector s) = true.
Proof.
  destruct (inject_sector_cases s) as [H | (pre & line & post & _ & ->)]; [by left | right].
  apply (contains_join _ import_decl); [|by vm_compute].
  rewrite elem_of_app, !elem_of_cons. auto.
Qed.

(** A guard that has nothing to do where the marker stands has nothing to
    do behind a rewriting that shows the marker wherever it changes the
    text. *)
Lemma guard_at_rest (guard rewrite : list N -> list N) :
  (forall s, contains marker s = true -> guard s = s) ->
  (forall s, guard s = s \/ contains marker (guard s) = true) ->
  (forall s, rewrite s = s \/ contains marker (rewrite s) = true) ->
  forall s, guard (rewrite (guard s)) = rewrite (guard s).
Proof.
  intros Hpresent Hguard Hrewrite s.
  destruct (contains marker (rewrite (guard s))) eqn:E; [by apply Hpresent|].
  destruct (Hrewrite (guard s)) as [Hr | Hr]; [|congruence].
  rewrite Hr in *.
  destruct (Hguard s) as [Hg | Hg]; [|congruence].
  by rewrite !Hg.
Qed.

Lemma inject_sector_present s : contains marker s = true -> inject_sector s = s.
Proof. unfold inject_sector. by intros ->. Qed.

Lemma inject_calendar_present s : contains marker s = true -> inject_calendar s = s.
Proof. unfold inject_calendar. by intros ->. Qed.

Lemma inject_rbac_present s : contains marker s = true -> inject_rbac s = s.
Proof. unfold inject_rbac. by intros ->. Qed.

(** The loop of fix_business_repo.py shows the marker where it changes a
    line. *)
Lemma fix_lines_marker ls :
  map fix_line ls = ls \/ contains marker (join_nl (map fix_line ls)) = true.
Proof.
  destruct (decide (Forall (fun l => is_template_statement l = false) ls)) as [H | H].
  - left. apply map_fix_line_id. by apply Forall_forall.
  - right. apply not_Forall_Exists in H; [|intros l; apply _].
    apply Exists_exists in H as (l & Hl & Ht).
    apply not_false_iff_true in Ht.
    apply (contains_join _ (fix_line l)); [by apply list_elem_of_fmap_2|].
    unfold fix_line. rewrite Ht. unfold append_code.
    rewrite apart_contains by done.
    apply andb_true_iff in Ht as [Hc _].
    apply (contains_trans _ template_call); [by vm_compute | done].
Qed.

Lemma business_rewrite_marker s :
  business_rewrite s = s \/ contains marker (business_rewrite s) = true.
Proof.
  unfold business_rewrite.
  destruct (fix_lines_marker (split_nl (rename_throw s))) as [-> | H]; [|by right].
  rewrite join_split_nl. apply rename_throw_marker.
Qed.

Lemma rbac_replace_marker e s :
  rbac_replace e s = s \/ contains marker (rbac_replace e s) = true.
Proof.
  unfold rbac_replace. apply str_replace_shows.
  - by destruct (translate_call (fst e)).
  - unfold translate_call. rewrite <- !app_assoc. apply contains_app_l. by vm_compute.
Qed.

Lemma rbac_fold_marker es s :
  fold_left (fun c entry => rbac_replace entry c) es s = s \/
  contains marker (fold_left (fun c entry => rbac_replace entry c) es s) = true.
Proof.
  revert s. induction es as [|e es IH]; intros s; [by left|].
  cbn [fold_left].
  destruct (IH (rbac_replace e s)) as [-> | H]; [apply rbac_replace_marker | by right].
Qed.

Lemma rbac_rewrite_marker s :
  rbac_rewrite s = s \/ contains marker (rbac_rewrite s) = true.
Proof.
  unfold rbac_rewrite.
  destruct (rbac_fold_marker rbac_table (rename_throw s)) as [-> | H]; [|by right].
  apply rename_throw_marker.
Qed.

(** ** Counting the import behind the other guards *)

Section Inserted.
Variable anchor : list N.
Hypothesis anchor_nonempty : anchor <> [].
Hypothesis anchor_unbordered : unbordered anchor = true.
Hypothesis anchor_apart : apart import_decl anchor = true.
Hypothesis anchor_no_reach :
  no_reach_into import_decl (anchor ++ nl :: import_decl) = true.
Hypothesis anchor_before :
  no_start_before (length (anchor ++ [nl])) import_decl
    ((anchor ++ [nl]) ++ import_decl) = true.

Lemma occurrences_import_behind r :
  occurrences import_decl ((anchor ++ nl :: import_decl) ++ r)
  = 1 + occurrences import_decl r.
Proof using anchor_before.
  replace ((anchor ++ nl :: import_decl) ++ r)
    with ((anchor ++ [nl]) ++ import_decl ++ r)
    by by rewrite <- !app_assoc.
  rewrite occurrences_skip; [by apply occurrences_self|].
  intros i Hi. rewrite app_assoc.
  apply (no_start_before_spec (length (anchor ++ [nl])));
    [done | done | rewrite !length_app; lia].
Qed.

(** A guard that replaces its anchor inserts one declaration for each
    occurrence of the anchor. *)
Lemma inject_count content :
  contains marker content = false ->
  occurrences import_decl
    (str_replace anchor (anchor ++ nl :: import_decl) content)
  = occurrences anchor content.
Proof using All.
  intros H.
  rewrite (occurrences_str_replace_insert _ _ _ 1);
    [|done..|apply occurrences_import_behind].
  rewrite no_marker_no_import by done. lia.
Qed.
End Inserted.

Lemma inject_calendar_count content :
  occurrences import_decl (inject_calendar content)
  = if contains marker content then occurrences import_decl content
    else occurrences calendar_anchor content.
Proof.
  unfold inject_calendar. destruct (contains marker content) eqn:E; [done|].
  apply inject_count; done.
Qed.

Lemma inject_rbac_count content :
  occurrences import_decl (inject_rbac content)
  = if contains marker content then occurrences import_decl content
    else occurrences rbac_anchor content.
Proof.
  unfold inject_rbac. destruct (contains marker content) eqn:E; [done|].
  apply inject_count; done.
Qed.

Lemma inject_business_count_cases content :
  occurrences import_decl (inject_business content)
  = if contains marker content then occurrences import_decl content
    else occurrences business_anchor content.
Proof.
  destruct (contains marker content) eqn:E.
  - by rewrite inject_business_present.
  - by apply inject_business_count.
Qed.

(** The replacements of fix_rbac_context_repo.py and the texts that they
    neither make nor break. *)
Lemma rbac_entry_nonempty e : rbac_pattern e <> [].
Proof. unfold rbac_pattern. by destruct (translate_call (fst e)). Qed.

Lemma rbac_replace_eq e s :
  rbac_replace e s = str_replace (rbac_pattern e) (rbac_replacement e) s.
Proof. done. Qed.

Lemma rbac_fold_occurrences p es s :
  forallb (fun e => apart p (rbac_pattern e) && apart p (rbac_replacement e)) es = true ->
  occurrences p (fold_left (fun c entry => rbac_replace entry c) es s)
  = occurrences p s.
Proof.
  revert s. induction es as [|e es IH]; intros s H; [done|].
  cbn [forallb fold_left] in *.
  apply andb_true_iff in H as [[H1 H2]%andb_true_iff H].
  rewrite IH by done. rewrite rbac_replace_eq.
  apply occurrences_str_replace; [apply rbac_entry_nonempty | done..].
Qed.

Lemma rbac_rewrite_import s :
  occurrences import_decl (rbac_rewrite s) = occurrences import_decl s.
Proof.
  unfold rbac_rewrite. rewrite rbac_fold_occurrences by by vm_compute.
  unfold rename_throw. by apply occurrences_str_replace.
Qed.

Lemma business_rewrite_import s :
  occurrences import_decl (business_rewrite s) = occurrences import_decl s.
Proof.
  unfold business_rewrite.
  rewrite occurrences_fix_lines; [|done..|apply import_not_in_newline].
  rewrite join_split_nl. unfold rename_throw.
  by apply occurrences_str_replace.
Qed.

Lemma fix_business_repo_rewrite s :
  fix_business_repo s = business_rewrite (inject_business s).
Proof. apply fix_business_repo_unfold. Qed.

Lemma fix_rbac_context_repo_rewrite s :
  fix_rbac_context_repo s = rbac_rewrite (inject_rbac s).
Proof. done. Qed.

(** The guards at rest behind their scripts. *)
Lemma inject_business_at_rest s :
  inject_business (fix_business_repo s) = fix_business_repo s.
Proof.
  rewrite fix_business_repo_rewrite.
  apply guard_at_rest;
    [apply inject_business_present | apply inject_business_marker
    |apply business_rewrite_marker].
Qed.

Lemma inject_sector_at_rest s :
  inject_sector (fix_business_sector_repo s) = fix_business_sector_repo s.
Proof.
  apply (guard_at_rest inject_sector (apply_patterns sector_patterns));
    [apply inject_sector_present | apply inject_sector_marker
    |apply apply_patterns_marker].
Qed.

Lemma inject_calendar_at_rest s :
  inject_calendar (fix_calendar_repo s) = fix_calendar_repo s.
Proof.
  apply (guard_at_rest inject_calendar (apply_patterns calendar_patterns));
    [apply inject_calendar_present | apply inject_calendar_marker
    |apply apply_patterns_marker].
Qed.

Lemma inject_role_at_rest s :
  inject_business (fix_role_assignment_repo s) = fix_role_assignment_repo s.
Proof.
  apply (guard_at_rest inject_business (apply_patterns sector_patterns));
    [apply inject_business_present | apply inject_business_marker
    |apply apply_patterns_marker].
Qed.

Lemma inject_rbac_at_rest s :
  inject_rbac (fix_rbac_context_repo s) = fix_rbac_context_repo s.
Proof.
  rewrite fix_rbac_context_repo_rewrite.
  apply guard_at_rest;
    [apply inject_rbac_present | apply inject_rbac_marker
    |apply rbac_rewrite_marker].
Qed.

(** X1: the import declarations behind fix_calendar_repo.py,
    fix_role_assignment_repo.py and fix_rbac_context_repo.py.  Where the
    marker [InfrastructureException] occurs in the text read, the guard
    is skipped and the text written holds the declaration as often as the
    text read; where it does not occur, the text written holds one
    declaration for each occurrence of the anchor line of the script,
    whatever else the script rewrites. *)
Theorem import_count_behind_guard (content : list N) :
  occurrences import_decl (fix_calendar_repo content)
  = (if contains marker content then occurrences import_decl content
     else occurrences calendar_anchor content) /\
  occurrences import_decl (fix_role_assignment_repo content)
  = (if contains marker content then occurrences import_decl content
     else occurrences business_anchor content) /\
  occurrences import_decl (fix_rbac_context_repo content)
  = (if contains marker content then occurrences import_decl content
     else occurrences rbac_anchor content).
Proof.
  split_and!.
  - unfold fix_calendar_repo. rewrite occurrences_import_patterns by done.
    apply inject_calendar_count.
  - unfold fix_role_assignment_repo.
    rewrite occurrences_import_patterns by apply sector_in_calendar.
    apply inject_business_count_cases.
  - rewrite fix_rbac_context_repo_rewrite, rbac_rewrite_import.
    apply inject_rbac_count.
Qed.

(** X2: a second run inserts no import.  The guard of each script, applied
    to the text that the script has written, leaves it as it is, and the
    text written by a second run holds the import declaration as often
    as the text written by the first. *)
Theorem second_run_inserts_no_import (s : list N) :
  (inject_business (fix_business_repo s) = fix_business_repo s /\
   inject_sector (fix_business_sector_repo s) = fix_business_sector_repo s /\
   inject_calendar (fix_calendar_repo s) = fix_calendar_repo s /\
   inject_business (fix_role_assignment_repo s) = fix_role_assignment_repo s /\
   inject_rbac (fix_rbac_context_repo s) = fix_rbac_context_repo s) /\
  (occurrences import_decl (fix_business_repo (fix_business_repo s))
   = occurrences import_decl (fix_business_repo s) /\
   occurrences import_decl (fix_business_sector_repo (fix_business_sector_repo s))
   = occurrences import_decl (fix_business_sector_repo s) /\
   occurrences import_decl (fix_calendar_repo (fix_calendar_repo s))
   = occurrences import_decl (fix_calendar_repo s) /\
   occurrences import_decl (fix_role_assignment_repo (fix_role_assignment_repo s))
   = occurrences import_decl (fix_role_assignment_repo s) /\
   occurrences import_decl (fix_rbac_context_repo (fix_rbac_context_repo s))
   = occurrences import_decl (fix_rbac_context_repo s)).
Proof.
  split; split_and!.
  - apply inject_business_at_rest.
  - apply inject_sector_at_rest.
  - apply inject_calendar_at_rest.
  - apply inject_role_at_rest.
  - apply inject_rbac_at_rest.
  - rewrite (fix_business_repo_rewrite (fix_business_repo s)).
    by rewrite business_rewrite_import, inject_business_at_rest.
  - unfold fix_business_sector_repo at 1.
    rewrite occurrences_import_patterns by apply sector_in_calendar.
    by rewrite inject_sector_at_rest.
  - unfold fix_calendar_repo at 1.
    rewrite occurrences_import_patterns by done.
    by rewrite inject_calendar_at_rest.
  - unfold fix_role_assignment_repo at 1.
    rewrite occurrences_import_patterns by apply sector_in_calendar.
    by rewrite inject_role_at_rest.
  - rewrite (fix_rbac_context_repo_rewrite (fix_rbac_context_repo s)).
    by rewrite rbac_rewrite_import, inject_rbac_at_rest.
Qed.

(** ** The guards and the call *)

Lemma sum_list_insert (f : list N -> nat) pre line x post :
  sum_list (map f (pre ++ line :: x :: post))
  = sum_list (map f (pre ++ line :: post)) + f x.
Proof.
  rewrite !map_app, !sum_list_app. cbn [map sum_list sum_list_with]. unfold id. lia.
Qed.

(** The guard of fix_business_sector_repo.py neither makes nor breaks an
    occurrence of a text of one line that the declaration does not
    hold. *)
Lemma occurrences_inject_sector p s :
  p <> [] -> nl ∉ p -> occurrences p import_decl = 0 ->
  occurrences p (inject_sector s) = occurrences p s.
Proof.
  intros Hp Hnl H0.
  destruct (inject_sector_cases s) as [-> | (pre & line & post & Hs & ->)]; [done|].
  rewrite <- (join_split_nl s) at 1. rewrite Hs.
  rewrite !occurrences_join by done. rewrite sum_list_insert. lia.
Qed.

Lemma inject_sector_no_call s :
  contains throw_error s = false -> contains throw_error (inject_sector s) = false.
Proof.
  rewrite !contains_false_occurrences. intros H.
  rewrite occurrences_inject_sector; [done | done | | done].
  apply (bool_decide_unpack _). by vm_compute.
Qed.

Lemma inject_business_no_call s :
  contains throw_error s = false -> contains throw_error (inject_business s) = false.
Proof.
  intros H. unfold inject_business. destruct (contains marker s); [done|].
  by rewrite apart_contains.
Qed.

Lemma inject_calendar_no_call s :
  contains throw_error s = false -> contains throw_error (inject_calendar s) = false.
Proof.
  intros H. unfold inject_calendar. destruct (contains marker s); [done|].
  by rewrite apart_contains.
Qed.

(** X3: a file without [throw new Error(].  The scripts with regular
    expressions change such a file by their import guard only, and when
    the marker [InfrastructureException] occurs in it as well they write
    it back as it is. *)
Theorem without_call_only_the_guard (content : list N) :
  contains throw_error content = false ->
  (fix_business_sector_repo content = inject_sector content /\
   fix_calendar_repo content = inject_calendar content /\
   fix_role_assignment_repo content = inject_business content) /\
  (contains marker content = true ->
   fix_business_sector_repo content = content /\
   fix_calendar_repo content = content /\
   fix_role_assignment_repo content = content).
Proof.
  intros H.
  assert (fix_business_sector_repo content = inject_sector content) as H1
    by by apply apply_patterns_absent, inject_sector_no_call.
  assert (fix_calendar_repo content = inject_calendar content) as H2
    by by apply apply_patterns_absent, inject_calendar_no_call.
  assert (fix_role_assignment_repo content = inject_business content) as H3
    by by apply apply_patterns_absent, inject_business_no_call.
  split; [done|]. intros Hm. rewrite H1, H2, H3.
  by rewrite inject_sector_present, inject_calendar_present, inject_business_present.
Qed.

(** An instance of X3: a file that has been migrated by hand. *)
Lemma without_call_migrated_file :
  (fix_business_sector_repo migrated_file = inject_sector migrated_file /\
   fix_calendar_repo migrated_file = inject_calendar migrated_file /\
   fix_role_assignment_repo migrated_file = inject_business migrated_file) /\
  fix_business_sector_repo migrated_file = migrated_file /\
   fix_calendar_repo migrated_file = migrated_file /\
   fix_role_assignment_repo migrated_file = migrated_file.
Proof.
  destruct (without_call_only_the_guard migrated_file) as [H1 H2]; [by vm_compute|].
  split; [exact H1|]. apply H2. by vm_compute.
Defined.

(** X4: the second run of a script with regular expressions.  When the
    text written by the first run holds no [throw new Error(], the second
    run writes the same text.  Without that condition it need not: a
    message that itself holds [throw new Error(] is rewritten by the
    first run into a text that the patterns match again. *)
Theorem second_run_of_patterns :
  (forall s, contains throw_error (fix_business_sector_repo s) = false ->
     fix_business_sector_repo (fix_business_sector_repo s) = fix_business_sector_repo s) /\
  (forall s, contains throw_error (fix_calendar_repo s) = false ->
     fix_calendar_repo (fix_calendar_repo s) = fix_calendar_repo s) /\
  (forall s, contains throw_error (fix_role_assignment_repo s) = false ->
     fix_role_assignment_repo (fix_role_assignment_repo s) = fix_role_assignment_repo s) /\
  (exists s, fix_business_sector_repo (fix_business_sector_repo s)
             <> fix_business_sector_repo s) /\
  (exists s, fix_calendar_repo (fix_calendar_repo s) <> fix_calendar_repo s) /\
  (exists s, fix_role_assignment_repo (fix_role_assignment_repo s)
             <> fix_role_assignment_repo s).
Proof.
  split_and!.
  - intros s H. unfold fix_business_sector_repo at 1.
    rewrite inject_sector_at_rest. by apply apply_patterns_absent.
  - intros s H. unfold fix_calendar_repo at 1.
    rewrite inject_calendar_at_rest. by apply apply_patterns_absent.
  - intros s H. unfold fix_role_assignment_repo at 1.
    rewrite inject_role_at_rest. by apply apply_patterns_absent.
  - exists nested_sample. apply (bool_decide_unpack _). by vm_compute.
  - exists nested_spaced_sample. apply (bool_decide_unpack _). by vm_compute.
  - exists nested_sample. apply (bool_decide_unpack _). by vm_compute.
Qed.

(** An instance of X4: a file with one statement of each kind. *)
Lemma second_run_of_patterns_sample :
  fix_business_sector_repo (fix_business_sector_repo three_statements)
  = fix_business_sector_repo three_statements /\
  fix_calendar_repo (fix_calendar_repo three_statements)
  = fix_calendar_repo three_statements /\
  fix_role_assignment_repo (fix_role_assignment_repo three_statements)
  = fix_role_assignment_repo three_statements.
Proof.
  destruct second_run_of_patterns as (H1 & H2 & H3 & _).
  split_and!; [apply H1 | apply H2 | apply H3]; by vm_compute.
Defined.

(** ** fix_rbac_context_repo.py *)

Lemma str_replace_kept_apart old new stmt a b :
  old <> [] -> apart old stmt = true ->
  str_replace old new (a ++ stmt ++ b)
  = str_replace old new a ++ stmt ++ str_replace old new b.
Proof.
  intros Ho [H1 H2]%andb_true_iff. apply str_replace_kept; [done | |].
  - intros x r Hx Hlen. apply no_reach_into_spec; [done | | done].
    destruct x; [done | simpl; lia].
  - by apply quiet_inside.
Qed.

Lemma str_replace_kept_head old new stmt b :
  old <> [] -> apart old stmt = true ->
  str_replace old new (stmt ++ b) = stmt ++ str_replace old new b.
Proof.
  intros Ho H. apply (str_replace_kept_apart old new stmt [] b Ho H).
Qed.

Lemma rbac_fold_kept stmt es x y :
  forallb (fun e => apart (rbac_pattern e) stmt) es = true ->
  rbac_fold es (x ++ stmt ++ y) = rbac_fold es x ++ stmt ++ rbac_fold es y.
Proof.
  revert x y. induction es as [|e es IH]; intros x y H; [done|].
  cbn [forallb fold_left] in *. apply andb_true_iff in H as [H1 H].
  rewrite <- IH by done. f_equal. rewrite !rbac_replace_eq.
  apply str_replace_kept_apart; [apply rbac_entry_nonempty | done].
Qed.

(** The replacement of an entry rewrites its call wherever it stands; the
    replacements before it and behind it leave the call alone. *)
Lemma rbac_fold_rewrites es1 e es2 x y :
  forallb (fun e' => apart (rbac_pattern e') (rbac_pattern e)) es1 = true ->
  unbordered (rbac_pattern e) = true ->
  forallb (fun e' => apart (rbac_pattern e') (rbac_replacement e)) es2 = true ->
  rbac_fold (es1 ++ e :: es2) (x ++ rbac_pattern e ++ y)
  = rbac_fold (es1 ++ e :: es2) x ++ rbac_replacement e
    ++ rbac_fold (es1 ++ e :: es2) y.
Proof.
  intros H1 Hu H2. rewrite !fold_left_app. cbn [fold_left].
  rewrite rbac_fold_kept by done. rewrite !rbac_replace_eq.
  rewrite str_replace_around by (apply rbac_entry_nonempty || done).
  by rewrite rbac_fold_kept.
Qed.

(** After the replacement of an entry its call occurs nowhere, and the
    replacements behind it do not bring it back. *)
Lemma rbac_fold_removes es1 e es2 s :
  apart (rbac_pattern e) (rbac_replacement e) = true ->
  forallb (fun e' => apart (rbac_pattern e) (rbac_pattern e')
                     && apart (rbac_pattern e) (rbac_replacement e')) es2 = true ->
  occurrences (rbac_pattern e) (rbac_fold (es1 ++ e :: es2) s) = 0.
Proof.
  intros H1 H2. rewrite fold_left_app. cbn [fold_left].
  rewrite rbac_fold_occurrences by done. rewrite rbac_replace_eq.
  apply str_replace_removes; [apply rbac_entry_nonempty | done].
Qed.

Lemma rbac_fold_absent es s :
  (forall e, e ∈ es -> contains (rbac_pattern e) s = false) -> rbac_fold es s = s.
Proof.
  induction es as [|e es IH]; intros H; [done|]. cbn [fold_left].
  rewrite rbac_replace_eq, str_replace_absent by (apply H; by left).
  apply IH. intros e' He'. apply H. by right.
Qed.

Ltac rbac_entries H :=
  apply list_elem_of_In in H; cbn [In rbac_table] in H;
  destruct H as [<- | [<- | [<- | [<- | [<- | [<- | []]]]]]].

Lemma rbac_rewrite_no_call s : contains throw_error (rbac_rewrite s) = false.
Proof.
  apply contains_false_occurrences. unfold rbac_rewrite.
  rewrite rbac_fold_occurrences by by vm_compute.
  apply str_replace_removes; [done | apply apart_error_infra].
Qed.

Lemma rbac_rewrite_no_pattern e s :
  e ∈ rbac_table -> contains (rbac_pattern e) (rbac_rewrite s) = false.
Proof.
  intros He. apply contains_false_occurrences. unfold rbac_rewrite.
  rbac_entries He.
  - apply (rbac_fold_removes [] _ (tail rbac_table)); by vm_compute.
  - apply (rbac_fold_removes (take 1 rbac_table) _ (drop 2 rbac_table)); by vm_compute.
  - apply (rbac_fold_removes (take 2 rbac_table) _ (drop 3 rbac_table)); by vm_compute.
  - apply (rbac_fold_removes (take 3 rbac_table) _ (drop 4 rbac_table)); by vm_compute.
  - apply (rbac_fold_removes (take 4 rbac_table) _ (drop 5 rbac_table)); by vm_compute.
  - apply (rbac_fold_removes (take 5 rbac_table) _ (drop 6 rbac_table)); by vm_compute.
Qed.

Lemma rbac_rewrite_fixed s :
  contains throw_error s = false ->
  (forall e, e ∈ rbac_table -> contains (rbac_pattern e) s = false) ->
  rbac_rewrite s = s.
Proof.
  intros H1 H2. unfold rbac_rewrite, rename_throw.
  rewrite str_replace_absent by done. by apply rbac_fold_absent.
Qed.

Lemma rbac_fold_pattern e x y :
  e ∈ rbac_table ->
  rbac_fold rbac_table (x ++ rbac_pattern e ++ y)
  = rbac_fold rbac_table x ++ rbac_replacement e ++ rbac_fold rbac_table y.
Proof.
  intros He. rbac_entries He.
  - apply (rbac_fold_rewrites [] _ (tail rbac_table)); by vm_compute.
  - apply (rbac_fold_rewrites (take 1 rbac_table) _ (drop 2 rbac_table)); by vm_compute.
  - apply (rbac_fold_rewrites (take 2 rbac_table) _ (drop 3 rbac_table)); by vm_compute.
  - apply (rbac_fold_rewrites (take 3 rbac_table) _ (drop 4 rbac_table)); by vm_compute.
  - apply (rbac_fold_rewrites (take 4 rbac_table) _ (drop 5 rbac_table)); by vm_compute.
  - apply (rbac_fold_rewrites (take 5 rbac_table) _ (drop 6 rbac_table)); by vm_compute.
Qed.

Lemma rbac_rewrite_pattern e a b :
  e ∈ rbac_table ->
  rbac_rewrite (a ++ rbac_pattern e ++ b)
  = rbac_rewrite a ++ rbac_replacement e ++ rbac_rewrite b.
Proof.
  intros He. unfold rbac_rewrite, rename_throw.
  rewrite (str_replace_kept_apart throw_error)
    by (done || (rbac_entries He; by vm_compute)).
  by apply rbac_fold_pattern.
Qed.

Lemma translate_call_args key : translate_call key = throw_infra ++ translate_args key.
Proof. unfold translate_call, translate_args. by rewrite !app_assoc. Qed.

Lemma rename_source_call e a b :
  e ∈ rbac_table ->
  rename_throw (a ++ rbac_source_call e ++ b)
  = rename_throw a ++ rbac_pattern e ++ rename_throw b.
Proof.
  intros He. unfold rbac_source_call, rbac_pattern, rename_throw.
  rewrite translate_call_args. rewrite <- !app_assoc.
  rewrite str_replace_around by (done || apply unbordered_throw_error).
  do 2 f_equal. rewrite !(app_assoc (translate_args (fst e))).
  apply str_replace_kept_head; [done|]. rbac_entries He; by vm_compute.
Qed.

Lemma rbac_rewrite_source e a b :
  e ∈ rbac_table ->
  rbac_rewrite (a ++ rbac_source_call e ++ b)
  = rbac_rewrite a ++ rbac_replacement e ++ rbac_rewrite b.
Proof.
  intros He. unfold rbac_rewrite. rewrite rename_source_call by done.
  by apply rbac_fold_pattern.
Qed.

Lemma rbac_second_run_fixed s :
  fix_rbac_context_repo (fix_rbac_context_repo s) = fix_rbac_context_repo s.
Proof.
  rewrite (fix_rbac_context_repo_rewrite (fix_rbac_context_repo s)).
  rewrite inject_rbac_at_rest. rewrite fix_rbac_context_repo_rewrite.
  apply rbac_rewrite_fixed; [apply rbac_rewrite_no_call|].
  intros e He. by apply rbac_rewrite_no_pattern.
Qed.

(** X5: what fix_rbac_context_repo.py leaves behind.  Whatever the file,
    the text written holds no [throw new Error(] and, for each of the
    six translation keys of the script, no call with the translated
    message as its only argument. *)
Theorem rbac_output_has_no_listed_call (s : list N) (e : string * string) :
  e ∈ rbac_table ->
  contains throw_error (fix_rbac_context_repo s) = false /\
  contains (rbac_pattern e) (fix_rbac_context_repo s) = false /\
  contains (rbac_source_call e) (fix_rbac_context_repo s) = false.
Proof.
  intros He. rewrite fix_rbac_context_repo_rewrite.
  pose proof (rbac_rewrite_no_call (inject_rbac s)) as H.
  split_and!; [done | by apply rbac_rewrite_no_pattern |].
  apply not_true_iff_false. intros E.
  rewrite (contains_trans throw_error (rbac_source_call e)) in H; [done | | done].
  unfold rbac_source_call. apply starts_with_contains, starts_with_app.
Qed.

(** An instance of X5: a file with two of the calls. *)
Lemma rbac_output_of_two_calls :
  contains throw_error (fix_rbac_context_repo rbac_sample) = false /\
  contains (rbac_pattern ("findError", "RBAC_FIND_ERROR")%string)
    (fix_rbac_context_repo rbac_sample) = false /\
  contains (rbac_source_call ("findError", "RBAC_FIND_ERROR")%string)
    (fix_rbac_context_repo rbac_sample) = false.
Proof.
  apply (rbac_output_has_no_listed_call rbac_sample).
  apply list_elem_of_In. simpl. tauto.
Defined.

(** X6: fix_rbac_context_repo.py is at rest on its own output: run on the
    text that it has written, it writes the same text, whatever the file
    was. *)
Theorem rbac_second_run_changes_nothing (s : list N) :
  fix_rbac_context_repo (fix_rbac_context_repo s) = fix_rbac_context_repo s.
Proof.
  apply rbac_second_run_fixed.
Qed.

(** X7: a call of one of the six translation keys gets the code of its
    key wherever it stands.  Behind the import guard the script rewrites
    the call, renamed or not, into the call with two arguments, and
    rewrites the text before it and the text behind it on their own;
    the guard itself passes over the call. *)
Theorem rbac_listed_call_gets_its_code (e : string * string) (a b : list N) :
  e ∈ rbac_table ->
  rbac_rewrite (a ++ rbac_source_call e ++ b)
  = rbac_rewrite a ++ rbac_replacement e ++ rbac_rewrite b /\
  rbac_rewrite (a ++ rbac_pattern e ++ b)
  = rbac_rewrite a ++ rbac_replacement e ++ rbac_rewrite b /\
  fix_rbac_context_repo (a ++ rbac_pattern e ++ b)
  = rbac_rewrite a ++ rbac_replacement e ++ rbac_rewrite b /\
  fix_rbac_context_repo (a ++ rbac_source_call e ++ b)
  = (if contains marker (a ++ rbac_source_call e ++ b)
     then rbac_rewrite a ++ rbac_replacement e ++ rbac_rewrite b
     else fix_rbac_context_repo a ++ rbac_replacement e ++ fix_rbac_context_repo b).
Proof.
  intros He.
  split_and!; [by apply rbac_rewrite_source | by apply rbac_rewrite_pattern | |].
  - rewrite fix_rbac_context_repo_rewrite, inject_rbac_present;
      [by apply rbac_rewrite_pattern|].
    apply contains_app_r, contains_app_l. unfold rbac_pattern, translate_call.
    rewrite <- !app_assoc. apply contains_app_l. by vm_compute.
  - rewrite fix_rbac_context_repo_rewrite.
    destruct (contains marker (a ++ rbac_source_call e ++ b)) eqn:E.
    + rewrite inject_rbac_present by done. by apply rbac_rewrite_source.
    + assert (contains marker a = false) as Ha by by apply contains_false_app_l in E.
      assert (contains marker b = false) as Hb.
      { apply not_true_iff_false. intros Hb.
        rewrite contains_app_r in E; [done|]. by apply contains_app_r. }
      rewrite !fix_rbac_context_repo_rewrite. unfold inject_rbac. rewrite E, Ha, Hb.
      rewrite str_replace_kept_apart;
        [by apply rbac_rewrite_source | done |].
      unfold rbac_source_call. rbac_entries He; by vm_compute.
Qed.

(** An instance of X7: the call for [saveError] between two comments. *)
Lemma rbac_save_error_call :
  let source :=
    lit "throw new Error(this.i18n.translate('rbac.businessContext.saveError'));" in
  let result :=
    lit "throw new InfrastructureException(this.i18n.translate('rbac.businessContext.saveError'), 'RBAC_SAVE_ERROR');" in
  rbac_rewrite (lit "// a" ++ source ++ lit "// b")
  = rbac_rewrite (lit "// a") ++ result ++ rbac_rewrite (lit "// b") /\
  fix_rbac_context_repo (lit "// a" ++ source ++ lit "// b")
  = fix_rbac_context_repo (lit "// a") ++ result ++ fix_rbac_context_repo (lit "// b").
Proof.
  destruct (rbac_listed_call_gets_its_code ("saveError", "RBAC_SAVE_ERROR")%string
              (lit "// a") (lit "// b")) as (H1 & _ & _ & H2).
  { apply list_elem_of_In. simpl. tauto. }
  split; [exact H1 | exact H2].
Defined.

(** ** Statements that the patterns pass over *)

Lemma quiet_no_head p a x :
  head p = Some a -> Forall (fun c => c <> a) x -> quiet p x.
Proof.
  intros Hp H. induction H as [|c x Hc _ IH]; [apply quiet_nil|].
  by apply (quiet_cons _ a).
Qed.

Lemma quiet_all_space w : all_space w = true -> quiet throw_error w.
Proof.
  intros H. apply (quiet_no_head _ 116%N); [done|]. by apply all_space_heads.
Qed.

(** A delimited message, whatever its length, and what follows it as far
    as no call can begin there. *)
Lemma quiet_message q m x :
  q ∈ delimiters -> contains throw_error m = false -> quiet throw_error x ->
  quiet throw_error (q :: m ++ q :: x).
Proof.
  intros Hq Hm Hx. destruct (delimiter_facts _ Hq) as (_ & Ht & Hin).
  apply (quiet_cons _ 116%N); [done..|]. apply quiet_payload; [done..|].
  by apply (quiet_cons _ 116%N).
Qed.

(** A pattern copies a call at which it does not match, up to the point
    where the next call may begin. *)
Lemma re_sub_pass r a x b :
  contains throw_error a = false -> quiet throw_error x ->
  rule_matcher r (throw_error ++ x ++ b) = None ->
  re_sub r (a ++ (throw_error ++ x) ++ b) = a ++ (throw_error ++ x) ++ re_sub r b.
Proof.
  intros Ha Hx Hnone. rewrite re_sub_copy.
  - f_equal. rewrite <- app_assoc.
    change (throw_error ++ ?t) with (116%N :: (lit "hrow new Error(" ++ t)).
    transitivity (116%N :: re_sub r (lit "hrow new Error(" ++ x ++ b)).
    + by apply (scan_none (rule_matcher r)).
    + f_equal. rewrite app_assoc, re_sub_quiet; [by rewrite <- app_assoc|].
      apply quiet_app; [by apply quiet_inside | done].
  - intros i Hi. rewrite <- !app_assoc.
    apply quiet_before; [done | apply unbordered_throw_error | done].
Qed.

Lemma space_not_delimiter w q : is_space w = true -> q ∈ delimiters -> N.eqb w q = false.
Proof.
  intros Hw Hq. destruct (N.eqb_spec w q) as [->|]; [|done].
  destruct (delimiter_facts _ Hq) as (Hs & _). congruence.
Qed.

Lemma strip_prefix_closing_space w s :
  is_space w = true -> strip_prefix (lit ");") (w :: s) = None.
Proof.
  intros Hw. change (lit ");") with [41%N; 59%N]. cbn [strip_prefix].
  destruct (N.eqb_spec 41 w) as [<-|]; [done | done].
Qed.

Lemma strip_prefix_closing_other c s :
  c <> 41%N -> strip_prefix (lit ");") (c :: s) = None.
Proof.
  intros Hc. change (lit ");") with [41%N; 59%N]. cbn [strip_prefix].
  destruct (N.eqb_spec 41 c) as [<-|]; [done | done].
Qed.

(** A pattern without [\s*] does not match where white space stands
    around the literal. *)
Lemma rule_matcher_spaced r ws1 m ws2 b :
  around_ws r = false -> delim r ∈ delimiters ->
  all_space ws1 = true -> all_space ws2 = true -> bt ∉ m ->
  ws1 ++ ws2 <> [] ->
  rule_matcher r (throw_error ++ (ws1 ++ bt :: m ++ bt :: ws2 ++ lit ");") ++ b) = None.
Proof.
  intros Hr Hd H1 H2 Hm Hne. unfold rule_matcher, match_rule.
  rewrite strip_prefix_app, Hr. cbn [skip_ws].
  destruct ws1 as [|w ws1].
  - cbn [app]. destruct (N.eqb_spec bt (delim r)) as [<-|]; [|done].
    rewrite <- app_assoc. cbn [app]. rewrite span_until_app by done.
    destruct m as [|c m]; [done|].
    destruct ws2 as [|w ws2]; [done|].
    cbn [all_space forallb] in H2. apply andb_true_iff in H2 as [Hw _].
    cbn [app]. by rewrite strip_prefix_closing_space.
  - cbn [all_space forallb] in H1. apply andb_true_iff in H1 as [Hw _].
    cbn [app]. by rewrite space_not_delimiter.
Qed.

(** The fourth pattern of fix_calendar_repo.py matches with the white
    space. *)
Lemma rule_matcher_template_spaced ws1 m ws2 b :
  all_space ws1 = true -> all_space ws2 = true -> m <> [] -> bt ∉ m ->
  rule_matcher template_spaced (spaced_stmt ws1 m ws2 ++ b)
  = Some (stmt_out bt m, length (spaced_stmt ws1 m ws2)).
Proof.
  intros H1 H2 Hm Hb. unfold rule_matcher, match_rule, spaced_stmt.
  rewrite <- app_assoc, strip_prefix_app. cbn [skip_ws around_ws template_spaced].
  rewrite <- app_assoc, lstrip_all_space by done. cbn [app].
  rewrite lstrip_nonspace by done. cbn [delim]. rewrite N.eqb_refl.
  rewrite <- app_assoc. cbn [app]. rewrite span_until_app by done.
  destruct m as [|c m]; [done|].
  rewrite <- app_assoc, lstrip_all_space by done.
  change (lstrip (lit ");" ++ b)) with (lit ");" ++ b).
  rewrite strip_prefix_app. do 2 f_equal.
  repeat first [rewrite length_app | rewrite length_cons]. lia.
Qed.

Lemma quiet_spaced ws1 m ws2 :
  all_space ws1 = true -> all_space ws2 = true -> contains throw_error m = false ->
  quiet throw_error (ws1 ++ bt :: m ++ bt :: ws2 ++ lit ");").
Proof.
  intros H1 H2 Hm. apply quiet_app; [by apply quiet_all_space|].
  apply quiet_message; [apply (bool_decide_unpack _); by vm_compute | done |].
  apply quiet_app; [by apply quiet_all_space|].
  apply (quiet_no_head _ 116%N); [done|]. by repeat constructor.
Qed.

Lemma re_sub_pass_spaced r a ws1 m ws2 b :
  around_ws r = false -> delim r ∈ delimiters ->
  all_space ws1 = true -> all_space ws2 = true -> bt ∉ m ->
  ws1 ++ ws2 <> [] ->
  contains throw_error a = false -> contains throw_error m = false ->
  re_sub r (a ++ spaced_stmt ws1 m ws2 ++ b)
  = a ++ spaced_stmt ws1 m ws2 ++ re_sub r b.
Proof.
  intros. unfold spaced_stmt. apply re_sub_pass; [done | by apply quiet_spaced|].
  by apply rule_matcher_spaced.
Qed.

Lemma re_sub_template_spaced a ws1 m ws2 b :
  all_space ws1 = true -> all_space ws2 = true -> m <> [] -> bt ∉ m ->
  contains throw_error a = false ->
  re_sub template_spaced (a ++ spaced_stmt ws1 m ws2 ++ b)
  = a ++ stmt_out bt m ++ re_sub template_spaced b.
Proof.
  intros H1 H2 Hm Hb Ha. rewrite re_sub_copy.
  - f_equal. unfold re_sub.
    rewrite (scan_some _ _ _ _ (rule_matcher_template_spaced ws1 m ws2 b H1 H2 Hm Hb)).
    + by rewrite drop_app_length.
    + unfold spaced_stmt. rewrite length_app. simpl. lia.
    + unfold spaced_stmt. by rewrite <- app_assoc.
  - intros i Hi. unfold spaced_stmt. rewrite <- !app_assoc.
    apply quiet_before; [done | apply unbordered_throw_error | done].
Qed.

Lemma apply_patterns_app rs1 rs2 s :
  apply_patterns (rs1 ++ rs2) s = apply_patterns rs2 (apply_patterns rs1 s).
Proof. apply fold_left_app. Qed.

Lemma sector_patterns_plain :
  Forall (fun r => around_ws r = false /\ delim r ∈ delimiters) sector_patterns.
Proof.
  repeat constructor; apply (bool_decide_unpack _); by vm_compute.
Qed.

Lemma apply_patterns_pass_spaced rs a ws1 m ws2 b :
  Forall (fun r => around_ws r = false /\ delim r ∈ delimiters) rs ->
  all_space ws1 = true -> all_space ws2 = true -> bt ∉ m ->
  ws1 ++ ws2 <> [] ->
  contains throw_error a = false -> contains throw_error m = false ->
  apply_patterns rs (a ++ spaced_stmt ws1 m ws2 ++ b)
  = a ++ spaced_stmt ws1 m ws2 ++ apply_patterns rs b.
Proof.
  intros Hrs H1 H2 Hb Hne Ha Hm. revert b.
  induction Hrs as [|r rs [Hr Hd] _ IH]; intros b; [done|].
  change (apply_patterns (r :: rs) ?c) with (apply_patterns rs (re_sub r c)).
  by rewrite re_sub_pass_spaced, IH.
Qed.

(** No pattern matches at a call whose message is empty. *)
Lemma rule_matcher_empty r q x b :
  q ∈ delimiters -> rule_matcher r (throw_error ++ (q :: q :: x) ++ b) = None.
Proof.
  intros Hq. destruct (delimiter_facts _ Hq) as (Hs & _).
  unfold rule_matcher, match_rule. rewrite strip_prefix_app. cbn [app].
  rewrite skip_ws_nonspace by done.
  destruct (N.eqb_spec q (delim r)) as [<-|]; [|done].
  cbn [span_until]. by rewrite N.eqb_refl.
Qed.

Lemma apply_patterns_pass_empty rs q a b :
  q ∈ delimiters -> contains throw_error a = false ->
  apply_patterns rs (a ++ stmt_in q [] ++ b)
  = a ++ stmt_in q [] ++ apply_patterns rs b.
Proof.
  intros Hq Ha. revert b. induction rs as [|r rs IH]; intros b; [done|].
  change (apply_patterns (r :: rs) ?c) with (apply_patterns rs (re_sub r c)).
  unfold stmt_in in *. cbn [app] in *.
  rewrite re_sub_pass, IH; [done.. | | by apply rule_matcher_empty].
  destruct (delimiter_facts _ Hq) as (_ & Ht & _).
  apply (quiet_no_head _ 116%N); [done|]. by repeat constructor.
Qed.

(** No pattern matches at a call whose argument list goes on behind the
    message. *)
Lemma rule_matcher_open r q m ws c b :
  q ∈ delimiters -> q ∉ m -> all_space ws = true ->
  is_space c = false -> c <> 41%N ->
  rule_matcher r (throw_error ++ (q :: m ++ q :: ws) ++ c :: b) = None.
Proof.
  intros Hq Hm Hws Hc Hp. destruct (delimiter_facts _ Hq) as (Hs & _).
  unfold rule_matcher, match_rule. rewrite strip_prefix_app. cbn [app].
  rewrite skip_ws_nonspace by done.
  destruct (N.eqb_spec q (delim r)) as [<-|]; [|done].
  rewrite <- app_assoc. cbn [app]. rewrite span_until_app by done.
  destruct m as [|c' m]; [done|].
  assert (strip_prefix (lit ");") (skip_ws (around_ws r) (ws ++ c :: b)) = None) as ->;
    [|done].
  destruct (around_ws r); cbn [skip_ws].
  - rewrite lstrip_all_space, lstrip_nonspace by done.
    by apply strip_prefix_closing_other.
  - destruct ws as [|w ws]; cbn [app].
    + by apply strip_prefix_closing_other.
    + cbn [all_space forallb] in Hws. apply andb_true_iff in Hws as [Hw _].
      by apply strip_prefix_closing_space.
Qed.

(** What a pattern writes begins with the character that the text begins
    with. *)
Lemma re_sub_head r c b : exists b', re_sub r (c :: b) = c :: b'.
Proof.
  destruct (rule_matcher r (c :: b)) as [[out len]|] eqn:E.
  - pose proof (rule_matcher_len _ _ _ _ E) as [Hl _].
    unfold re_sub. rewrite (scan_some _ _ _ _ E) by done.
    apply rule_matcher_Some in E as (ws1 & m & ws2 & rest & Hs & _ & -> & _).
    injection Hs as -> _. eexists. unfold stmt_out. by cbn [app throw_infra].
  - unfold re_sub. rewrite scan_none by done. eauto.
Qed.

Lemma apply_patterns_pass_open rs q a m ws c b :
  q ∈ delimiters -> q ∉ m -> all_space ws = true ->
  is_space c = false -> c <> 41%N ->
  contains throw_error a = false -> contains throw_error m = false ->
  apply_patterns rs (a ++ open_call q m ws ++ c :: b)
  = a ++ open_call q m ws ++ apply_patterns rs (c :: b).
Proof.
  intros Hq Hm Hws Hc Hp Ha Hpm. revert b.
  induction rs as [|r rs IH]; intros b; [done|].
  change (apply_patterns (r :: rs) ?t) with (apply_patterns rs (re_sub r t)).
  unfold open_call.
  rewrite re_sub_pass; [|done| |by apply rule_matcher_open].
  - destruct (re_sub_head r c b) as [b' ->]. apply IH.
  - apply quiet_message; [done.. |]. by apply quiet_all_space.
Qed.

(** X8: a template-literal statement with white space around the
    literal, such as a statement spread over three lines.
    fix_calendar_repo.py rewrites it into the call on one line, without
    the white space; the patterns of fix_business_sector_repo.py and
    fix_role_assignment_repo.py, which have no [\s*], leave it as it
    is. *)
Theorem spaced_template_statement (a ws1 m ws2 b : list N) :
  all_space ws1 = true -> all_space ws2 = true -> m <> [] -> bt ∉ m ->
  contains throw_error a = false -> contains throw_error m = false ->
  apply_patterns calendar_patterns (a ++ spaced_stmt ws1 m ws2 ++ b)
  = a ++ (throw_infra ++ bt :: m ++ bt ::
          lit ", " ++ dq :: lit "INFRASTRUCTURE_ERROR" ++ dq :: lit ");")
      ++ apply_patterns calendar_patterns b /\
  (ws1 ++ ws2 <> [] ->
   apply_patterns sector_patterns (a ++ spaced_stmt ws1 m ws2 ++ b)
   = a ++ spaced_stmt ws1 m ws2 ++ apply_patterns sector_patterns b).
Proof.
  intros H1 H2 Hm Hb Ha Hpm. split.
  - destruct (decide (ws1 ++ ws2 = [])) as [[-> ->]%app_eq_nil | Hne].
    + apply (patterns_rewrite calendar_patterns template); try done.
      * apply calendar_patterns_ok.
      * apply list_elem_of_In. simpl. tauto.
      * intros r' Hf. vm_compute in Hf. by injection Hf as <-.
    + change calendar_patterns with (sector_patterns ++ [template_spaced]).
      rewrite !apply_patterns_app.
      rewrite apply_patterns_pass_spaced by (done || apply sector_patterns_plain).
      apply re_sub_template_spaced; done.
  - intros Hne. apply apply_patterns_pass_spaced; try done.
    apply sector_patterns_plain.
Qed.

(** An instance of X8: the statement over three lines. *)
Lemma spaced_template_over_three_lines :
  apply_patterns calendar_patterns
    (lit "// save" ++ spaced_stmt (nl :: lit "  ") (lit "boom") [nl] ++ [nl])
  = lit "// save" ++ (throw_infra ++ bt :: lit "boom" ++ bt ::
      lit ", " ++ dq :: lit "INFRASTRUCTURE_ERROR" ++ dq :: lit ");")
    ++ apply_patterns calendar_patterns [nl] /\
  apply_patterns sector_patterns
    (lit "// save" ++ spaced_stmt (nl :: lit "  ") (lit "boom") [nl] ++ [nl])
  = lit "// save" ++ spaced_stmt (nl :: lit "  ") (lit "boom") [nl]
    ++ apply_patterns sector_patterns [nl].
Proof.
  destruct (spaced_template_statement (lit "// save") (nl :: lit "  ") (lit "boom")
              [nl] [nl]) as [H1 H2];
    [by vm_compute | by vm_compute | done | apply (bool_decide_unpack _); by vm_compute
    |by vm_compute | by vm_compute |].
  split; [exact H1 | by apply H2].
Defined.

(** X9: a call with an empty message, [throw new Error('');] with any
    of the three delimiters, is never rewritten: every pattern asks for at
    least one character between the delimiters.  The call is copied and
    the text behind it is rewritten on its own. *)
Theorem empty_message_is_kept (q : N) (a b : list N) :
  q ∈ delimiters -> contains throw_error a = false ->
  apply_patterns sector_patterns (a ++ stmt_in q [] ++ b)
  = a ++ (throw_error ++ q :: q :: lit ");") ++ apply_patterns sector_patterns b /\
  apply_patterns calendar_patterns (a ++ stmt_in q [] ++ b)
  = a ++ (throw_error ++ q :: q :: lit ");") ++ apply_patterns calendar_patterns b.
Proof.
  intros Hq Ha. split; by apply apply_patterns_pass_empty.
Qed.

(** An instance of X9: the empty message between single quotes. *)
Lemma empty_single_quoted_message :
  apply_patterns sector_patterns (lit "// save" ++ stmt_in sq [] ++ [nl])
  = lit "// save" ++ lit "throw new Error('');" ++ apply_patterns sector_patterns [nl] /\
  apply_patterns calendar_patterns (lit "// save" ++ stmt_in sq [] ++ [nl])
  = lit "// save" ++ lit "throw new Error('');" ++ apply_patterns calendar_patterns [nl].
Proof.
  apply (empty_message_is_kept sq (lit "// save") [nl]);
    [apply (bool_decide_unpack _); by vm_compute | by vm_compute].
Defined.

(** X10: a call whose argument list goes on behind the message, as in
    ['...' + err] or ['...', cause].  When the closing delimiter is
    followed, after white space or none, by a character other than [)],
    no pattern matches at the call: the call and its message are copied
    as they are, and the rest of the text is rewritten on its own. *)
Theorem continued_argument_list_is_kept (q c : N) (a m ws b : list N) :
  q ∈ delimiters -> q ∉ m -> all_space ws = true ->
  is_space c = false -> c <> 41%N ->
  contains throw_error a = false -> contains throw_error m = false ->
  apply_patterns sector_patterns (a ++ open_call q m ws ++ c :: b)
  = a ++ (throw_error ++ q :: m ++ q :: ws) ++ apply_patterns sector_patterns (c :: b) /\
  apply_patterns calendar_patterns (a ++ open_call q m ws ++ c :: b)
  = a ++ (throw_error ++ q :: m ++ q :: ws) ++ apply_patterns calendar_patterns (c :: b).
Proof.
  intros. split; by apply apply_patterns_pass_open.
Qed.

(** An instance of X10: the message followed by [+ err]. *)
Lemma message_plus_err_is_kept :
  apply_patterns sector_patterns
    (lit "// save" ++ open_call sq (lit "Failed: ") (lit " ") ++ lit "+ err);")
  = lit "// save" ++ lit "throw new Error('Failed: ' "
    ++ apply_patterns sector_patterns (lit "+ err);") /\
  apply_patterns calendar_patterns
    (lit "// save" ++ open_call sq (lit "Failed: ") (lit " ") ++ lit "+ err);")
  = lit "// save" ++ lit "throw new Error('Failed: ' "
    ++ apply_patterns calendar_patterns (lit "+ err);").
Proof.
  apply (continued_argument_list_is_kept sq 43%N (lit "// save") (lit "Failed: ")
           (lit " ") (lit " err);"));
    [apply (bool_decide_unpack _); by vm_compute
    |apply (bool_decide_unpack _); by vm_compute
    |by vm_compute | by vm_compute | done | by vm_compute | by vm_compute].
Defined.

(** ** Files made of statements *)

Lemma contains_false_copy p x y :
  (forall i, i < length x -> starts_with p (drop i (x ++ y)) = false) ->
  contains p y = false -> contains p (x ++ y) = false.
Proof.
  intros H Hy. induction x as [|c x IH]; [done|].
  change ((c :: x) ++ y) with (c :: (x ++ y)). rewrite contains_cons.
  pose proof (H 0 ltac:(simpl; lia)) as H0. rewrite drop_0 in H0.
  change ((c :: x) ++ y) with (c :: (x ++ y)) in H0. rewrite H0.
  apply IH. intros i Hi. apply (H (S i)). simpl. lia.
Qed.

Lemma contains_false_quiet p x y :
  quiet p x -> contains p y = false -> contains p (x ++ y) = false.
Proof. intros H. apply contains_false_copy. intros i Hi. by apply H. Qed.

Lemma stmt_out_no_call a q m t :
  q ∈ delimiters ->
  contains throw_error a = false -> contains throw_error m = false ->
  contains throw_error t = false ->
  contains throw_error (a ++ stmt_out q m ++ t) = false.
Proof.
  intros Hq Ha Hm Ht. apply contains_false_copy.
  - intros i Hi. unfold stmt_out. rewrite <- !app_assoc.
    apply quiet_before; [done | by vm_compute | done].
  - apply contains_false_quiet; [|done]. unfold stmt_out.
    apply quiet_app; [by apply quiet_inside|].
    apply quiet_message; [done..|]. by apply quiet_inside.
Qed.

Lemma find_delimiter rs q :
  q ∈ delimiters ->
  (forall r, r ∈ sector_patterns -> r ∈ rs) -> Forall (fun r => r ∈ calendar_patterns) rs ->
  exists r, find (fun r => N.eqb (delim r) q) rs = Some r /\
            out_delim r = written_delim q.
Proof.
  intros Hq Hsub Hall.
  destruct (find (fun r => N.eqb (delim r) q) rs) as [r|] eqn:E.
  - exists r. split; [done|].
    pose proof (find_some _ _ E) as [Hin Hd]. apply N.eqb_eq in Hd. subst q.
    rewrite Forall_forall in Hall. apply list_elem_of_In, Hall in Hin.
    apply list_elem_of_In in Hin. simpl in Hin.
    by destruct Hin as [<- | [<- | [<- | [<- | []]]]].
  - exfalso. delimiter_cases Hq.
    + assert (single_quoted ∈ rs) as Hin
        by (apply Hsub, list_elem_of_In; simpl; tauto).
      apply list_elem_of_In in Hin. by apply (find_none _ _ E) in Hin.
    + assert (double_quoted ∈ rs) as Hin
        by (apply Hsub, list_elem_of_In; simpl; tauto).
      apply list_elem_of_In in Hin. by apply (find_none _ _ E) in Hin.
    + assert (template ∈ rs) as Hin
        by (apply Hsub, list_elem_of_In; simpl; tauto).
      apply list_elem_of_In in Hin. by apply (find_none _ _ E) in Hin.
Qed.

Lemma apply_patterns_statements rs items rest :
  Forall well_delimited rs ->
  (forall r, r ∈ sector_patterns -> r ∈ rs) -> Forall (fun r => r ∈ calendar_patterns) rs ->
  Forall plain_statement items -> contains throw_error rest = false ->
  apply_patterns rs (statements_in items rest) = statements_out items rest.
Proof.
  intros Hrs Hsub Hall Hitems Hrest.
  induction Hitems as [|[[a q] m] items (Hq & Hm & Hqm & Ha & Hpm) _ IH].
  - by apply apply_patterns_absent.
  - cbn [statements_in statements_out foldr].
    rewrite apply_patterns_in by done.
    destruct (find_delimiter rs q Hq Hsub Hall) as (r & -> & ->).
    fold (statements_in items rest). by rewrite IH.
Qed.

Lemma statements_out_no_call items rest :
  Forall plain_statement items -> contains throw_error rest = false ->
  contains throw_error (statements_out items rest) = false.
Proof.
  intros Hitems Hrest.
  induction Hitems as [|[[a q] m] items (Hq & Hm & Hqm & Ha & Hpm) _ IH]; [done|].
  cbn [statements_out foldr]. apply stmt_out_no_call; try done.
  unfold written_delim. delimiter_cases Hq; apply (bool_decide_unpack _); by vm_compute.
Qed.

(** X11: a file made of statements.  When every statement of a file has a
    message that is not empty and does not hold its delimiter, and
    [throw new Error(] occurs nowhere but at the head of the statements,
    the patterns rewrite every statement and nothing else: each call is
    renamed and gets the code, single quotes become double quotes, the
    text between the statements is copied; no [throw new Error(] is
    left.  When the file holds the marker, that is all the three scripts
    do. *)
Theorem file_of_statements (items : list (list N * N * list N)) (rest : list N) :
  Forall plain_statement items -> contains throw_error rest = false ->
  apply_patterns sector_patterns (statements_in items rest)
  = statements_out items rest /\
  apply_patterns calendar_patterns (statements_in items rest)
  = statements_out items rest /\
  contains throw_error (statements_out items rest) = false /\
  (contains marker (statements_in items rest) = true ->
   fix_business_sector_repo (statements_in items rest) = statements_out items rest /\
   fix_calendar_repo (statements_in items rest) = statements_out items rest /\
   fix_role_assignment_repo (statements_in items rest) = statements_out items rest).
Proof.
  intros Hitems Hrest.
  assert (apply_patterns sector_patterns (statements_in items rest)
          = statements_out items rest) as H1.
  { apply apply_patterns_statements; [apply sector_patterns_ok | done | | done..].
    apply Forall_forall. intros r Hr. by apply sector_in_calendar. }
  assert (apply_patterns calendar_patterns (statements_in items rest)
          = statements_out items rest) as H2.
  { apply apply_patterns_statements;
      [apply calendar_patterns_ok | apply sector_in_calendar | | done..].
    by apply Forall_forall. }
  split_and!; [done | done | by apply statements_out_no_call |].
  intros Hm. unfold fix_business_sector_repo, fix_calendar_repo, fix_role_assignment_repo.
  by rewrite inject_sector_present, inject_calendar_present, inject_business_present.
Qed.

(** An instance of X11: a file with one statement of each kind. *)
Lemma file_of_three_statements :
  fix_business_sector_repo (statements_in statement_items [nl])
  = lit "// InfrastructureException" ++ nl ::
    lit "throw new InfrastructureException(" ++ dq :: lit "not found" ++ dq ::
      lit ", " ++ dq :: lit "INFRASTRUCTURE_ERROR" ++ dq :: lit ");" ++ nl ::
    lit "throw new InfrastructureException(" ++ dq :: lit "not saved" ++ dq ::
      lit ", " ++ dq :: lit "INFRASTRUCTURE_ERROR" ++ dq :: lit ");" ++ nl ::
    lit "throw new InfrastructureException(`failed: ${e}`, " ++ dq ::
      lit "INFRASTRUCTURE_ERROR" ++ dq :: lit ");" ++ [nl] /\
  fix_calendar_repo (statements_in statement_items [nl])
  = statements_out statement_items [nl] /\
  fix_role_assignment_repo (statements_in statement_items [nl])
  = statements_out statement_items [nl].
Proof.
  destruct (file_of_statements statement_items [nl]) as (_ & _ & _ & H).
  - repeat constructor; try done; apply (bool_decide_unpack _); by vm_compute.
  - by vm_compute.
  - apply H. by vm_compute.
Defined.

(** ** The subscripts of quick_fix_business.py *)

Lemma getitem_item S k : k < length S -> getitem S k = Some (item S k).
Proof. apply lookup_item. Qed.

Lemma setitem_insert k x S : k < length S -> setitem k x S = Some (<[k := x]> S).
Proof. intros H. unfold setitem. by rewrite (proj2 (Nat.ltb_lt _ _) H). Qed.

Lemma assign_code_checked_ok i S :
  i + 2 < length S -> assign_code_checked i S = Some (assign_code i S).
Proof.
  intros H. unfold assign_code_checked, assign_code.
  rewrite !getitem_item by lia. cbn [mbind option_bind].
  repeat (match goal with |- context [contains ?k ?l] =>
            destruct (contains k l); [by apply setitem_insert|] end).
  done.
Qed.

Lemma add_comma_checked_ok i S :
  i + 1 < length S -> add_comma_checked i S = Some (add_comma i S).
Proof.
  intros H. unfold add_comma_checked, add_comma.
  rewrite !getitem_item by lia. cbn [mbind option_bind].
  destruct (negb _); [|done]. by apply setitem_insert.
Qed.

Lemma quick_fix_body_checked_ok i line S :
  quick_fix_body_checked i line S = Some (quick_fix_body i line S).
Proof.
  unfold quick_fix_body_checked, quick_fix_body.
  destruct (contains _ line); [|done].
  destruct (i + 2 <? length S) eqn:E; [|done]. apply Nat.ltb_lt in E.
  rewrite getitem_item by done. cbn [mbind option_bind andb].
  destruct (bool_decide _); [|done].
  rewrite assign_code_checked_ok by done. cbn [mbind option_bind].
  apply add_comma_checked_ok. rewrite assign_code_length. lia.
Qed.

Lemma enumerate_from_checked_ok i n S :
  enumerate_from_checked quick_fix_body_checked i n S
  = Some (enumerate_from quick_fix_body i n S).
Proof.
  revert i S. induction n as [|n IH]; intros i S; [done|]. cbn.
  destruct (S !! i) as [line|]; [|done].
  rewrite quick_fix_body_checked_ok. cbn. apply IH.
Qed.

(** ** The lines that quick_fix_business.py leaves alone *)

Lemma with_comma_call_inv line :
  contains throw_infra (with_comma line) = true -> contains throw_infra line = true.
Proof.
  intros H. destruct (contains throw_infra line) eqn:E; [done|].
  by rewrite with_comma_no_call in H.
Qed.

Section Frame.
Variable lines : list (list N).

(** A line that holds the call while the loop runs held it before. *)
Lemma quick_fix_call_origin n j l :
  enumerate_from quick_fix_body 0 n lines !! j = Some l ->
  contains throw_infra l = true ->
  exists l0, lines !! j = Some l0 /\ contains throw_infra l0 = true.
Proof.
  revert j l.
  apply (enumerate_from_ind quick_fix_body
           (fun S => forall j l, S !! j = Some l -> contains throw_infra l = true ->
              exists l0, lines !! j = Some l0 /\ contains throw_infra l0 = true)).
  { intros j l Hl Hc. by exists l. }
  intros i line S' _ IH Hline j l Hl Hc.
  destruct (quick_fix_body_cases i line S') as [E | (_ & Hr & _ & E)];
    rewrite E in Hl; [by apply (IH j l)|].
  destruct (decide (j = i + 1)) as [->|].
  { rewrite fired_message in Hl by done. injection Hl as <-.
    apply with_comma_call_inv in Hc.
    apply (IH (i + 1) (item S' (i + 1))); [|done].
    apply lookup_item. lia. }
  destruct (decide (j = i + 2)) as [->|].
  { rewrite fired_closing in Hl by done. injection Hl as <-.
    destruct (has_key _); [by vm_compute in Hc|].
    apply (IH (i + 2) (item S' (i + 2))); [|done]. by apply lookup_item. }
  rewrite fired_other in Hl by done. by apply (IH j l).
Qed.

(** When the loop reaches a line, the lines from the second one behind it
    on are as they were. *)
Lemma quick_fix_ahead n k :
  n + 1 < k -> enumerate_from quick_fix_body 0 n lines !! k = lines !! k.
Proof.
  intros Hk.
  apply (enumerate_from_ind quick_fix_body (fun S => S !! k = lines !! k)); [done|].
  intros j line S' Hj IH _. rewrite quick_fix_body_other by lia. done.
Qed.

(** A line is changed only by the iteration of one of the two lines
    before it, and only when that line holds the call and the second line
    behind it closes the call. *)
Lemma quick_fix_frame k :
  (forall j l l', j < k -> k <= j + 2 ->
     lines !! j = Some l -> lines !! (j + 2) = Some l' ->
     contains throw_infra l = true -> strip l' <> lit ");") ->
  quick_fix_lines lines !! k = lines !! k.
Proof.
  intros H. unfold quick_fix_lines, for_enumerate.
  assert (forall n, enumerate_from quick_fix_body 0 n lines !! k = lines !! k) as Hn;
    [|apply Hn].
  induction n as [|n IH]; [done|].
  replace (S n) with (n + 1) by lia.
  rewrite enumerate_from_split by apply quick_fix_body_length.
  cbn [enumerate_from]. rewrite Nat.add_0_l.
  destruct (enumerate_from quick_fix_body 0 n lines !! n) as [line|] eqn:E; [|done].
  destruct (quick_fix_body_cases n line (enumerate_from quick_fix_body 0 n lines))
    as [-> | (Hc & Hr & Hs & ->)]; [done|].
  destruct (quick_fix_call_origin n n line E Hc) as (l0 & Hl0 & Hc0).
  pose proof (lookup_item _ _ Hr) as Hl2. rewrite quick_fix_ahead in Hl2 by lia.
  assert (k <> n + 1 /\ k <> n + 2) as [H1 H2].
  { split; intros ->; by apply (H n l0 _ ltac:(lia) ltac:(lia) Hl0 Hl2). }
  by rewrite fired_other.
Qed.
End Frame.

Lemma contains_concat p l (ls : list (list N)) :
  l ∈ ls -> contains p l = true -> contains p (concat ls) = true.
Proof.
  intros (u & v & ->)%list_elem_of_split Hp.
  rewrite concat_app. cbn [concat]. by apply contains_app_r, contains_app_l.
Qed.

Lemma quick_fix_lines_without_call lines :
  (forall l, l ∈ lines -> contains throw_infra l = false) ->
  quick_fix_lines lines = lines.
Proof.
  intros H. apply list_eq. intros k. apply quick_fix_frame.
  intros j l l' _ _ Hl _ Hc. rewrite H in Hc; [done|].
  by apply list_elem_of_lookup_2 in Hl.
Qed.

(** ** What quick_fix_business.py has written *)

Lemma with_comma_not_closing line : strip (with_comma line) <> lit ");".
Proof.
  intros E. pose proof (with_comma_ends line) as H.
  apply ends_with_true in H as [x Hx].
  assert (44%N ∈ strip (with_comma line)) as Hin.
  { apply elem_of_strip; [|done].
    destruct (rstrip_decompose (with_comma line)) as (w & Hw & _).
    rewrite Hw, Hx. rewrite !elem_of_app. left. right. by left. }
  rewrite E in Hin. apply list_elem_of_In in Hin. simpl in Hin.
  by destruct Hin as [? | [? | []]].
Qed.

Lemma with_comma_fixed line :
  ends_with (lit ",") (rstrip line) = true -> with_comma line = line.
Proof. intros H. unfold with_comma. by rewrite H. Qed.

Lemma has_key_rstrip line : has_key line = false -> has_key (rstrip line) = false.
Proof.
  unfold has_key. rewrite <- !not_true_iff_false, !existsb_exists.
  intros H (key & Hk & Hc). apply H. exists key. split; [done|].
  destruct (rstrip_decompose line) as (w & E & _). rewrite E. by apply contains_app_l.
Qed.

Lemma has_key_with_comma line : has_key line = false -> has_key (with_comma line) = false.
Proof.
  intros H. unfold with_comma. destruct (ends_with _ _); [done|].
  apply has_key_rstrip in H.
  unfold has_key in *. rewrite <- not_true_iff_false, existsb_exists in *.
  intros (key & Hk & Hc). apply H. exists key. split; [done|].
  destruct (contains key (rstrip line)) eqn:E; [done|].
  rewrite contains_app_false in Hc; [done | done | |];
    simpl in Hk; repeat (destruct Hk as [<- | Hk]; [by vm_compute|]); done.
Qed.

(** X12: quick_fix_business.py raises no [IndexError].  With every
    subscript of the loop checked, the loop ends without exception on
    every list of lines, with the lines that the loop without checks
    gives: line 9 tests [i+2 < len(lines)] before it reads
    [lines[i+2]], and no assignment changes the length of the list. *)
Theorem quick_fix_has_no_index_error (lines : list (list N)) :
  quick_fix_lines_checked lines = Some (quick_fix_lines lines) /\
  length (quick_fix_lines lines) = length lines.
Proof.
  split; [apply enumerate_from_checked_ok|].
  apply enumerate_from_length, quick_fix_body_length.
Qed.

(** X13: quick_fix_business.py changes nothing but the two lines below a
    call.  A line stays as it is unless one of the two lines before it
    holds [throw new InfrastructureException(] and has a closing line
    [);] two lines below; a file in which the call does not occur is
    written back as it was read. *)
Theorem quick_fix_changes_only_below_a_call :
  (forall lines k,
     (forall j l l', j < k -> k <= j + 2 ->
        lines !! j = Some l -> lines !! (j + 2) = Some l' ->
        contains throw_infra l = true -> strip l' <> lit ");") ->
     quick_fix_lines lines !! k = lines !! k) /\
  (forall content,
     contains throw_infra content = false -> quick_fix_business content = content).
Proof.
  split; [apply quick_fix_frame|].
  intros content H. unfold quick_fix_business, writelines.
  rewrite quick_fix_lines_without_call; [apply concat_readlines|].
  intros l Hl. apply not_true_iff_false. intros Hc.
  apply (contains_concat _ _ _ Hl) in Hc. rewrite concat_readlines in Hc. congruence.
Qed.

(** An instance of X13: the lines around a block, and a file without
    call. *)
Lemma quick_fix_around_a_block :
  quick_fix_lines block_in_file !! 0 = Some (lit "// save" ++ [nl]) /\
  quick_fix_lines block_in_file !! 1
    = Some (lit "throw new InfrastructureException(" ++ [nl]) /\
  quick_fix_lines block_in_file !! 4 = Some (lit "return;" ++ [nl]) /\
  quick_fix_business plain_file = plain_file.
Proof.
  destruct quick_fix_changes_only_below_a_call as [H1 H2].
  assert (forall k, k = 0 \/ k = 1 \/ k = 4 ->
            forall j l l', j < k -> k <= j + 2 ->
              block_in_file !! j = Some l -> block_in_file !! (j + 2) = Some l' ->
              contains throw_infra l = true -> strip l' <> lit ");") as H.
  { intros k Hk j l l' Hj1 Hj2 Hl Hl' Hc.
    assert (j = 0 \/ j = 2 \/ j = 3) as [-> | [-> | ->]] by lia;
      injection Hl as <-; by vm_compute in Hc. }
  split_and!.
  - apply (H1 block_in_file 0), H. tauto.
  - apply (H1 block_in_file 1), H. tauto.
  - apply (H1 block_in_file 4), H. tauto.
  - apply H2. by vm_compute.
Defined.

(** X14: what quick_fix_business.py has written for a block, a later run
    leaves alone.  A block that got the code is read back as four lines:
    the call, the message with its comma, the code and the closing line;
    a block that got the comma only is read back as three.  Whatever
    stands around them, the loop leaves these lines as they are, provided
    the message line does not itself hold the call.  Without that
    proviso a second run may change the file again. *)
Theorem rewritten_blocks_are_left_alone :
  readlines closing_with_code = [code_line; closing_line] /\
  (forall lines i l0 l1,
     lines !! i = Some l0 -> lines !! (i + 1) = Some (with_comma l1) ->
     lines !! (i + 2) = Some code_line -> lines !! (i + 3) = Some closing_line ->
     contains throw_infra l0 = true -> contains throw_infra l1 = false ->
     quick_fix_lines lines !! i = Some l0 /\
     quick_fix_lines lines !! (i + 1) = Some (with_comma l1) /\
     quick_fix_lines lines !! (i + 2) = Some code_line /\
     quick_fix_lines lines !! (i + 3) = Some closing_line) /\
  (forall lines i l0 l1 l2,
     lines !! i = Some l0 -> lines !! (i + 1) = Some (with_comma l1) ->
     lines !! (i + 2) = Some l2 ->
     contains throw_infra l0 = true -> strip l2 = lit ");" ->
     contains throw_infra l1 = false -> has_key l1 = false ->
     quick_fix_lines lines !! i = Some l0 /\
     quick_fix_lines lines !! (i + 1) = Some (with_comma l1) /\
     quick_fix_lines lines !! (i + 2) = Some l2) /\
  (exists content,
     quick_fix_business (quick_fix_business content) <> quick_fix_business content).
Proof.
  split_and!.
  - done.
  - intros lines i l0 l1 H0 H1 H2 H3 Hc0 Hc1.
    assert (contains throw_infra (with_comma l1) = false) as Hc1'
      by by apply with_comma_no_call.
    assert (strip l0 <> lit ");") as Hn0 by by apply call_not_closing.
    pose proof (with_comma_not_closing l1) as Hn1.
    assert (strip code_line <> lit ");") as Hn2
      by (apply (bool_decide_unpack _); by vm_compute).
    assert (contains throw_infra code_line = false) as Hc2 by by vm_compute.
    rewrite <- H0, <- H1, <- H2, <- H3.
    split_and!; apply quick_fix_frame; intros j l l' Hj1 Hj2 Hl Hl' Hc.
    + assert (j + 2 = i \/ j + 2 = i + 1) as [E | E] by lia;
        rewrite E in Hl'; congruence.
    + assert (j + 2 = i + 1 \/ j + 2 = i + 2) as [E | E] by lia;
        rewrite E in Hl'; congruence.
    + assert (j + 2 = i + 2 \/ j = i + 1) as [E | E] by lia;
        [rewrite E in Hl' | rewrite E in Hl]; congruence.
    + assert (j = i + 1 \/ j = i + 2) as [E | E] by lia;
        rewrite E in Hl; congruence.
  - intros lines i l0 l1 l2 H0 H1 H2 Hc0 Hs Hc1 Hk.
    destruct (quick_fix_block lines i l0 (with_comma l1) l2 H0 H1 H2 Hc0 Hs)
      as (R0 & R1 & R2);
      [by apply with_comma_no_call | apply with_comma_not_closing |].
    rewrite has_key_with_comma in R2 by done.
    rewrite (with_comma_fixed (with_comma l1)) in R1 by apply with_comma_ends.
    done.
  - exists call_in_message. apply (bool_decide_unpack _). by vm_compute.
Qed.

(** An instance of X14: a file with one block of each kind. *)
Lemma rewritten_file_is_left_alone :
  (quick_fix_lines rewritten_block !! 0
     = Some (lit "throw new InfrastructureException(" ++ [nl]) /\
   quick_fix_lines rewritten_block !! 1
     = Some (lit "  `Failed to save business: ${e}`," ++ [nl]) /\
   quick_fix_lines rewritten_block !! 2 = Some code_line /\
   quick_fix_lines rewritten_block !! 3 = Some closing_line) /\
  (quick_fix_lines rewritten_block !! 4
     = Some (lit "throw new InfrastructureException(" ++ [nl]) /\
   quick_fix_lines rewritten_block !! 5
     = Some (lit "  `Failed to archive business: ${e}`," ++ [nl]) /\
   quick_fix_lines rewritten_block !! 6 = Some (lit ");" ++ [nl])).
Proof.
  destruct rewritten_blocks_are_left_alone as (_ & H1 & H2 & _). split.
  - apply (H1 rewritten_block 0 (lit "throw new InfrastructureException(" ++ [nl])
             (lit "  `Failed to save business: ${e}`," ++ [nl])); by vm_compute.
  - apply (H2 rewritten_block 4 (lit "throw new InfrastructureException(" ++ [nl])
             (lit "  `Failed to archive business: ${e}`," ++ [nl])
             (lit ");" ++ [nl])); by vm_compute.
Defined.

(** ** Line endings *)

Lemma lf_only_app x y : lf_only (x ++ y) <-> lf_only x /\ lf_only y.
Proof. apply Forall_app. Qed.

Lemma lf_only_cons c s : lf_only (c :: s) <-> c <> cr /\ lf_only s.
Proof. apply (Forall_cons (fun c => c <> cr)). Qed.

Lemma lf_only_elem s : lf_only s <-> cr ∉ s.
Proof.
  unfold lf_only. rewrite Forall_forall. split.
  - intros H Hin. by apply (H cr).
  - intros H c Hc E. by subst c.
Qed.

Lemma lf_only_lit s : bool_decide (cr ∉ s) = true -> lf_only s.
Proof. intros H. apply lf_only_elem. by apply bool_decide_eq_true in H. Qed.

(** Reading in text mode leaves no carriage return. *)
Lemma universal_newlines_lf_only s : lf_only (universal_newlines s).
Proof.
  remember (length s) as n eqn:Hn. revert s Hn.
  induction n as [n IH] using lt_wf_ind. intros s ->.
  destruct s as [|c s]; [constructor|]. cbn [universal_newlines].
  destruct (N.eqb_spec c cr) as [->|Hc].
  - destruct s as [|d s]; [by repeat constructor|].
    destruct (N.eqb d nl); (constructor; [done|]).
    + apply (IH (length s)); [simpl; lia | done].
    + apply (IH (length (d :: s))); [simpl; lia | done].
  - constructor; [done|]. apply (IH (length s)); [simpl; lia | done].
Qed.


(** A substitution that writes no carriage return gives none. *)
Lemma scan_from_lf_only (m : matcher) k s :
  (forall s' out len, m s' = Some (out, len) -> lf_only s' -> lf_only out) ->
  lf_only s -> lf_only (scan_from m k s).
Proof.
  intros Hm Hs. revert k. induction Hs as [|c s Hc Hs IH]; intros k; [constructor|].
  cbn [scan_from]. destruct k as [|k]; [|apply IH].
  destruct (m (c :: s)) as [[out len]|] eqn:E.
  - apply lf_only_app. split; [|apply IH].
    apply (Hm _ _ _ E). by constructor.
  - constructor; [done | apply IH].
Qed.

Lemma str_replace_lf_only old new s :
  lf_only new -> lf_only s -> lf_only (str_replace old new s).
Proof.
  intros Hn Hs. apply scan_from_lf_only; [|done].
  intros s' out len H _. unfold replace_matcher in H.
  destruct (starts_with old s'); [|done]. by injection H as <- _.
Qed.

Lemma re_sub_lf_only r s :
  r ∈ calendar_patterns -> lf_only s -> lf_only (re_sub r s).
Proof.
  intros Hr Hs. apply scan_from_lf_only; [|done].
  intros s' out len (ws1 & m & ws2 & rest & -> & _ & -> & _)%rule_matcher_Some Hs'.
  assert (out_delim r <> cr) as Ho.
  { apply list_elem_of_In in Hr. simpl in Hr.
    by destruct Hr as [<- | [<- | [<- | [<- | []]]]]. }
  unfold lf_only, stmt_out in *.
  repeat first [rewrite Forall_app in Hs' | rewrite Forall_cons in Hs'].
  destruct_and!.
  repeat first [rewrite Forall_app | rewrite Forall_cons].
  split_and!; try done; by apply lf_only_lit.
Qed.

Lemma apply_patterns_lf_only rs s :
  (forall r, r ∈ rs -> r ∈ calendar_patterns) ->
  lf_only s -> lf_only (apply_patterns rs s).
Proof.
  revert s. induction rs as [|r rs IH]; intros s Hrs Hs; [done|].
  change (apply_patterns (r :: rs) s) with (apply_patterns rs (re_sub r s)).
  apply IH; [intros; apply Hrs; by right|].
  apply re_sub_lf_only; [apply Hrs; by left | done].
Qed.

Lemma join_nl_lf_only ls : Forall lf_only ls -> lf_only (join_nl ls).
Proof.
  induction 1 as [|l ls Hl Hls IH]; [constructor|].
  destruct ls as [|l' ls]; [done|]. rewrite join_nl_cons by done.
  apply lf_only_app. split; [done|]. by constructor.
Qed.

Lemma split_nl_lf_only s : lf_only s -> Forall lf_only (split_nl s).
Proof.
  induction 1 as [|c s Hc Hs IH]; [by repeat constructor|]. cbn [split_nl].
  destruct (N.eqb c nl); [constructor; [constructor | done]|].
  destruct (split_nl s) as [|l ls]; [by repeat constructor|].
  apply Forall_cons in IH as [Hl Hls]. constructor; [by constructor | done].
Qed.

Lemma concat_lf_only (ls : list (list N)) : Forall lf_only ls -> lf_only (concat ls).
Proof.
  induction 1 as [|l ls Hl Hls IH]; [constructor|].
  cbn [concat]. by apply lf_only_app.
Qed.

Lemma readlines_lf_only s : lf_only s -> Forall lf_only (readlines s).
Proof.
  induction 1 as [|c s Hc Hs IH]; [constructor|]. cbn [readlines].
  destruct (N.eqb c nl); [constructor; [by repeat constructor | done]|].
  destruct (readlines s) as [|l ls]; [by repeat constructor|].
  apply Forall_cons in IH as [Hl Hls]. constructor; [by constructor | done].
Qed.

Lemma rstrip_lf_only s : lf_only s -> lf_only (rstrip s).
Proof.
  intros H. destruct (rstrip_decompose s) as (w & E & _).
  rewrite E in H. by apply lf_only_app in H as [H _].
Qed.

Lemma inject_business_lf_only s : lf_only s -> lf_only (inject_business s).
Proof.
  intros H. unfold inject_business. destruct (contains marker s); [done|].
  apply str_replace_lf_only; [by apply lf_only_lit | done].
Qed.

Lemma inject_calendar_lf_only s : lf_only s -> lf_only (inject_calendar s).
Proof.
  intros H. unfold inject_calendar. destruct (contains marker s); [done|].
  apply str_replace_lf_only; [by apply lf_only_lit | done].
Qed.

Lemma inject_rbac_lf_only s : lf_only s -> lf_only (inject_rbac s).
Proof.
  intros H. unfold inject_rbac. destruct (contains marker s); [done|].
  apply str_replace_lf_only; [by apply lf_only_lit | done].
Qed.

Lemma inject_sector_lf_only s : lf_only s -> lf_only (inject_sector s).
Proof.
  intros H.
  destruct (inject_sector_cases s) as [-> | (pre & line & post & Hs & ->)]; [done|].
  apply join_nl_lf_only. apply split_nl_lf_only in H. rewrite Hs in H.
  apply Forall_app in H as [Hpre H]. apply Forall_cons in H as [Hline Hpost].
  apply Forall_app. split; [done|].
  constructor; [done|]. constructor; [by apply lf_only_lit | done].
Qed.

Lemma fix_business_repo_lf_only s : lf_only s -> lf_only (fix_business_repo s).
Proof.
  intros H. rewrite fix_business_repo_unfold. apply join_nl_lf_only.
  apply Forall_map.
  eapply Forall_impl; [apply split_nl_lf_only|].
  - apply str_replace_lf_only; [by apply lf_only_lit|].
    by apply inject_business_lf_only.
  - intros l Hl. unfold fix_line, append_code.
    destruct (is_template_statement l); [|done].
    apply str_replace_lf_only; [by apply lf_only_lit | done].
Qed.

Lemma fix_rbac_context_repo_lf_only s : lf_only s -> lf_only (fix_rbac_context_repo s).
Proof.
  intros H. unfold fix_rbac_context_repo.
  assert (lf_only (rename_throw (inject_rbac s))) as H'.
  { apply str_replace_lf_only; [by apply lf_only_lit|]. by apply inject_rbac_lf_only. }
  revert H'. generalize (rename_throw (inject_rbac s)).
  assert (Forall (fun e => lf_only (rbac_replacement e)) rbac_table) as Ht
    by (apply Forall_forall; intros e He; rbac_entries He; by apply lf_only_lit).
  induction Ht as [|e es He _ IH]; intros t Hlf; [done|].
  cbn [fold_left]. apply IH. rewrite rbac_replace_eq. by apply str_replace_lf_only.
Qed.

Lemma quick_fix_body_lf_only j line S :
  Forall lf_only S -> Forall lf_only (quick_fix_body j line S).
Proof.
  intros H.
  destruct (quick_fix_body_cases j line S) as [-> | (_ & Hr & _ & ->)]; [done|].
  assert (Forall lf_only (assign_code j S)) as Ha.
  { rewrite assign_code_has_key. destruct (has_key _); [|done].
    apply Forall_insert; [done | by apply lf_only_lit]. }
  unfold add_comma. destruct (negb _); [|done].
  apply Forall_insert; [done|].
  apply lf_only_app. split; [|by apply lf_only_lit].
  apply rstrip_lf_only. unfold item.
  destruct (assign_code j S !! (j + 1)) as [l|] eqn:E; [|constructor].
  by apply (Forall_lookup_1 _ _ _ _ Ha E).
Qed.

Lemma quick_fix_business_lf_only s : lf_only s -> lf_only (quick_fix_business s).
Proof.
  intros H. unfold quick_fix_business, writelines. apply concat_lf_only.
  unfold quick_fix_lines, for_enumerate.
  apply enumerate_from_ind; [by apply readlines_lf_only|].
  intros j line S' _ HS _. by apply quick_fix_body_lf_only.
Qed.


(** ** One run after the other *)


(** X15: no script writes a carriage return.  Reading in text mode turns
    every line ending into a line feed, and no script adds a carriage
    return: whatever the line endings of the file read, the text that a
    script hands to [write] or [writelines] holds line feeds only. *)
Theorem written_text_has_no_carriage_return (raw : list N) :
  (cr ∉ fix_business_repo (universal_newlines raw)) /\
  (cr ∉ fix_business_sector_repo (universal_newlines raw)) /\
  (cr ∉ fix_calendar_repo (universal_newlines raw)) /\
  (cr ∉ fix_role_assignment_repo (universal_newlines raw)) /\
  (cr ∉ fix_rbac_context_repo (universal_newlines raw)) /\
  cr ∉ quick_fix_business (universal_newlines raw).
Proof.
  pose proof (universal_newlines_lf_only raw) as H.
  split_and!; apply lf_only_elem.
  - by apply fix_business_repo_lf_only.
  - apply apply_patterns_lf_only; [apply sector_in_calendar|].
    by apply inject_sector_lf_only.
  - apply apply_patterns_lf_only; [done|]. by apply inject_calendar_lf_only.
  - apply apply_patterns_lf_only; [apply sector_in_calendar|].
    by apply inject_business_lf_only.
  - by apply fix_rbac_context_repo_lf_only.
  - by apply quick_fix_business_lf_only.
Qed.



(** ** The code before every closing parenthesis *)

(** A text that does not hold the first character of [new] begins in the
    result of a replacement only where it begins in the text replaced. *)
Lemma starts_with_replaced q old new a s :
  old <> [] -> head new = Some a -> a ∉ q ->
  starts_with q (str_replace old new s) = true -> starts_with q s = true.
Proof.
  intros Ho Hn. revert s. induction q as [|b q IH]; intros s Ha H; [done|].
  destruct s as [|c s]; [done|].
  destruct (starts_with old (c :: s)) eqn:E.
  - apply starts_with_true in E as [r E]. rewrite E in H.
    rewrite str_replace_match in H by done.
    destruct new as [|a' new]; [done|]. injection Hn as ->.
    cbn [app starts_with] in H. apply andb_true_iff in H as [->%N.eqb_eq _].
    exfalso. apply Ha. by left.
  - rewrite str_replace_skip in H by done. cbn [starts_with] in *.
    apply andb_true_iff in H as [-> H]. cbn [andb].
    apply IH; [|done]. intros ?. apply Ha. by right.
Qed.

Lemma code_suffix_parts :
  code_suffix = 44%N :: (lit " " ++ dq :: lit "INFRASTRUCTURE_ERROR" ++ [dq]) ++ lit ");".
Proof. done. Qed.

(** Behind a character that is copied, the code begins nowhere. *)
Lemma code_not_at_copy c s :
  starts_with (lit ");") (c :: s) = false ->
  starts_with code_suffix (c :: str_replace (lit ");") code_suffix s) = false.
Proof.
  intros Hc. apply not_true_iff_false. intros H.
  rewrite code_suffix_parts in H at 1. cbn [starts_with] in H.
  apply andb_true_iff in H as [_ H].
  set (y := lit " " ++ dq :: lit "INFRASTRUCTURE_ERROR" ++ [dq]) in *.
  pose proof H as H'.
  apply (starts_with_replaced _ _ _ 44%N) in H';
    [|done | done | apply (bool_decide_unpack _); by vm_compute].
  apply starts_with_true in H' as [r ->].
  rewrite <- app_assoc in H.
  rewrite str_replace_kept_head in H by done.
  rewrite str_replace_match in H by done.
  apply starts_with_true in H as [t Ht].
  rewrite <- app_assoc in Ht. apply app_inv_head in Ht.
  by vm_compute in Ht.
Qed.

Lemma occurrences_append_code s :
  occurrences code_suffix (append_code s) = occurrences (lit ");") s.
Proof.
  unfold append_code.
  remember (length s) as n eqn:Hn. revert s Hn.
  induction n as [n IH] using lt_wf_ind. intros s ->.
  destruct s as [|c s]; [done|].
  destruct (starts_with (lit ");") (c :: s)) eqn:E.
  - apply starts_with_true in E as [r E]. rewrite E.
    rewrite str_replace_match by done.
    rewrite !occurrences_self by done.
    f_equal. apply (IH (length r)); [|done].
    rewrite E, length_app. simpl. lia.
  - rewrite str_replace_skip by done. rewrite !(occurrences_cons _ c), E.
    rewrite code_not_at_copy by done.
    f_equal. apply (IH (length s)); [simpl; lia | done].
Qed.

(** X17: line 23 of fix_business_repo.py writes the code before every
    [);] of the line, not before the last one only.  After the
    replacement the line holds the code argument once for each [);]
    that it held, and a line that passes the test of line 21 holds at
    least one. *)
Theorem code_before_every_closing (line : list N) :
  occurrences code_suffix (append_code line) = occurrences (lit ");") line /\
  (is_template_statement line = true ->
   1 <= occurrences (lit ");") line /\
   occurrences code_suffix (fix_line line) = occurrences (lit ");") line).
Proof.
  split; [apply occurrences_append_code|].
  intros Ht. unfold fix_line. rewrite Ht. split; [|apply occurrences_append_code].
  apply andb_true_iff in Ht as [_ (u & w & -> & _)%closing_line_shape].
  apply contains_occurrences, contains_app_r, contains_app_l.
  by apply starts_with_contains.
Qed.

(** An instance of X17: a line with two statements. *)
Lemma code_in_a_line_with_two_statements :
  occurrences code_suffix (append_code two_calls_line) = 2 /\
  1 <= 2 /\
  occurrences code_suffix (fix_line two_calls_line) = 2.
Proof.
  destruct (code_before_every_closing two_calls_line) as [H1 H2].
  split; [exact H1|]. apply H2. by vm_compute.
Defined.

(** ** fix_business_repo.py, line by line *)

(** A replacement of a text without line feed works on the lines one by
    one. *)
Lemma str_replace_join old new ls :
  old <> [] -> nl ∉ old ->
  str_replace old new (join_nl ls) = join_nl (map (str_replace old new) ls).
Proof.
  intros Ho Hnl. induction ls as [|l ls IH]; [done|].
  destruct ls as [|l' ls]; [reflexivity|].
  cbn [map] in *. rewrite !(join_nl_cons _ (_ :: _)) by done. rewrite <- IH.
  rewrite str_replace_app; [|done|].
  - f_equal. apply str_replace_skip.
    destruct old as [|a old]; [done|]. cbn [starts_with].
    destruct (N.eqb_spec a nl) as [->|]; [|done].
    exfalso. apply Hnl. by left.
  - intros i Hi. rewrite drop_app_le by lia.
    destruct (decide (length old <= length (drop i l))).
    + by apply starts_with_short.
    + transitivity false; [|symmetry]; apply not_true_iff_false.
      * intros E. apply starts_with_elem in E; [done | lia].
      * intros E%starts_with_length. lia.
Qed.

Lemma scan_from_no_newline (m : matcher) k s :
  (forall s' out len, m s' = Some (out, len) -> nl ∉ out) ->
  nl ∉ s -> nl ∉ scan_from m k s.
Proof.
  intros Hm. revert k. induction s as [|c s IH]; intros k Hs; [done|].
  assert (nl ∉ s) as Hs' by (intros ?; apply Hs; by right).
  cbn [scan_from]. destruct k as [|k]; [|by apply IH].
  destruct (m (c :: s)) as [[out len]|] eqn:E.
  - rewrite elem_of_app. intros [H | H]; [by apply (Hm _ _ _ E) | by apply IH in H].
  - intros [E' | H]%elem_of_cons; [apply Hs; rewrite E'; by left | by apply IH in H].
Qed.

Lemma rename_throw_no_newline l : nl ∉ l -> nl ∉ rename_throw l.
Proof.
  apply scan_from_no_newline. intros s' out len H. unfold replace_matcher in H.
  destruct (starts_with throw_error s'); [|done]. injection H as <- _.
  apply (bool_decide_unpack _). by vm_compute.
Qed.

Lemma fix_business_repo_lines f :
  split_nl (fix_business_repo f)
  = map (fun l => fix_line (rename_throw l)) (split_nl (inject_business f)).
Proof.
  rewrite fix_business_repo_unfold.
  rewrite <- (join_split_nl (inject_business f)) at 1.
  unfold rename_throw at 1.
  rewrite str_replace_join; [|done | apply (bool_decide_unpack _); by vm_compute].
  fold rename_throw.
  pose proof (split_nl_nonempty (inject_business f)) as Hne.
  pose proof (split_nl_no_newline (inject_business f)) as Hnl.
  assert (Forall (fun l => nl ∉ l) (map rename_throw (split_nl (inject_business f))))
    as Hnl'.
  { apply Forall_map. eapply Forall_impl; [done|]. apply rename_throw_no_newline. }
  rewrite (split_join_nl (map rename_throw _));
    [|by destruct (split_nl (inject_business f)) | done].
  rewrite split_join_nl;
    [|by destruct (split_nl (inject_business f)) | by apply fix_lines_no_newline].
  by rewrite map_map.
Qed.

(** X18: behind its import guard, fix_business_repo.py works line by
    line.  The text written has as many lines as the text behind the
    guard, and each line written is made from the line at the same place
    alone: the line renamed, with the code where the renamed line passes
    the test of line 21.  A line that holds neither [throw new Error(]
    nor a template-literal call is written as it is. *)
Theorem business_script_line_by_line (f : list N) :
  split_nl (fix_business_repo f)
  = map (fun l => fix_line (rename_throw l)) (split_nl (inject_business f)) /\
  length (split_nl (fix_business_repo f)) = length (split_nl (inject_business f)) /\
  (forall k l, split_nl (inject_business f) !! k = Some l ->
     contains throw_error l = false -> contains template_call l = false ->
     split_nl (fix_business_repo f) !! k = Some l).
Proof.
  pose proof (fix_business_repo_lines f) as H. split_and!; [done | |].
  - by rewrite H, length_map.
  - intros k l Hl H1 H2. rewrite H, list_lookup_fmap, Hl. cbn. f_equal.
    unfold rename_throw. rewrite str_replace_absent by done.
    unfold fix_line, is_template_statement. by rewrite H2.
Qed.

(** An instance of X18: the lines of a file with a comment. *)
Lemma business_script_on_a_comment :
  split_nl (fix_business_repo (lit "// save" ++ nl :: template_sample)) !! 0
  = Some (lit "// save").
Proof.
  apply (proj2 (proj2 (business_script_line_by_line
                         (lit "// save" ++ nl :: template_sample)))); by vm_compute.
Defined.

(** ** A file that has not been touched *)

Lemma occurrences_app_ge p x y : occurrences p y <= occurrences p (x ++ y).
Proof.
  induction x as [|c x IH]; [done|].
  change ((c :: x) ++ y) with (c :: (x ++ y)). rewrite occurrences_cons. lia.
Qed.

Lemma occurrences_app_none p x y :
  occurrences p (x ++ y) = occurrences p y ->
  forall i, i < length x -> starts_with p (drop i (x ++ y)) = false.
Proof.
  induction x as [|c x IH]; intros H i Hi; [simpl in Hi; lia|].
  change ((c :: x) ++ y) with (c :: (x ++ y)) in *.
  rewrite occurrences_cons in H. pose proof (occurrences_app_ge p x y).
  destruct i as [|i].
  - rewrite drop_0. destruct (starts_with p (c :: x ++ y)); [lia | done].
  - cbn [drop]. apply IH; [|simpl in Hi; lia].
    destruct (starts_with p (c :: x ++ y)); lia.
Qed.

(** A replacement of a text that occurs once. *)
Lemma str_replace_once old new u v :
  old <> [] -> occurrences old (u ++ old ++ v) = 1 ->
  str_replace old new (u ++ old ++ v) = u ++ new ++ v.
Proof.
  intros Ho H.
  pose proof (occurrences_app_ge old u (old ++ v)) as Hge.
  assert (0 < occurrences old (old ++ v)) as Hpos
    by apply contains_occurrences, starts_with_contains, starts_with_app.
  assert (occurrences old (old ++ v) = 1) as Hone by lia.
  unfold str_replace. rewrite scan_copy.
  - f_equal. fold (str_replace old new (old ++ v)).
    rewrite str_replace_match by done. f_equal.
    apply str_replace_absent. apply contains_false_occurrences.
    destruct old as [|a old']; [done|].
    change ((a :: old') ++ v) with (a :: (old' ++ v)) in Hone.
    rewrite occurrences_cons in Hone.
    pose proof (occurrences_app_ge (a :: old') old' v).
    assert (starts_with (a :: old') (a :: old' ++ v) = true) as Hs
      by apply (starts_with_app (a :: old') v).
    rewrite Hs in Hone. lia.
  - intros i Hi. unfold replace_matcher.
    rewrite occurrences_app_none; [done | | done]. lia.
Qed.

Lemma contains_false_app_r p x y : contains p (x ++ y) = false -> contains p y = false.
Proof.
  intros H. apply not_true_iff_false. intros Hy.
  by rewrite contains_app_r in H.
Qed.

(** A text that the call neither begins in nor reaches into brings no
    call where it is inserted. *)
Lemma insert_no_call w x a :
  apart throw_error w = true ->
  contains throw_error (x ++ a) = false ->
  contains throw_error (x ++ w ++ a) = false.
Proof.
  intros [H1 H2]%andb_true_iff H.
  assert (contains throw_error x = false) as Hx by by apply contains_false_app_l in H.
  assert (contains throw_error a = false) as Ha by by apply contains_false_app_r in H.
  apply contains_false_copy.
  - intros i Hi. by apply quiet_before.
  - apply contains_false_quiet; [by apply quiet_inside | done].
Qed.

Section Fresh.
Variables (anchor u a1 m1 : list N) (q1 : N) (items : list (list N * N * list N)).
Variable rest : list N.
Variable rs : list rule.
Hypothesis anchor_nonempty : anchor <> [].
Hypothesis rules_ok : Forall well_delimited rs.
Hypothesis rules_sector : forall r, r ∈ sector_patterns -> r ∈ rs.
Hypothesis rules_calendar : Forall (fun r => r ∈ calendar_patterns) rs.
Hypothesis plain : Forall plain_statement ((u ++ anchor ++ a1, q1, m1) :: items).
Hypothesis rest_plain : contains throw_error rest = false.
Hypothesis once :
  occurrences anchor (statements_in ((u ++ anchor ++ a1, q1, m1) :: items) rest) = 1.

(** The guard writes the declaration behind the anchor, and the patterns
    rewrite the statements. *)
Lemma fresh_file_rewritten :
  apply_patterns rs
    (str_replace anchor (anchor ++ nl :: import_decl)
       (statements_in ((u ++ anchor ++ a1, q1, m1) :: items) rest))
  = statements_out ((u ++ (anchor ++ nl :: import_decl) ++ a1, q1, m1) :: items) rest.
Proof using All.
  assert (statements_in ((u ++ anchor ++ a1, q1, m1) :: items) rest
          = u ++ anchor ++ (a1 ++ stmt_in q1 m1 ++ statements_in items rest)) as E
    by (cbn [statements_in foldr]; by rewrite <- !app_assoc).
  rewrite E in once |- *. rewrite str_replace_once by done.
  assert (u ++ (anchor ++ nl :: import_decl)
            ++ a1 ++ stmt_in q1 m1 ++ statements_in items rest
          = statements_in
              ((u ++ (anchor ++ nl :: import_decl) ++ a1, q1, m1) :: items) rest) as ->
    by (cbn [statements_in foldr]; by rewrite <- !app_assoc).
  apply Forall_cons in plain as [(Hq & Hm & Hqm & Ha & Hpm) Hitems].
  apply apply_patterns_statements; [done.. | | done].
  constructor; [|done]. split_and!; try done.
  rewrite <- (app_assoc anchor), (app_assoc u).
  apply (insert_no_call (nl :: import_decl)); [done|]. by rewrite <- app_assoc.
Qed.
End Fresh.

(** The lines of a text that begins with whole lines. *)
Lemma split_nl_lines pre line t :
  Forall (fun l => nl ∉ l) pre -> nl ∉ line ->
  split_nl (join_nl (pre ++ [line]) ++ nl :: t) = pre ++ line :: split_nl t.
Proof.
  intros Hpre Hline. induction Hpre as [|l pre Hl _ IH].
  - by apply split_nl_line.
  - cbn [app]. rewrite join_nl_cons by by destruct pre.
    rewrite <- app_assoc. cbn [app]. rewrite split_nl_line by done. by rewrite IH.
Qed.

Lemma join_nl_lines pre line x t :
  join_nl (pre ++ line :: x :: split_nl t)
  = join_nl (pre ++ [line]) ++ nl :: x ++ nl :: t.
Proof.
  induction pre as [|l pre IH].
  - cbn [app]. rewrite !join_nl_cons by (done || apply split_nl_nonempty).
    by rewrite join_split_nl.
  - cbn [app]. rewrite !join_nl_cons by by destruct pre.
    rewrite IH. by rewrite <- app_assoc.
Qed.

(** The guard of fix_business_sector_repo.py on a text whose first line
    that starts with [import ] is known. *)
Lemma inject_sector_header pre line t :
  Forall (fun l => (nl ∉ l) /\ starts_with (lit "import ") l = false) pre ->
  nl ∉ line -> starts_with (lit "import ") line = true ->
  contains marker (join_nl (pre ++ [line]) ++ nl :: t) = false ->
  inject_sector (join_nl (pre ++ [line]) ++ nl :: t)
  = join_nl (pre ++ [line]) ++ nl :: import_decl ++ nl :: t.
Proof.
  intros Hpre Hline Himport Hm.
  rewrite (inject_sector_found _ pre line (split_nl t)); [apply join_nl_lines | done | | |done].
  - apply split_nl_lines; [|done]. eapply Forall_impl; [done|]. by intros l [? _].
  - intros l Hl. rewrite Forall_forall in Hpre. by apply Hpre.
Qed.

(** X19: the first run on a file that has not been touched.  Take a file
    made of statements as in X11, without the marker, whose text before
    the first statement holds the anchor of the script: for
    fix_role_assignment_repo.py and fix_calendar_repo.py the anchor line,
    occurring once in the file; for fix_business_sector_repo.py a first
    line that starts with [import ].  The script writes the file with
    the import declaration on a line of its own behind the anchor and
    with every statement rewritten, and changes nothing else. *)
Theorem first_run_on_a_file_of_statements
    (a1 m1 : list N) (q1 : N) (items : list (list N * N * list N)) (rest : list N) :
  contains throw_error rest = false ->
  (forall u,
     Forall plain_statement ((u ++ business_anchor ++ a1, q1, m1) :: items) ->
     contains marker
       (statements_in ((u ++ business_anchor ++ a1, q1, m1) :: items) rest) = false ->
     occurrences business_anchor
       (statements_in ((u ++ business_anchor ++ a1, q1, m1) :: items) rest) = 1 ->
     fix_role_assignment_repo
       (statements_in ((u ++ business_anchor ++ a1, q1, m1) :: items) rest)
     = statements_out
         ((u ++ (business_anchor ++ nl :: import_decl) ++ a1, q1, m1) :: items) rest) /\
  (forall u,
     Forall plain_statement ((u ++ calendar_anchor ++ a1, q1, m1) :: items) ->
     contains marker
       (statements_in ((u ++ calendar_anchor ++ a1, q1, m1) :: items) rest) = false ->
     occurrences calendar_anchor
       (statements_in ((u ++ calendar_anchor ++ a1, q1, m1) :: items) rest) = 1 ->
     fix_calendar_repo
       (statements_in ((u ++ calendar_anchor ++ a1, q1, m1) :: items) rest)
     = statements_out
         ((u ++ (calendar_anchor ++ nl :: import_decl) ++ a1, q1, m1) :: items) rest) /\
  (forall pre line,
     Forall (fun l => (nl ∉ l) /\ starts_with (lit "import ") l = false) pre ->
     nl ∉ line -> starts_with (lit "import ") line = true ->
     Forall plain_statement ((join_nl (pre ++ [line]) ++ nl :: a1, q1, m1) :: items) ->
     contains marker
       (statements_in ((join_nl (pre ++ [line]) ++ nl :: a1, q1, m1) :: items) rest)
       = false ->
     fix_business_sector_repo
       (statements_in ((join_nl (pre ++ [line]) ++ nl :: a1, q1, m1) :: items) rest)
     = statements_out
         ((join_nl (pre ++ [line]) ++ nl :: import_decl ++ nl :: a1, q1, m1) :: items)
         rest).
Proof.
  intros Hrest. split_and!.
  - intros u Hplain Hm Honce. unfold fix_role_assignment_repo, inject_business.
    rewrite Hm. apply fresh_file_rewritten; try done.
    + apply sector_patterns_ok.
    + apply Forall_forall. intros r Hr. by apply sector_in_calendar.
  - intros u Hplain Hm Honce. unfold fix_calendar_repo, inject_calendar.
    rewrite Hm. apply fresh_file_rewritten; try done.
    + apply calendar_patterns_ok.
    + apply sector_in_calendar.
    + by apply Forall_forall.
  - intros pre line Hpre Hline Himport Hplain Hm. unfold fix_business_sector_repo.
    assert (statements_in ((join_nl (pre ++ [line]) ++ nl :: a1, q1, m1) :: items) rest
            = join_nl (pre ++ [line])
              ++ nl :: (a1 ++ stmt_in q1 m1 ++ statements_in items rest)) as E
      by (cbn [statements_in foldr]; by rewrite <- !app_assoc).
    rewrite E in Hm |- *. rewrite inject_sector_header by done.
    assert (join_nl (pre ++ [line]) ++ nl :: import_decl
              ++ nl :: a1 ++ stmt_in q1 m1 ++ statements_in items rest
            = statements_in
                ((join_nl (pre ++ [line]) ++ nl :: import_decl ++ nl :: a1, q1, m1)
                   :: items) rest) as ->.
    { cbn [statements_in foldr]. rewrite <- !app_assoc. cbn [app].
      by rewrite <- !app_assoc. }
    apply Forall_cons in Hplain as [(Hq & Hqm1 & Hqm & Ha & Hpm) Hitems].
    apply apply_patterns_statements; try done.
    + apply sector_patterns_ok.
    + apply Forall_forall. intros r Hr. by apply sector_in_calendar.
    + constructor; [|done]. split_and!; try done.
      replace (join_nl (pre ++ [line]) ++ nl :: import_decl ++ nl :: a1)
        with ((join_nl (pre ++ [line]) ++ [nl]) ++ (import_decl ++ [nl]) ++ a1)
        by by reassoc.
      apply insert_no_call; [done|]. by rewrite <- app_assoc.
Qed.

(** An instance of X19: a file with a comment, the import line and three
    statements. *)
Lemma first_run_on_three_statements :
  fix_role_assignment_repo
    (statements_in
       ((fresh_header ++ business_anchor ++ [nl], sq, lit "not found") :: fresh_tail)
       [nl])
  = statements_out
      ((fresh_header ++ (business_anchor ++ nl :: import_decl) ++ [nl], sq,
        lit "not found") :: fresh_tail) [nl] /\
  fix_business_sector_repo
    (statements_in
       ((join_nl ([lit "// repository"] ++ [business_anchor]) ++ nl :: [nl], sq,
         lit "not found") :: fresh_tail) [nl])
  = statements_out
      ((join_nl ([lit "// repository"] ++ [business_anchor])
          ++ nl :: import_decl ++ nl :: [nl], sq, lit "not found") :: fresh_tail) [nl].
Proof.
  assert (Forall plain_statement fresh_tail) as Htail.
  { unfold fresh_tail.
    repeat constructor; try done; apply (bool_decide_unpack _); by vm_compute. }
  destruct (first_run_on_a_file_of_statements [nl] (lit "not found") sq
              fresh_tail [nl]) as (H1 & _ & H3); [by vm_compute|].
  split.
  - apply (H1 fresh_header); [|by vm_compute..].
    constructor; [|done].
    split_and!; try done; try (by vm_compute); apply (bool_decide_unpack _); by vm_compute.
  - apply (H3 [lit "// repository"] business_anchor).
    + constructor; [|done]. split; [apply (bool_decide_unpack _)|]; by vm_compute.
    + apply (bool_decide_unpack _). by vm_compute.
    + by vm_compute.
    + constructor; [|done].
      split_and!; try done; try (by vm_compute); apply (bool_decide_unpack _);
        by vm_compute.
    + by vm_compute.
Defined.

(** ** The two scripts of the business repository, one after the other *)

Lemma readlines_line l t : nl ∉ l -> readlines (l ++ nl :: t) = (l ++ [nl]) :: readlines t.
Proof.
  induction l as [|c l IH]; intros Hl; cbn [app readlines].
  - by rewrite N.eqb_refl.
  - destruct (N.eqb_spec c nl) as [->|Hc]; [exfalso; apply Hl; by left|].
    rewrite IH; [done|]. intros ?. apply Hl. by right.
Qed.

(** A line that is not the last of the text written is read with its line
    feed. *)
Lemma readlines_join ls k l :
  Forall (fun l => nl ∉ l) ls -> ls !! k = Some l -> k + 1 < length ls ->
  readlines (join_nl ls) !! k = Some (l ++ [nl]).
Proof.
  intros Hls. revert k. induction Hls as [|l' ls Hl' _ IH]; intros k Hk Hlen; [done|].
  destruct ls as [|l'' ls]; [simpl in Hlen; lia|].
  rewrite join_nl_cons by done. rewrite readlines_line by done.
  destruct k as [|k]; [by injection Hk as ->|].
  cbn [lookup list_lookup] in *. apply IH; [done|]. simpl in *. lia.
Qed.

Lemma rename_throw_call l :
  contains throw_error l = true -> contains throw_infra (rename_throw l) = true.
Proof.
  intros (u & v & _ & R & _)%(str_replace_first _ throw_infra throw_error_nonempty).
  unfold rename_throw. rewrite R.
  by apply contains_app_r, contains_app_l.
Qed.

Lemma closing_no_throw_error line :
  strip line = lit ");" -> contains throw_error line = false.
Proof.
  intros E. apply not_true_iff_false. intros H. apply contains_head in H.
  apply elem_of_strip in H; [|done]. rewrite E in H.
  apply list_elem_of_In in H. simpl in H. by destruct H as [? | [? | []]].
Qed.

Lemma no_call_no_template l :
  contains throw_infra l = false -> is_template_statement l = false.
Proof.
  intros H. unfold is_template_statement.
  destruct (contains template_call l) eqn:E; [|done].
  rewrite (contains_trans throw_infra template_call l) in H; [done | by vm_compute | done].
Qed.

Lemma rstrip_line_feed l : rstrip (l ++ [nl]) = rstrip l.
Proof.
  induction l as [|c l IH]; [done|]. cbn [app rstrip]. by rewrite IH.
Qed.

Lemma strip_line_feed l : strip (l ++ [nl]) = strip l.
Proof. unfold strip. by rewrite rstrip_line_feed. Qed.

Lemma has_key_line_feed l : has_key l = true -> has_key (l ++ [nl]) = true.
Proof.
  unfold has_key. rewrite !existsb_exists. intros (key & Hk & Hc).
  exists key. split; [done|]. by apply contains_app_l.
Qed.

Lemma no_call_line_feed l :
  contains throw_infra l = false -> contains throw_infra (l ++ [nl]) = false.
Proof. intros H. apply contains_app_false; [done | by vm_compute..]. Qed.

(** X20: fix_business_repo.py and then quick_fix_business.py on a
    statement over three lines.  Let the text behind the import guard
    hold, on three lines that are not the last, a line with
    [throw new Error(] that is no template statement once renamed, a
    message line that holds one of the eight messages, no call and no
    comma at its end, and a closing line [);].  Then the first script
    renames the call and leaves the other two lines, and the second
    script, reading what the first has written, puts the comma behind
    the message and the code in front of the closing parenthesis. *)
Theorem both_scripts_on_a_block (f : list N) (pre post : list (list N))
    (l0 l1 l2 : list N) :
  split_nl (inject_business f) = pre ++ l0 :: l1 :: l2 :: post ->
  post <> [] ->
  contains throw_error l0 = true ->
  is_template_statement (rename_throw l0) = false ->
  contains throw_error l1 = false -> contains throw_infra l1 = false ->
  has_key l1 = true -> ends_with (lit ",") (rstrip l1) = false ->
  strip l2 = lit ");" ->
  (split_nl (fix_business_repo f) !! length pre = Some (rename_throw l0) /\
   split_nl (fix_business_repo f) !! (length pre + 1) = Some l1 /\
   split_nl (fix_business_repo f) !! (length pre + 2) = Some l2) /\
  (quick_fix_lines (readlines (fix_business_repo f)) !! length pre
   = Some (rename_throw l0 ++ [nl]) /\
   quick_fix_lines (readlines (fix_business_repo f)) !! (length pre + 1)
   = Some (rstrip l1 ++ lit "," ++ [nl]) /\
   quick_fix_lines (readlines (fix_business_repo f)) !! (length pre + 2)
   = Some closing_with_code).
Proof.
  intros Hs Hpost Hc0 Ht0 He1 Hc1 Hk1 Hcomma Hs2.
  pose proof (fix_business_repo_lines f) as Hlines. rewrite Hs in Hlines.
  assert (fix_line (rename_throw l0) = rename_throw l0) as E0
    by (unfold fix_line; by rewrite Ht0).
  assert (fix_line (rename_throw l1) = l1) as E1.
  { unfold rename_throw. rewrite str_replace_absent by done.
    unfold fix_line. by rewrite no_call_no_template. }
  assert (fix_line (rename_throw l2) = l2) as E2.
  { unfold rename_throw. rewrite str_replace_absent by by apply closing_no_throw_error.
    unfold fix_line. by rewrite no_call_no_template by by apply closing_no_call. }
  rewrite map_app in Hlines. cbn [map] in Hlines. rewrite E0, E1, E2 in Hlines.
  set (pre' := map (fun l => fix_line (rename_throw l)) pre) in *.
  set (post' := map (fun l => fix_line (rename_throw l)) post) in *.
  assert (length pre' = length pre) as Hlen by apply length_map.
  assert (post' <> []) as Hpost' by (subst post'; by destruct post).
  assert (split_nl (fix_business_repo f) !! length pre = Some (rename_throw l0)) as R0.
  { rewrite Hlines, <- Hlen. by apply list_lookup_middle. }
  assert (split_nl (fix_business_repo f) !! (length pre + 1) = Some l1) as R1.
  { rewrite Hlines, <- Hlen, lookup_app_r by lia.
    by replace (length pre' + 1 - length pre') with 1 by lia. }
  assert (split_nl (fix_business_repo f) !! (length pre + 2) = Some l2) as R2.
  { rewrite Hlines, <- Hlen, lookup_app_r by lia.
    by replace (length pre' + 2 - length pre') with 2 by lia. }
  split; [done|].
  assert (length pre + 2 + 1 < length (split_nl (fix_business_repo f))) as Hlong.
  { rewrite Hlines, length_app. cbn [length]. destruct post'; [done|]. simpl. lia. }
  pose proof (split_nl_no_newline (fix_business_repo f)) as Hnl.
  assert (forall k l, split_nl (fix_business_repo f) !! k = Some l ->
            k <= length pre + 2 ->
            readlines (fix_business_repo f) !! k = Some (l ++ [nl])) as Hread.
  { intros k l Hk Hle. rewrite <- (join_split_nl (fix_business_repo f)) at 1.
    apply readlines_join; [done | done | lia]. }
  destruct (quick_fix_block (readlines (fix_business_repo f)) (length pre)
              (rename_throw l0 ++ [nl]) (l1 ++ [nl]) (l2 ++ [nl]))
    as (Q0 & Q1 & Q2).
  - apply Hread; [done | lia].
  - apply Hread; [done | lia].
  - apply Hread; [done | lia].
  - by apply contains_app_l, rename_throw_call.
  - by rewrite strip_line_feed.
  - by apply no_call_line_feed.
  - rewrite strip_line_feed. by apply has_key_not_closing.
  - rewrite has_key_line_feed in Q2 by done.
    unfold with_comma in Q1. rewrite rstrip_line_feed, Hcomma in Q1. done.
Qed.

(** An instance of X20: a statement over three lines between a comment
    and a [return]. *)
Lemma both_scripts_on_a_sample_block :
  (split_nl (fix_business_repo source_block) !! 1
   = Some (lit "  throw new InfrastructureException(") /\
   split_nl (fix_business_repo source_block) !! 2
   = Some (lit "    `Failed to save business: ${e}`") /\
   split_nl (fix_business_repo source_block) !! 3 = Some (lit "  );")) /\
  (quick_fix_lines (readlines (fix_business_repo source_block)) !! 1
   = Some (lit "  throw new InfrastructureException(" ++ [nl]) /\
   quick_fix_lines (readlines (fix_business_repo source_block)) !! 2
   = Some (lit "    `Failed to save business: ${e}`," ++ [nl]) /\
   quick_fix_lines (readlines (fix_business_repo source_block)) !! 3
   = Some closing_with_code).
Proof.
  apply (both_scripts_on_a_block source_block [lit "// save"] [lit "  return;"; []]
           (lit "  throw new Error(") (lit "    `Failed to save business: ${e}`")
           (lit "  );")); by vm_compute.
Defined.

(** * The claims *)

(** C1, as stated, fails: on a file with one single-line template
    statement the second run of fix_business_repo.py appends a second
    code argument. *)
Lemma C1_second_run_duplicates_code :
  fix_business_repo template_sample = template_with_code /\
  fix_business_repo (fix_business_repo template_sample)
    = lit "throw new InfrastructureException(`boom`, " ++ dq :: lit "INFRASTRUCTURE_ERROR"
      ++ dq :: lit ", " ++ dq :: lit "INFRASTRUCTURE_ERROR" ++ dq :: lit ");" /\
  fix_business_repo (fix_business_repo template_sample)
    <> fix_business_repo template_sample.
Proof.
  split_and!; [by vm_compute.. |].
  apply (bool_decide_unpack _). by vm_compute.
Qed.

(** C1 (amended): running fix_business_repo.py twice yields the same text
    as running it once exactly for the files in which, after the import
    guard and the rename, no line holds a template-literal call and ends
    with [);].  On every other file the second run appends a further code
    argument: the script does not detect the two-argument form. *)
Theorem C1_idempotent_iff_no_code_appended (f : text) :
  fix_business_repo (fix_business_repo f) = fix_business_repo f
  <-> (forall line, line ∈ split_nl (rename_throw (inject_business f)) ->
                    is_template_statement line = false).
Proof.
  rewrite fix_business_repo_twice, fix_business_repo_unfold.
  set (ls := split_nl (rename_throw (inject_business f))).
  assert (Forall (fun l => nl ∉ l) ls) as Hnl by apply split_nl_no_newline.
  assert (ls <> []) as Hne by apply split_nl_nonempty.
  rewrite split_join_nl;
    [|by destruct ls | by apply fix_lines_no_newline].
  split.
  - intros E line Hl.
    apply (f_equal split_nl) in E.
    rewrite !split_join_nl in E;
      [|by destruct ls | by apply fix_lines_no_newline
       |by destruct ls | by do 2 apply fix_lines_no_newline].
    apply list_elem_of_lookup in Hl as [i Hi].
    apply (f_equal (fun l => l !! i)) in E.
    rewrite !list_lookup_fmap, Hi in E. simpl in E. injection E as E.
    destruct (is_template_statement line) eqn:Ht; [|done]. exfalso.
    pose proof (append_code_template _ Ht) as [Ht' Hneq].
    assert (fix_line line = append_code line) as E1
      by (unfold fix_line; by rewrite Ht).
    rewrite E1 in E. unfold fix_line in E. by rewrite Ht' in E.
  - intros H. by rewrite !(map_fix_line_id ls H).
Qed.

(** An instance of C1 (amended): a file without template literal. *)
Lemma C1_idempotent_on_single_quoted :
  fix_business_repo (fix_business_repo single_quoted_sample)
  = fix_business_repo single_quoted_sample.
Proof.
  apply (proj2 (C1_idempotent_iff_no_code_appended single_quoted_sample)).
  intros line Hl. apply list_elem_of_In in Hl. vm_compute in Hl.
  destruct Hl as [<- | []]. by vm_compute.
Defined.

(** C2, as stated, fails: the patterns of fix_business_sector_repo.py
    write a single-quoted message between double quotes. *)
Lemma C2_single_quotes_become_double :
  fix_business_sector_repo single_quoted_sample
  = lit "throw new InfrastructureException(" ++ dq :: lit "boom" ++ dq ::
    lit ", " ++ dq :: lit "INFRASTRUCTURE_ERROR" ++ dq :: lit ");" /\
  contains (lit "'boom'") single_quoted_sample = true /\
  contains (lit "'boom'") (fix_business_sector_repo single_quoted_sample) = false.
Proof. split_and!; by vm_compute. Qed.

(** C2 (amended).  fix_business_sector_repo.py: let the text behind the
    import guard be [a], a statement [throw new Error(<q>m<q>);] and [b],
    with [q] one of the three delimiters, [m] not empty and without [q],
    and no [throw new Error(] in [a] or in [m].  The script writes [a],
    the renamed call with [m] character by character and the code, and
    [b] rewritten; double quotes and backticks are kept, single quotes
    are written as double quotes.  The text behind the guard is the file
    itself when the marker occurs in it or no line starts with
    [import ]; when the first such line stands before the statement the
    import line is inserted behind it and the statement is rewritten in
    the same way.  fix_business_repo.py: a line of the text behind its
    guard that is a template statement [throw new Error(`m`);] between
    [u] and white space, with no [throw new Error(] in [u] or [m] and
    no [);] before the closing one, is written with the call renamed,
    [m] and its backticks kept and the code in front of [);]; the text
    behind the guard is the file itself when the marker occurs in it or
    the anchor does not.  Outside these provisos a payload is not kept:
    the guard of fix_business_sector_repo.py inserts the import line
    inside [import_in_payload], and the rename of fix_business_repo.py
    rewrites the call inside [call_in_payload]. *)
Theorem C2_payload_kept_single_quotes_doubled :
  (written_delim sq = dq /\ written_delim dq = dq /\ written_delim bt = bt) /\
  (forall content a q m b,
     q ∈ delimiters -> m <> [] -> q ∉ m ->
     contains throw_error a = false -> contains throw_error m = false ->
     inject_sector content = a ++ (throw_error ++ q :: m ++ q :: lit ");") ++ b ->
     fix_business_sector_repo content
     = a ++ (throw_infra ++ written_delim q :: m ++ written_delim q ::
             lit ", " ++ dq :: lit "INFRASTRUCTURE_ERROR" ++ dq :: lit ");")
         ++ apply_patterns sector_patterns b) /\
  (forall content,
     contains marker content = true \/
     (forall l, l ∈ split_nl content -> starts_with (lit "import ") l = false) ->
     inject_sector content = content) /\
  (forall pre line a q m b,
     Forall (fun l => (nl ∉ l) /\ starts_with (lit "import ") l = false) pre ->
     nl ∉ line -> starts_with (lit "import ") line = true ->
     contains marker
       (join_nl (pre ++ [line]) ++ nl :: a ++ (throw_error ++ q :: m ++ q :: lit ");") ++ b)
     = false ->
     q ∈ delimiters -> m <> [] -> q ∉ m ->
     contains throw_error (join_nl (pre ++ [line]) ++ nl :: a) = false ->
     contains throw_error m = false ->
     fix_business_sector_repo
       (join_nl (pre ++ [line]) ++ nl :: a ++ (throw_error ++ q :: m ++ q :: lit ");") ++ b)
     = join_nl (pre ++ [line]) ++ nl :: import_decl ++ nl :: a
       ++ (throw_infra ++ written_delim q :: m ++ written_delim q ::
           lit ", " ++ dq :: lit "INFRASTRUCTURE_ERROR" ++ dq :: lit ");")
       ++ apply_patterns sector_patterns b) /\
  (forall f k u m w,
     split_nl (inject_business f) !! k
     = Some (u ++ throw_error ++ bt :: m ++ bt :: lit ");" ++ w) ->
     all_space w = true ->
     contains throw_error u = false -> contains throw_error m = false ->
     contains (lit ");") (u ++ throw_infra ++ bt :: m ++ [bt]) = false ->
     split_nl (fix_business_repo f) !! k
     = Some (u ++ throw_infra ++ bt :: m ++ bt ::
             lit ", " ++ dq :: lit "INFRASTRUCTURE_ERROR" ++ dq :: lit ");" ++ w)) /\
  (forall f,
     contains marker f = true \/ contains business_anchor f = false ->
     inject_business f = f) /\
  fix_business_sector_repo import_in_payload
  = lit "throw new InfrastructureException(`first" ++ nl ::
    lit "import second" ++ nl :: import_decl ++ nl ::
    lit "third`, " ++ dq :: lit "INFRASTRUCTURE_ERROR" ++ dq :: lit ");" /\
  fix_business_repo call_in_payload
  = lit "throw new InfrastructureException(`retry: throw new InfrastructureException( failed`, "
    ++ dq :: lit "INFRASTRUCTURE_ERROR" ++ dq :: lit ");".
Proof.
  change (lit ", " ++ dq :: lit "INFRASTRUCTURE_ERROR" ++ dq :: lit ");") with code_suffix.
  assert (forall a q m b,
            q ∈ delimiters -> m <> [] -> q ∉ m ->
            contains throw_error a = false -> contains throw_error m = false ->
            apply_patterns sector_patterns (a ++ stmt_in q m ++ b)
            = a ++ stmt_out (written_delim q) m ++ apply_patterns sector_patterns b)
    as Hrewrite.
  { intros a q m b Hq Hm Hqm Ha Hp.
    assert (exists r, r ∈ sector_patterns /\ delim r = q /\ out_delim r = written_delim q)
      as (r & Hr & <- & <-).
    { delimiter_cases Hq;
        [exists single_quoted | exists double_quoted | exists template];
        (split; [apply list_elem_of_In; simpl; tauto | done]). }
    apply (patterns_rewrite sector_patterns); try done.
    - apply sector_patterns_ok.
    - intros r' Hf. apply list_elem_of_In in Hr. simpl in Hr.
      destruct Hr as [<- | [<- | [<- | []]]];
        vm_compute in Hf; by injection Hf as <-. }
  split_and!; [done | done | done | | | | | | by vm_compute | by vm_compute].
  - intros content a q m b Hq Hm Hqm Ha Hp E.
    unfold fix_business_sector_repo. rewrite E. by apply Hrewrite.
  - intros content [H | H]; [by apply inject_sector_present|].
    unfold inject_sector. destruct (contains marker content); [done|].
    rewrite insert_after_first_import_none by done. apply join_split_nl.
  - intros pre line a q m b Hpre Hline Himport Hmarker Hq Hm Hqm Ha Hp.
    unfold fix_business_sector_repo.
    rewrite inject_sector_header by done.
    replace (join_nl (pre ++ [line]) ++ nl :: import_decl ++ nl :: a
             ++ (throw_error ++ q :: m ++ q :: lit ");") ++ b)
      with ((join_nl (pre ++ [line]) ++ nl :: import_decl ++ nl :: a)
            ++ stmt_in q m ++ b)
      by (unfold stmt_in; by reassoc).
    rewrite Hrewrite; try done.
    + unfold stmt_out. by reassoc.
    + replace (join_nl (pre ++ [line]) ++ nl :: import_decl ++ nl :: a)
        with ((join_nl (pre ++ [line]) ++ [nl]) ++ (import_decl ++ [nl]) ++ a)
        by by reassoc.
      apply insert_no_call; [done|]. by rewrite <- app_assoc.
  - intros f k u m w Hk Hw Hu Hm Hc.
    rewrite fix_business_repo_lines, list_lookup_fmap, Hk. cbn [fmap option_fmap option_map].
    f_equal.
    assert (rename_throw (u ++ throw_error ++ bt :: m ++ bt :: lit ");" ++ w)
            = u ++ throw_infra ++ bt :: m ++ bt :: lit ");" ++ w) as ->.
    { unfold rename_throw.
      rewrite str_replace_around by (done || apply unbordered_throw_error).
      rewrite (str_replace_absent _ _ u) by done.
      rewrite (str_replace_absent _ _ (bt :: _)); [done|].
      apply quiet_contains; [done|].
      apply quiet_message; [apply (bool_decide_unpack _); by vm_compute | done |].
      apply quiet_app; [by apply quiet_inside | by apply quiet_all_space]. }
    replace (u ++ throw_infra ++ bt :: m ++ bt :: lit ");" ++ w)
      with ((u ++ throw_infra ++ bt :: m ++ [bt]) ++ lit ");" ++ w) by by reassoc.
    rewrite fix_line_closing;
      [|apply contains_app_r, starts_with_contains; by vm_compute|done].
    unfold append_code at 1. rewrite str_replace_absent by done. by reassoc.
  - intros f [H | H]; [by apply inject_business_present|].
    unfold inject_business. destruct (contains marker f); [done|].
    by apply str_replace_absent.
Qed.

(** An instance of C2 (amended): a single-quoted statement in a file that
    holds the marker, the same statement behind an import line in a file
    without the marker, and a template line with white space at its
    end. *)
Lemma C2_single_quoted_statement :
  fix_business_sector_repo marked_quoted_file
  = (lit "// InfrastructureException" ++ [nl])
    ++ (throw_infra ++ written_delim sq :: lit "boom" ++ written_delim sq ::
        lit ", " ++ dq :: lit "INFRASTRUCTURE_ERROR" ++ dq :: lit ");")
    ++ apply_patterns sector_patterns [nl] /\
  fix_business_sector_repo
    (join_nl ([lit "// repository"] ++ [business_anchor]) ++ nl :: [nl]
     ++ (throw_error ++ sq :: lit "boom" ++ sq :: lit ");") ++ [nl])
  = join_nl ([lit "// repository"] ++ [business_anchor]) ++ nl :: import_decl ++ nl :: [nl]
    ++ (throw_infra ++ written_delim sq :: lit "boom" ++ written_delim sq ::
        lit ", " ++ dq :: lit "INFRASTRUCTURE_ERROR" ++ dq :: lit ");")
    ++ apply_patterns sector_patterns [nl] /\
  split_nl (fix_business_repo (lit "  throw new Error(`boom`); ")) !! 0
  = Some (lit "  " ++ throw_infra ++ bt :: lit "boom" ++ bt ::
          lit ", " ++ dq :: lit "INFRASTRUCTURE_ERROR" ++ dq :: lit ");" ++ lit " ").
Proof.
  destruct C2_payload_kept_single_quotes_doubled as (_ & Hs & _ & Hh & Hb & _).
  split_and!.
  - apply Hs; [apply (bool_decide_unpack _); by vm_compute | done
              |apply (bool_decide_unpack _); by vm_compute | by vm_compute..].
  - apply Hh.
    + constructor; [|done]. split; [apply (bool_decide_unpack _)|]; by vm_compute.
    + apply (bool_decide_unpack _). by vm_compute.
    + by vm_compute.
    + by vm_compute.
    + apply (bool_decide_unpack _). by vm_compute.
    + done.
    + apply (bool_decide_unpack _). by vm_compute.
    + by vm_compute.
    + by vm_compute.
  - apply Hb; by vm_compute.
Defined.

(** C3, as stated, fails: a statement is rewritten and the output holds
    no import declaration, because the anchor line is not in the file; and
    with the anchor twice in the file, fix_business_repo.py inserts the
    declaration twice. *)
Lemma C3_rewritten_without_import :
  fix_business_repo template_sample = template_with_code /\
  occurrences import_decl (fix_business_repo template_sample) = 0 /\
  occurrences import_decl (fix_business_sector_repo template_sample) = 0 /\
  occurrences import_decl (fix_business_repo twice_anchored_sample) = 2.
Proof. split_and!; by vm_compute. Qed.

(** C3 (amended): when the marker [InfrastructureException] occurs in the
    input, no script inserts anything: the output holds the import
    declaration as often as the input.  When the marker does not occur,
    the output of fix_business_repo.py holds the declaration once if the
    input holds the anchor line once, and not at all if it holds no
    anchor line; the output of fix_business_sector_repo.py holds it once,
    behind the first line that starts with [import ], and not at all when
    no line does.  None of this depends on the statements rewritten. *)
Theorem C3_import_count (content : text) :
  (contains marker content = true ->
     occurrences import_decl (fix_business_repo content)
       = occurrences import_decl content /\
     occurrences import_decl (fix_business_sector_repo content)
       = occurrences import_decl content) /\
  (contains marker content = false ->
     (occurrences business_anchor content = 1 ->
        occurrences import_decl (fix_business_repo content) = 1) /\
     (contains business_anchor content = false ->
        occurrences import_decl (fix_business_repo content) = 0) /\
     (forall pre line post,
        split_nl content = pre ++ line :: post ->
        (forall l, l ∈ pre -> starts_with (lit "import ") l = false) ->
        starts_with (lit "import ") line = true ->
        inject_sector content = join_nl (pre ++ line :: import_decl :: post) /\
        occurrences import_decl (fix_business_sector_repo content) = 1) /\
     ((forall l, l ∈ split_nl content -> starts_with (lit "import ") l = false) ->
        occurrences import_decl (fix_business_sector_repo content) = 0)).
Proof.
  split.
  - intros Hm. split.
    + by rewrite import_count_after_inject, inject_business_present.
    + unfold fix_business_sector_repo, inject_sector. rewrite Hm.
      apply occurrences_import_patterns, sector_in_calendar.
  - intros Hm. split_and!.
    + intros Hone. by rewrite import_count_after_inject, inject_business_count.
    + intros Hnone%contains_false_occurrences.
      by rewrite import_count_after_inject, inject_business_count.
    + intros pre line post Hs Hpre Hline.
      split; [by apply inject_sector_found|].
      unfold fix_business_sector_repo. rewrite occurrences_import_patterns.
      * by apply (inject_sector_once content pre line post).
      * apply sector_in_calendar.
    + intros Hnone. unfold fix_business_sector_repo.
      rewrite occurrences_import_patterns by apply sector_in_calendar.
      unfold inject_sector. rewrite Hm.
      rewrite insert_after_first_import_none, join_split_nl by done.
      by apply no_marker_no_import.
Qed.

(** An instance of C3 (amended): the anchor line and one statement. *)
Lemma C3_anchored_sample :
  occurrences import_decl (fix_business_repo anchored_sample) = 1 /\
  occurrences import_decl (fix_business_sector_repo anchored_sample) = 1.
Proof.
  destruct (C3_import_count anchored_sample) as [_ H].
  destruct H as (H1 & _ & H2 & _); [by vm_compute|].
  split; [apply H1; by vm_compute|].
  apply (H2 [] business_anchor [template_sample]); [by vm_compute | | by vm_compute].
  by intros l ?%elem_of_nil.
Defined.




(** C5, as stated, fails: no script turns the line of the scenario into
    the expected line, and the code [BUSINESS_SAVE_ERROR] occurs in no
    script. *)
Lemma C5_scenario_not_produced :
  fix_business_repo scenario_line <> scenario_expected /\
  fix_business_sector_repo scenario_line <> scenario_expected /\
  fix_calendar_repo scenario_line <> scenario_expected /\
  fix_role_assignment_repo scenario_line <> scenario_expected /\
  fix_rbac_context_repo scenario_line <> scenario_expected /\
  quick_fix_business scenario_line <> scenario_expected.
Proof. split_and!; apply (bool_decide_unpack _); by vm_compute. Qed.

(** C5 (amended): given the line of the scenario, fix_business_repo.py
    renames the constructor and appends no code, because the message is
    not a template literal; the scripts with regular expressions leave the
    line as it is, because [+ err] stands between the message and [);];
    quick_fix_business.py leaves a single line as it is.  Behind the
    anchor line, fix_business_repo.py inserts the import once. *)
Theorem C5_scenario :
  fix_business_repo scenario_line = scenario_renamed /\
  fix_business_sector_repo scenario_line = scenario_line /\
  fix_calendar_repo scenario_line = scenario_line /\
  quick_fix_business scenario_line = scenario_line /\
  fix_business_repo (business_anchor ++ nl :: scenario_line)
    = business_anchor ++ nl :: import_decl ++ nl :: scenario_renamed /\
  occurrences import_decl (fix_business_repo (business_anchor ++ nl :: scenario_line)) = 1.
Proof. split_and!; by vm_compute. Qed.

(** C6, as stated, fails: the closing line of the block comes out with
    six spaces in front, whatever its indentation was, and a block whose
    message is none of the eight gets no code argument at all. *)
Lemma C6_closing_line_reindented :
  readlines (quick_fix_business (writelines known_block))
  = [ lit "throw new InfrastructureException(" ++ [nl];
      lit "  `Failed to save business: ${e}`," ++ [nl];
      lit "        " ++ dq :: lit "INFRASTRUCTURE_ERROR" ++ dq :: [nl];
      lit "      );" ++ [nl] ] /\
  indentation (lit "      );" ++ [nl]) <> indentation (lit ");" ++ [nl]) /\
  quick_fix_business (writelines unknown_block)
  = lit "      throw new InfrastructureException(" ++ nl ::
    lit "        `Failed to archive business: ${e}`," ++ nl ::
    lit "      );" ++ [nl].
Proof. split_and!; by vm_compute. Qed.

(** C6 (amended): for a block of three lines (a line with the constructor
    call, a message line that holds one of the eight messages and has no
    trailing comma, a closing line [);]), quick_fix_business.py keeps
    the first line, puts a comma at the end of the message line, which
    keeps its indentation, and replaces the closing line by the code on a
    line indented by eight spaces and [);] on a line indented by six,
    whatever the indentation of the closing line was. *)
Theorem C6_known_block_gets_code (lines : list text) (i : nat) (l0 l1 l2 : text) :
  lines !! i = Some l0 -> lines !! (i + 1) = Some l1 -> lines !! (i + 2) = Some l2 ->
  contains throw_infra l0 = true ->
  strip l2 = lit ");" ->
  has_key l1 = true ->
  contains throw_infra l1 = false ->
  ends_with (lit ",") (rstrip l1) = false ->
  quick_fix_lines lines !! i = Some l0 /\
  quick_fix_lines lines !! (i + 1) = Some (rstrip l1 ++ lit "," ++ [nl]) /\
  indentation (rstrip l1 ++ lit "," ++ [nl]) = indentation l1 /\
  quick_fix_lines lines !! (i + 2) = Some closing_with_code.
Proof.
  intros H0 H1 H2 Hcall Hclose Hkey Hno Hcomma.
  destruct (quick_fix_block lines i l0 l1 l2 H0 H1 H2 Hcall Hclose Hno
              (has_key_not_closing _ Hkey)) as (R0 & R1 & R2).
  unfold with_comma in R1. rewrite Hcomma in R1. rewrite Hkey in R2.
  split_and!; [done.. | | done].
  unfold has_key in Hkey. apply existsb_exists in Hkey as (key & Hk & Hc).
  apply (indentation_rstrip 70%N); [|done].
  simpl in Hk. repeat (destruct Hk as [<- | Hk]; [by apply contains_head in Hc|]).
  done.
Qed.

(** An instance of C6 (amended): the block whose closing line is not
    indented. *)
Lemma C6_known_block :
  quick_fix_lines known_block !! 0
    = Some (lit "throw new InfrastructureException(" ++ [nl]) /\
  quick_fix_lines known_block !! 1
    = Some (lit "  `Failed to save business: ${e}`," ++ [nl]) /\
  indentation (lit "  `Failed to save business: ${e}`," ++ [nl])
    = indentation (lit "  `Failed to save business: ${e}`" ++ [nl]) /\
  quick_fix_lines known_block !! 2 = Some closing_with_code.
Proof.
  apply (C6_known_block_gets_code known_block 0
           (lit "throw new InfrastructureException(" ++ [nl])
           (lit "  `Failed to save business: ${e}`" ++ [nl])
           (lit ");" ++ [nl])); by vm_compute.
Defined.

(** C7, as stated, fails: quick_fix_business.py has no default code.  A
    block whose message is none of the eight is rewritten (it gets the
    comma) and the text written holds no code. *)
Lemma C7_rewritten_without_code :
  quick_fix_business (writelines unknown_block)
  = lit "      throw new InfrastructureException(" ++ nl ::
    lit "        `Failed to archive business: ${e}`," ++ nl ::
    lit "      );" ++ [nl] /\
  quick_fix_business (writelines unknown_block) <> writelines unknown_block /\
  contains (lit "INFRASTRUCTURE_ERROR")
    (quick_fix_business (writelines unknown_block)) = false.
Proof.
  split_and!; [by vm_compute | | by vm_compute].
  apply (bool_decide_unpack _). by vm_compute.
Qed.

(** C7 (amended): the scripts have no table with a default.  The patterns
    of fix_calendar_repo.py write the one code [INFRASTRUCTURE_ERROR]
    into every statement they match.  In a block of quick_fix_business.py
    whose message line neither holds the call nor is a closing line, the
    call line is kept, the message line ends with a comma afterwards
    (lines 28 and 29), and the closing line gets the code for the eight
    messages only: with another message it is left as it is, without a
    code.  The proviso is needed: in [shared_blocks] the message line
    of the first block holds the call, and the closing line of that
    block comes out with a comma. *)
Theorem C7_constant_code_no_default :
  (forall r s out len,
     r ∈ calendar_patterns -> rule_matcher r s = Some (out, len) ->
     exists ws1 m ws2,
       take len s = throw_error ++ ws1 ++ delim r :: m ++ delim r :: ws2 ++ lit ");" /\
       out = throw_infra ++ out_delim r :: m ++ out_delim r ::
             lit ", " ++ dq :: lit "INFRASTRUCTURE_ERROR" ++ dq :: lit ");") /\
  (forall r a m b,
     r ∈ calendar_patterns -> m <> [] -> delim r ∉ m ->
     contains throw_error a = false -> contains throw_error m = false ->
     apply_patterns calendar_patterns (a ++ stmt_in (delim r) m ++ b)
     = a ++ (throw_infra ++ out_delim r :: m ++ out_delim r ::
             lit ", " ++ dq :: lit "INFRASTRUCTURE_ERROR" ++ dq :: lit ");")
         ++ apply_patterns calendar_patterns b) /\
  (forall lines i l0 l1 l2,
     lines !! i = Some l0 -> lines !! (i + 1) = Some l1 ->
     lines !! (i + 2) = Some l2 ->
     contains throw_infra l0 = true -> strip l2 = lit ");" ->
     contains throw_infra l1 = false -> strip l1 <> lit ");" ->
     quick_fix_lines lines !! i = Some l0 /\
     quick_fix_lines lines !! (i + 1)
     = Some (if ends_with (lit ",") (rstrip l1) then l1
             else rstrip l1 ++ lit "," ++ [nl]) /\
     quick_fix_lines lines !! (i + 2)
     = Some (if has_key l1 then closing_with_code else l2)) /\
  (shared_blocks !! 0 = Some (lit "throw new InfrastructureException(" ++ [nl]) /\
   shared_blocks !! 1 = Some (lit "throw new InfrastructureException(x" ++ [nl]) /\
   shared_blocks !! 2 = Some (lit ");" ++ [nl]) /\
   has_key (lit "throw new InfrastructureException(x" ++ [nl]) = false /\
   quick_fix_lines shared_blocks !! 2 = Some (lit ");," ++ [nl])).
Proof.
  split_and!.
  - intros r s out len _ (ws1 & m & ws2 & rest & -> & -> & -> & _)%rule_matcher_Some.
    exists ws1, m, ws2. by rewrite take_app_length.
  - intros r a m b Hr Hm Hq Ha Hp.
    apply (patterns_rewrite calendar_patterns); try done.
    + apply calendar_patterns_ok.
    + intros r' Hf. apply list_elem_of_In in Hr. simpl in Hr.
      destruct Hr as [<- | [<- | [<- | [<- | []]]]];
        vm_compute in Hf; by injection Hf as <-.
  - intros lines i l0 l1 l2 H0 H1 H2 Hcall Hclose Hno Hnc.
    exact (quick_fix_block lines i l0 l1 l2 H0 H1 H2 Hcall Hclose Hno Hnc).
  - by vm_compute.
  - by vm_compute.
  - by vm_compute.
  - by vm_compute.
  - by vm_compute.
Qed.

(** An instance of C7 (amended): a double-quoted statement behind a
    comment, and the block whose message is none of the eight. *)
Lemma C7_calendar_statement_and_unknown_block :
  apply_patterns calendar_patterns
    (lit "// save" ++ stmt_in dq (lit "boom") ++ [nl])
  = lit "// save" ++ (throw_infra ++ dq :: lit "boom" ++ dq ::
      lit ", " ++ dq :: lit "INFRASTRUCTURE_ERROR" ++ dq :: lit ");")
    ++ apply_patterns calendar_patterns [nl] /\
  quick_fix_lines unknown_block !! 0
  = Some (lit "      throw new InfrastructureException(" ++ [nl]) /\
  quick_fix_lines unknown_block !! 1
  = Some (lit "        `Failed to archive business: ${e}`," ++ [nl]) /\
  quick_fix_lines unknown_block !! 2 = Some (lit "      );" ++ [nl]).
Proof.
  split.
  - apply (proj1 (proj2 C7_constant_code_no_default) double_quoted);
      [apply list_elem_of_In; simpl; tauto | done
      |apply (bool_decide_unpack _); by vm_compute | by vm_compute..].
  - apply (proj1 (proj2 (proj2 C7_constant_code_no_default)) unknown_block 0
             (lit "      throw new InfrastructureException(" ++ [nl])
             (lit "        `Failed to archive business: ${e}`" ++ [nl])
             (lit "      );" ++ [nl])); by vm_compute.
Defined.






(** C10, as stated, fails: the code does not go to template statements
    only.  Line 23 replaces every [);] of a line that passes the test of
    line 21, so the single-quoted statement in front of a template
    statement gets the code as well. *)
Lemma C10_code_on_a_quoted_statement :
  fix_business_repo quoted_then_template
  = lit "throw new InfrastructureException('quoted', " ++ dq ::
    lit "INFRASTRUCTURE_ERROR" ++ dq ::
    lit "); throw new InfrastructureException(`tpl`, " ++ dq ::
    lit "INFRASTRUCTURE_ERROR" ++ dq :: lit ");" /\
  contains (lit "throw new Error('quoted');") quoted_then_template = true /\
  contains (lit "throw new InfrastructureException('quoted', " ++ dq ::
            lit "INFRASTRUCTURE_ERROR" ++ dq :: lit ");")
    (fix_business_repo quoted_then_template) = true.
Proof. split_and!; by vm_compute. Qed.

(** C10 (amended): fix_business_repo.py renames every occurrence of
    [throw new Error(], wherever it stands.  The code is added by line,
    not by statement: a line of the renamed text that holds the
    template-literal call and ends, stripped, with [);] gets the code in
    front of every [);] that it holds, whatever that [);] closes; every
    other line is left as renamed.  So a file in which no line passes
    the test gets the import guard and the rename and nothing else, and
    statements over several lines and statements with a quoted message
    on a line of their own come out with the message as their only
    argument. *)
Theorem C10_rename_everywhere_code_by_line :
  (forall a b, rename_throw (a ++ throw_error ++ b)
               = rename_throw a ++ throw_infra ++ rename_throw b) /\
  (forall content, contains throw_error (fix_business_repo content) = false) /\
  (forall content, fix_business_repo content
     = join_nl (map fix_line (split_nl (rename_throw (inject_business content))))) /\
  (forall line,
     is_template_statement line = true
     <-> contains template_call line = true /\
         exists u w, line = u ++ lit ");" ++ w /\ all_space w = true) /\
  (forall line, is_template_statement line = false -> fix_line line = line) /\
  (forall u v, is_template_statement (u ++ lit ");" ++ v) = true ->
     fix_line (u ++ lit ");" ++ v)
     = append_code u ++ (lit ", " ++ dq :: lit "INFRASTRUCTURE_ERROR" ++ dq :: lit ");")
       ++ append_code v) /\
  (forall s, contains (lit ");") s = false -> append_code s = s) /\
  (forall line, is_template_statement line = true ->
     1 <= occurrences (lit ");") line /\
     occurrences (lit ", " ++ dq :: lit "INFRASTRUCTURE_ERROR" ++ dq :: lit ");")
       (fix_line line)
     = occurrences (lit ");") line) /\
  (forall content,
     (forall line, line ∈ split_nl (rename_throw (inject_business content)) ->
                   is_template_statement line = false) ->
     fix_business_repo content = rename_throw (inject_business content)) /\
  fix_business_repo single_quoted_sample
    = lit "throw new InfrastructureException('boom');" /\
  fix_business_repo double_quoted_sample
    = lit "throw new InfrastructureException(" ++ dq :: lit "boom" ++ dq :: lit ");" /\
  fix_business_repo multi_line_sample
    = lit "throw new InfrastructureException(" ++ nl :: lit "  `boom`" ++ nl :: lit ");".
Proof.
  change (lit ", " ++ dq :: lit "INFRASTRUCTURE_ERROR" ++ dq :: lit ");") with code_suffix.
  split_and!.
  - intros a b. apply str_replace_around; [done | apply unbordered_throw_error].
  - apply fix_business_repo_no_throw_error.
  - apply fix_business_repo_unfold.
  - intros line. unfold is_template_statement.
    rewrite andb_true_iff. by rewrite closing_line_shape.
  - intros line H. unfold fix_line. by rewrite H.
  - intros u v H. unfold fix_line. rewrite H. unfold append_code.
    by rewrite str_replace_around by done.
  - intros s Hs. unfold append_code. by rewrite str_replace_absent.
  - intros line Ht. unfold fix_line. rewrite Ht. split; [|apply occurrences_append_code].
    apply andb_true_iff in Ht as [_ (u & w & -> & _)%closing_line_shape].
    apply contains_occurrences, contains_app_r, contains_app_l.
    by apply starts_with_contains.
  - intros content H. rewrite fix_business_repo_unfold.
    rewrite map_fix_line_id by done. apply join_split_nl.
  - by vm_compute.
  - by vm_compute.
  - by vm_compute.
Qed.

(** An instance of C10 (amended): the renamed line with a single-quoted
    statement in front of a template statement. *)
Lemma C10_quoted_statement_on_a_template_line :
  fix_line (lit "throw new InfrastructureException('quoted'" ++ lit ");"
            ++ lit " throw new InfrastructureException(`tpl`);")
  = append_code (lit "throw new InfrastructureException('quoted'")
    ++ (lit ", " ++ dq :: lit "INFRASTRUCTURE_ERROR" ++ dq :: lit ");")
    ++ append_code (lit " throw new InfrastructureException(`tpl`);").
Proof.
  apply (proj1 (proj2 (proj2 (proj2 (proj2 (proj2
           C10_rename_everywhere_code_by_line)))))
           (lit "throw new InfrastructureException('quoted'")
           (lit " throw new InfrastructureException(`tpl`);")).
  by vm_compute.
Defined.
